(** * graphVCS: the commit graph, the fingerprints and the merge decision

    A shallow embedding of [messwith_real.py].  The program is a client of
    three stores: a property graph (Neo4j), a key/blob store (one S3 bucket)
    and a one-entry JSON file holding the last known commit id.  Each store
    is a field of the record [world]; every method of [VersionControl] is a
    computation in a state-and-exception monad over [world].

    Conventions.
    - A Python [str] is a [string] holding its UTF-8 bytes, so [encode] is the
      identity on the bytes and comparing two strings byte by byte agrees
      with Python's comparison by code point.  The last character of the
      persisted id is read as its last byte, which is the character when the
      byte is ASCII; what is stated about an id that does not end in a digit
      is stated for an ASCII last character.
    - Python [bytes] are [list byte].
    - [datetime.now().isoformat()] is an argument ([timestamp]) of the
      operations that read the clock.
    - The stores are reachable: connection and credential failures are
      outside the model.  What the stores refuse is in it: the bucket refuses
      an empty key and a key of more than 1024 bytes, the bucket lists by
      key, and the file system refuses a directory where a file is and a
      file where a directory is. *)

From Stdlib Require Import List ZArith Lia Bool String Ascii DecimalString.
From Stdlib Require Import Permutation Sorted Arith PeanoNat.
From Stdlib.Strings Require Import Byte.
Import ListNotations.
Open Scope string_scope.
Open Scope list_scope.

Set Implicit Arguments.

(* ------------------------------------------------------------------ *)
(** * SHA-1 ([hashlib.sha1]), FIPS 180-4 *)

Module SHA1.
Open Scope Z_scope.

Definition add32 (x y : Z) : Z := (x + y) mod 2 ^ 32.

Definition rotl (n x : Z) : Z :=
  Z.lor (Z.shiftl x n mod 2 ^ 32) (Z.shiftr x (32 - n)).

Definition not32 (x : Z) : Z := Z.lxor x 0xFFFFFFFF.

(** The [width] low bytes of [v], most significant first. *)
Definition be_bytes (width : nat) (v : Z) : list Z :=
  map (fun i => Z.shiftr v (8 * Z.of_nat i) mod 256) (rev (seq 0 width)).

(** Padding: a 1 bit, zeros up to 56 mod 64, the bit length on 8 bytes. *)
Definition pad (msg : list Z) : list Z :=
  let len := Z.of_nat (List.length msg) in
  let zeros := Z.to_nat ((55 - len) mod 64) in
  msg ++ [0x80] ++ repeat 0 zeros ++ be_bytes 8 (8 * len).

Fixpoint words (fuel : nat) (bs : list Z) : list Z :=
  match fuel, bs with
  | S f, a :: b :: c :: d :: r =>
      (Z.shiftl a 24 + Z.shiftl b 16 + Z.shiftl c 8 + d) :: words f r
  | _, _ => []
  end.

Fixpoint blocks (fuel : nat) (ws : list Z) : list (list Z) :=
  match fuel, ws with
  | _, [] => []
  | O, _ => []
  | S f, _ => firstn 16 ws :: blocks f (skipn 16 ws)
  end.

(** The message schedule, newest word first: the head is W(t-1). *)
Fixpoint schedule (n : nat) (rev_w : list Z) : list Z :=
  match n with
  | O => rev_w
  | S n' =>
      let w := rotl 1 (Z.lxor (Z.lxor (nth 2 rev_w 0) (nth 7 rev_w 0))
                              (Z.lxor (nth 13 rev_w 0) (nth 15 rev_w 0))) in
      schedule n' (w :: rev_w)
  end.

Definition f_t (t : nat) (b c d : Z) : Z :=
  if (t <? 20)%nat then Z.lor (Z.land b c) (Z.land (not32 b) d)
  else if (t <? 40)%nat then Z.lxor (Z.lxor b c) d
  else if (t <? 60)%nat then
    Z.lor (Z.lor (Z.land b c) (Z.land b d)) (Z.land c d)
  else Z.lxor (Z.lxor b c) d.

Definition k_t (t : nat) : Z :=
  if (t <? 20)%nat then 0x5A827999
  else if (t <? 40)%nat then 0x6ED9EBA1
  else if (t <? 60)%nat then 0x8F1BBCDC
  else 0xCA62C1D6.

Definition state : Type := (Z * Z * Z * Z * Z)%type.

Definition round (s : state) (tw : nat * Z) : state :=
  let '(a, b, c, d, e) := s in
  let '(t, w) := tw in
  let tmp :=
    add32 (add32 (add32 (add32 (rotl 5 a) (f_t t b c d)) e) (k_t t)) w in
  (tmp, a, rotl 30 b, c, d).

Definition compress (h : state) (block : list Z) : state :=
  let w := rev (schedule 64 (rev block)) in
  let '(a, b, c, d, e) := fold_left round (combine (seq 0 80) w) h in
  let '(h0, h1, h2, h3, h4) := h in
  (add32 h0 a, add32 h1 b, add32 h2 c, add32 h3 d, add32 h4 e).

Definition init : state :=
  (0x67452301, 0xEFCDAB89, 0x98BADCFE, 0x10325476, 0xC3D2E1F0).

Definition digest (msg : list byte) : list Z :=
  let bs := pad (map (fun b => Z.of_N (Byte.to_N b)) msg) in
  let ws := words (List.length bs) bs in
  let '(h0, h1, h2, h3, h4) :=
    fold_left compress (blocks (List.length ws) ws) init in
  flat_map (be_bytes 4) [h0; h1; h2; h3; h4].

Definition hex_digit (v : Z) : ascii :=
  nth (Z.to_nat v) (list_ascii_of_string "0123456789abcdef") "0"%char.

Definition hexdigest (msg : list byte) : string :=
  string_of_list_ascii
    (flat_map (fun b => [hex_digit (b / 16); hex_digit (b mod 16)])
              (digest msg)).
End SHA1.

(* ------------------------------------------------------------------ *)
(** * Python strings, bytes and containers *)

Definition encode (s : string) : list byte := list_byte_of_string s.

(** [str(n)] for a non-negative integer. *)
Definition str_of_nat (n : nat) : string :=
  NilEmpty.string_of_uint (Nat.to_uint n).

Definition startswith (p s : string) : bool := String.prefix p s.

(** [s[n:]] *)
Fixpoint drop (n : nat) (s : string) : string :=
  match n, s with
  | O, _ => s
  | S _, EmptyString => EmptyString
  | S n', String _ r => drop n' r
  end.

(** [s[-1]], when there is one. *)
Fixpoint last_char (s : string) : option ascii :=
  match s with
  | EmptyString => None
  | String c EmptyString => Some c
  | String _ r => last_char r
  end.

(** [s[:-1]] *)
Fixpoint but_last (s : string) : string :=
  match s with
  | EmptyString => EmptyString
  | String _ EmptyString => EmptyString
  | String c r => String c (but_last r)
  end.

Definition endswith_slash (s : string) : bool :=
  match last_char s with
  | Some c => Ascii.eqb c "/"
  | None => false
  end.

(** [s.replace(a, b)] for single characters. *)
Fixpoint replace_char (a b : ascii) (s : string) : string :=
  match s with
  | EmptyString => EmptyString
  | String c r => String (if Ascii.eqb c a then b else c) (replace_char a b r)
  end.

(** [content.replace(b'\r\n', b'\n')]: a left-to-right scan, occurrences do
    not overlap. *)
Fixpoint replace_crlf (content : list byte) : list byte :=
  match content with
  | [] => []
  | b :: r =>
      match r with
      | b' :: r' =>
          if Byte.eqb b x0d && Byte.eqb b' x0a
          then x0a :: replace_crlf r'
          else b :: replace_crlf r
      | [] => [b]
      end
  end.

(** [sorted(l, key=key)] on string keys.  Python's sort is stable: elements
    with equal keys keep their order.  Insertion from the right, each element
    placed before the first one whose key is not smaller, is stable too. *)
Section Sorted.
Variable A : Type.
Variable key : A -> string.

Fixpoint insert_by (x : A) (l : list A) : list A :=
  match l with
  | [] => [x]
  | y :: r =>
      if String.leb (key x) (key y) then x :: y :: r
      else y :: insert_by x r
  end.

Definition sorted_by (l : list A) : list A := fold_right insert_by [] l.
End Sorted.

(** A Python [dict] with string keys, in insertion order; assigning to a key
    that is present keeps its place. *)
Section Dict.
Variable V : Type.

Fixpoint dict_get (k : string) (d : list (string * V)) : option V :=
  match d with
  | [] => None
  | (k', v) :: r => if String.eqb k k' then Some v else dict_get k r
  end.

Fixpoint dict_set (k : string) (v : V) (d : list (string * V))
  : list (string * V) :=
  match d with
  | [] => [(k, v)]
  | (k', v') :: r =>
      if String.eqb k k' then (k, v) :: r else (k', v') :: dict_set k v r
  end.

Definition dict_keys (d : list (string * V)) : list string := map fst d.
End Dict.

(** [min(l, key=key)] on a non-empty sequence [x :: r]: a scan that keeps
    the best element so far and replaces it only by a strictly smaller one,
    so the first least element wins. *)
Fixpoint min_of (A : Type) (key : A -> nat) (x : A) (r : list A) : A :=
  match r with
  | [] => x
  | y :: r' => min_of key (if Nat.ltb (key y) (key x) then y else x) r'
  end.

(** [s.split("/")] *)
Fixpoint split_slash (s : string) : list string :=
  match s with
  | EmptyString => [EmptyString]
  | String c r =>
      if Ascii.eqb c "/" then EmptyString :: split_slash r
      else match split_slash r with
           | x :: xs => String c x :: xs
           | [] => [String c EmptyString]
           end
  end.

(** [os.path.normpath(os.path.join(cwd, *parts))] on POSIX, as a path
    relative to [cwd] given by its components: empty components and [.] are
    dropped, [..] takes the component before it away.  A [..] with nothing
    before it climbs out of [cwd] and stays in front. *)
Definition norm_step (acc : list string) (c : string) : list string :=
  if String.eqb c "" || String.eqb c "." then acc
  else if String.eqb c ".." then
    match rev acc with
    | [] => [".."]
    | top :: below =>
        if String.eqb top ".." then acc ++ [".."] else rev below
    end
  else acc ++ [c].

Definition normpath (parts : list string) : list string :=
  fold_left norm_step parts [].

(** [repr(c)] for a one-character string, [c] ASCII: control characters are
    escaped, the backslash is doubled, and the quotes are double quotes when
    [c] is the single quote. *)
Definition hex_char (n : nat) : ascii :=
  nth n (list_ascii_of_string "0123456789abcdef") "0"%char.

Definition double_quote : ascii := ascii_of_nat 34.

Definition repr_char (c : ascii) : string :=
  let n := nat_of_ascii c in
  if Nat.eqb n 39 then String double_quote (String c (String double_quote ""))
  else if Nat.eqb n 92 then "'\\'"
  else if Nat.eqb n 9 then "'\t'"
  else if Nat.eqb n 10 then "'\n'"
  else if Nat.eqb n 13 then "'\r'"
  else if Nat.ltb n 32 || Nat.eqb n 127 then
    ("'\x" ++ String (hex_char (n / 16)) (String (hex_char (n mod 16)) "'"))%string
  else ("'" ++ String c "'")%string.

(** [os.path.join(a, b)] on POSIX. *)
Definition path_join (a b : string) : string :=
  if startswith "/" b then b
  else if String.eqb a "" || endswith_slash a then (a ++ b)%string
  else (a ++ "/" ++ b)%string.

(* ------------------------------------------------------------------ *)
(** * The property graph (Neo4j) *)

Inductive label := Commit | User | Branch | HEAD.
Inductive reltype := PARENT | MADE_BY | BASE | POINTS_TO.

Definition label_eqb (a b : label) : bool :=
  match a, b with
  | Commit, Commit | User, User | Branch, Branch | HEAD, HEAD => true
  | _, _ => false
  end.

Definition reltype_eqb (a b : reltype) : bool :=
  match a, b with
  | PARENT, PARENT | MADE_BY, MADE_BY | BASE, BASE
  | POINTS_TO, POINTS_TO => true
  | _, _ => false
  end.

(** A node: its identity in the store, its label, and its properties.
    [node_key] is the identifying property of the label: [id] of a Commit or
    a User, [name] of a Branch, [branch] of a HEAD.  Only Commit nodes carry
    [message] and [timestamp], and only those made by CREATE or by the
    three-property MERGE. *)
Record node := mkNode {
  node_id : nat;
  node_label : label;
  node_key : string;
  node_message : option string;
  node_timestamp : option string
}.

Record rel := mkRel {
  rel_id : nat;
  rel_type : reltype;
  rel_start : nat;
  rel_end : nat
}.

(** Nodes and relationships are kept in creation order, which is the order
    in which a scan returns them; [next_id] is the next free identity. *)
Record graph := mkGraph {
  nodes : list node;
  rels : list rel;
  next_id : nat
}.

Definition mem (i : nat) (l : list nat) : bool := existsb (Nat.eqb i) l.

Definition opt_eqb (a b : option string) : bool :=
  match a, b with
  | Some x, Some y => String.eqb x y
  | None, None => true
  | _, _ => false
  end.

(** The pattern [(:l {key: k})]. *)
Definition is_node (l : label) (k : string) (n : node) : bool :=
  label_eqb (node_label n) l && String.eqb (node_key n) k.

(** The pattern [(:Commit {id: k, message: m, timestamp: t})]. *)
Definition is_full_commit (k m t : string) (n : node) : bool :=
  is_node Commit k n && opt_eqb (node_message n) (Some m)
  && opt_eqb (node_timestamp n) (Some t).

Definition match_nodes (l : label) (k : string) (g : graph) : list node :=
  filter (is_node l k) (nodes g).

Definition node_by_id (g : graph) (i : nat) : option node :=
  find (fun n => Nat.eqb (node_id n) i) (nodes g).

(** The relationships of type [t] that leave the node [i]. *)
Definition out_rels (t : reltype) (i : nat) (g : graph) : list rel :=
  filter (fun r => reltype_eqb (rel_type r) t && Nat.eqb (rel_start r) i)
         (rels g).

(** [CREATE (n:l {...})] *)
Definition create_node (l : label) (k : string) (m t : option string)
           (g : graph) : node * graph :=
  let n := mkNode (next_id g) l k m t in
  (n, mkGraph (nodes g ++ [n]) (rels g) (S (next_id g))).

(** [CREATE (a)-[:t]->(b)] for one row. *)
Definition create_rel (t : reltype) (a b : node) (g : graph) : graph :=
  mkGraph (nodes g)
          (rels g ++ [mkRel (next_id g) t (node_id a) (node_id b)])
          (S (next_id g)).

(** The same clause run once per row. *)
Definition create_rels (t : reltype) (rows : list (node * node)) (g : graph)
  : graph :=
  fold_left (fun g' ab => create_rel t (fst ab) (snd ab) g') rows g.

(** [MERGE (n:l {key: k})]: every node that matches, or a new one if none
    does. *)
Definition merge_node (l : label) (k : string) (g : graph)
  : list node * graph :=
  match match_nodes l k g with
  | [] => let (n, g') := create_node l k None None g in ([n], g')
  | ms => (ms, g)
  end.

(** [DELETE r] for the relationships whose identities are listed. *)
Definition delete_rels (ids : list nat) (g : graph) : graph :=
  mkGraph (nodes g)
          (filter (fun r => negb (mem (rel_id r) ids)) (rels g))
          (next_id g).

(** [DETACH DELETE] of the nodes listed: the nodes go, and with them every
    relationship that starts or ends at one of them. *)
Definition detach_delete (ids : list nat) (g : graph) : graph :=
  mkGraph (filter (fun n => negb (mem (node_id n) ids)) (nodes g))
          (filter (fun r => negb (mem (rel_start r) ids)
                            && negb (mem (rel_end r) ids)) (rels g))
          (next_id g).

(** The cartesian product of two row sets, first component outermost. *)
Definition product (A B : Type) (xs : list A) (ys : list B) : list (A * B) :=
  flat_map (fun x => map (fun y => (x, y)) ys) xs.

(** ** The queries of [VersionControl], one definition per [session.run] *)

(** [MATCH (n:HEAD {branch: $branch})-[:POINTS_TO]->(c:Commit)
     RETURN c.id] *)
Definition head_rows (branch : string) (g : graph) : list string :=
  flat_map
    (fun h =>
       flat_map
         (fun r =>
            match node_by_id g (rel_end r) with
            | Some c =>
                if label_eqb (node_label c) Commit then [node_key c] else []
            | None => []
            end)
         (out_rels POINTS_TO (node_id h) g))
    (match_nodes HEAD branch g).

(** [result.single()]: the first record, or [None] when there is none (with
    more than one the driver warns and still returns the first). *)
Definition single (A : Type) (rows : list A) : option A := hd_error rows.

(** [CREATE (c:Commit {id, message, timestamp}) MERGE (u:User {id: $user_id})
     CREATE (c)-[:MADE_BY]->(u)] *)
Definition q_create_commit (commit_id message timestamp user_id : string)
           (g : graph) : graph :=
  let (c, g1) := create_node Commit commit_id (Some message) (Some timestamp) g in
  let (us, g2) := merge_node User user_id g1 in
  create_rels MADE_BY (map (fun u => (c, u)) us) g2.

(** [MATCH (child:Commit {id}), (parent:Commit {id})
     CREATE (child)-[:PARENT]->(parent)] *)
Definition q_link_parent (commit_id parent_commit_id : string) (g : graph)
  : graph :=
  create_rels PARENT
    (product (match_nodes Commit commit_id g)
             (match_nodes Commit parent_commit_id g)) g.

(** The two statements of [create_branch]:
    [CREATE (b:Branch {name}) MERGE (c:Commit {id}) CREATE (b)-[:BASE]->(c)]
    then
    [MERGE (h:HEAD {branch}) MERGE (c:Commit {id})
     CREATE (h)-[:POINTS_TO]->(c)]. *)
Definition q_create_branch_base (branch_name commit_id : string) (g : graph)
  : graph :=
  let (b, g1) := create_node Branch branch_name None None g in
  let (cs, g2) := merge_node Commit commit_id g1 in
  create_rels BASE (map (fun c => (b, c)) cs) g2.

Definition q_create_branch_head (branch_name commit_id : string) (g : graph)
  : graph :=
  let (hs, g1) := merge_node HEAD branch_name g in
  let (cs, g2) := merge_node Commit commit_id g1 in
  create_rels POINTS_TO (product hs cs) g2.

(** [MATCH (b:Branch {name: $branch_name}) RETURN b] *)
Definition branch_rows (branch_name : string) (g : graph) : list node :=
  match_nodes Branch branch_name g.

(** [MATCH (h:HEAD {branch})-[r:POINTS_TO]->() DELETE r WITH h
     MATCH (c:Commit {id}) CREATE (h)-[:POINTS_TO]->(c)].
    One row per relationship matched; [WITH h] keeps the rows (it does not
    make them distinct), so a HEAD with k relationships is carried k times. *)
Definition q_update_head (branch_name commit_id : string) (g : graph)
  : graph :=
  let rows :=
    flat_map (fun h => map (fun r => (h, r)) (out_rels POINTS_TO (node_id h) g))
             (match_nodes HEAD branch_name g) in
  let g1 := delete_rels (map (fun hr => rel_id (snd hr)) rows) g in
  create_rels POINTS_TO
    (product (map fst rows) (match_nodes Commit commit_id g1)) g1.

(** [MATCH path = (n:Commit)-[:PARENT*]->(a:Commit) WHERE n.id = $id
     RETURN a.id, length(path)]: one row per path of one or more PARENT
    relationships, no relationship used twice in a path.  The store does not
    promise an order of the rows; the model walks depth first, each node's
    relationships in stored order.  [fuel] bounds the depth; a path never
    repeats a relationship, so [length (rels g)] is enough. *)
Fixpoint expand (fuel : nat) (g : graph) (used : list nat) (i depth : nat)
  : list (nat * nat) :=
  match fuel with
  | O => []
  | S f =>
      flat_map
        (fun r =>
           if mem (rel_id r) used then []
           else (rel_end r, S depth)
                  :: expand f g (rel_id r :: used) (rel_end r) (S depth))
        (out_rels PARENT i g)
  end.

Definition ancestor_rows (id : string) (g : graph) : list (string * nat) :=
  flat_map
    (fun n =>
       flat_map
         (fun ad =>
            match node_by_id g (fst ad) with
            | Some a =>
                if label_eqb (node_label a) Commit
                then [(node_key a, snd ad)] else []
            | None => []
            end)
         (expand (List.length (rels g)) g [] (node_id n) 0))
    (match_nodes Commit id g).

(** [MERGE (c:Commit {id, message, timestamp}) WITH c
     MATCH (a:Commit {id: $source_id}), (b:Commit {id: $target_id}),
           (u:User {id: $user_id})
     CREATE (c)-[:PARENT]->(a), (c)-[:PARENT]->(b)
     CREATE (c)-[:MADE_BY]->(u)] *)
Definition q_merge_commit (merge_commit_id message timestamp
                           source_id target_id user_id : string) (g : graph)
  : graph :=
  let (cs, g1) :=
    match filter (is_full_commit merge_commit_id message timestamp) (nodes g)
    with
    | [] =>
        let (c, g') := create_node Commit merge_commit_id (Some message)
                                   (Some timestamp) g in ([c], g')
    | ms => (ms, g)
    end in
  let rows :=
    product cs (product (match_nodes Commit source_id g1)
                  (product (match_nodes Commit target_id g1)
                           (match_nodes User user_id g1))) in
  let g2 :=
    fold_left
      (fun g' row =>
         let '(c, (a, (b, _))) := row in
         create_rel PARENT c b (create_rel PARENT c a g'))
      rows g1 in
  create_rels MADE_BY (map (fun row => (fst row, snd (snd (snd row)))) rows) g2.

(** [MATCH (b:Branch {name}) MATCH (h:HEAD {branch}) DETACH DELETE b, h]:
    a row needs both a Branch and a HEAD; without rows nothing is deleted. *)
Definition q_terminate (branch_name : string) (g : graph) : graph :=
  let rows := product (match_nodes Branch branch_name g)
                      (match_nodes HEAD branch_name g) in
  detach_delete (flat_map (fun bh => [node_id (fst bh); node_id (snd bh)]) rows)
                g.

(* ------------------------------------------------------------------ *)
(** * The blob store (the S3 bucket [neo4jvcs]) *)

(** The objects of the bucket, key and content.  The order of the list
    means nothing: the bucket lists its keys in the byte order of their
    UTF-8 encoding. *)
Definition bucket : Type := list (string * list byte).

Definition get_object (key : string) (b : bucket) : option (list byte) :=
  option_map snd (find (fun o => String.eqb (fst o) key) b).

(** A put, replacing the object under that key if any. *)
Fixpoint put_object (key : string) (content : list byte) (b : bucket)
  : bucket :=
  match b with
  | [] => [(key, content)]
  | (k, c) :: r =>
      if String.eqb key k then (key, content) :: r
      else (k, c) :: put_object key content r
  end.

(** All the keys under a prefix, in key order (what the paginator of
    [revert_to_commit] yields, page after page). *)
Definition list_objects (prefix : string) (b : bucket) : list string :=
  sorted_by (fun key : string => key)
            (map fst (filter (fun o => startswith prefix (fst o)) b)).

(** A key the bucket accepts: not empty, at most 1024 bytes. *)
Definition valid_object_key (key : string) : bool :=
  negb (String.eqb key "") && Nat.leb (String.length key) 1024.

(** One call of [list_objects_v2]: the first keys, at most 1000. *)
Definition list_objects_v2 (prefix : string) (b : bucket) : list string :=
  firstn 1000 (list_objects prefix b).

(* ------------------------------------------------------------------ *)
(** * The world, and the monad of the methods *)

(** The directory a snapshot is checked out to.  A path below it is the
    list of its components; the directory holds files and directories, each
    under its path, a file or directory lying in directories that are
    entries too. *)
Definition relpath : Type := list string.

Inductive entry :=
| File (content : list byte)
| Dir.

Definition directory : Type := list (relpath * entry).

Inductive exn :=
| ValueError (msg : string)
| Exception_ (msg : string)
| TypeError            (* subscripting None *)
| IndexError           (* indexing an empty string *)
| NoSuchKey (key : string)
| ParamValidationError (* the client refuses an empty key *)
| KeyTooLongError      (* the bucket refuses a key of more than 1024 bytes *)
| FileExistsError      (* [mkdir] of a path that is a file *)
| NotADirectoryError   (* [mkdir] below a file *)
| IsADirectoryError.   (* a file renamed onto a directory *)

(** What [print] writes: a line of text, a text followed by a dict, or a
    text followed by an exception. *)
Inductive line :=
| Line (text : string)
| LineDict (text : string) (d : list (string * nat))
| LineExn (text : string) (e : exn).

Record world := mkWorld {
  db : graph;                          (* the Neo4j database *)
  s3 : bucket;                         (* the bucket *)
  config : option string;              (* latest_commit_id of commit_config.json *)
  workdir : directory;                 (* the directory given to the command *)
  current_branch : string;             (* self.current_branch *)
  s3_client : bool;                    (* S3ConnectionSingleton._client is set *)
  stdout : list line
}.

Inductive result (A : Type) :=
| Ok (a : A)
| Raise (e : exn).
Arguments Ok {A} a.
Arguments Raise {A} e.

Definition M (A : Type) : Type := world -> result A * world.

Definition ret (A : Type) (a : A) : M A := fun w => (Ok a, w).

Definition bind (A B : Type) (m : M A) (k : A -> M B) : M B :=
  fun w =>
    match m w with
    | (Ok a, w') => k a w'
    | (Raise e, w') => (Raise e, w')
    end.

Definition raise (A : Type) (e : exn) : M A := fun w => (Raise e, w).
Arguments raise {A} e.

Definition gets (A : Type) (f : world -> A) : M A := fun w => (Ok (f w), w).

Definition modify (f : world -> world) : M unit := fun w => (Ok tt, f w).

Notation "x <- m ;; k" := (bind m (fun x => k))
  (at level 61, m at next level, right associativity).
Notation "m ;; k" := (bind m (fun _ => k))
  (at level 61, right associativity).

Definition set_db (g : graph) (w : world) : world :=
  mkWorld g (s3 w) (config w) (workdir w) (current_branch w) (s3_client w)
          (stdout w).
Definition set_s3 (b : bucket) (w : world) : world :=
  mkWorld (db w) b (config w) (workdir w) (current_branch w) (s3_client w)
          (stdout w).
Definition set_config (c : option string) (w : world) : world :=
  mkWorld (db w) (s3 w) c (workdir w) (current_branch w) (s3_client w)
          (stdout w).
Definition set_workdir (d : directory) (w : world) : world :=
  mkWorld (db w) (s3 w) (config w) d (current_branch w) (s3_client w)
          (stdout w).
Definition set_current_branch (b : string) (w : world) : world :=
  mkWorld (db w) (s3 w) (config w) (workdir w) b (s3_client w) (stdout w).
Definition set_s3_client (c : bool) (w : world) : world :=
  mkWorld (db w) (s3 w) (config w) (workdir w) (current_branch w) c
          (stdout w).
Definition add_stdout (l : line) (w : world) : world :=
  mkWorld (db w) (s3 w) (config w) (workdir w) (current_branch w)
          (s3_client w) (stdout w ++ [l]).

Definition print (text : string) : M unit := modify (add_stdout (Line text)).

Definition print_dict (text : string) (d : list (string * nat)) : M unit :=
  modify (add_stdout (LineDict text d)).

(** [print(text, e)] *)
Definition print_exn (text : string) (e : exn) : M unit :=
  modify (add_stdout (LineExn text e)).

(** [try: body  except Exception as e: handler(e)] *)
Definition try_except (body : M unit) (handler : exn -> M unit) : M unit :=
  fun w =>
    match body w with
    | (Raise e, w') => handler e w'
    | rw => rw
    end.

(** [session.run] of a statement that writes. *)
Definition run (q : graph -> graph) : M unit :=
  modify (fun w => set_db (q (db w)) w).

(** [for x in l: body x] *)
Fixpoint for_each (A : Type) (l : list A) (body : A -> M unit) : M unit :=
  match l with
  | [] => ret tt
  | x :: r => body x ;; for_each r body
  end.

(* ------------------------------------------------------------------ *)
(** * [S3ConnectionSingleton] and the methods of [VersionControl] *)

Definition get_client : M unit :=
  c <- gets s3_client ;;
  if c then ret tt
  else print "Creating new S3 client..." ;; modify (set_s3_client true).

Definition read_latest_commit : M (option string) := gets config.

Definition write_latest_commit (commit_id : string) : M unit :=
  modify (set_config (Some commit_id)).

(** [upload_fileobj]: the client refuses an empty key before it sends
    anything, the bucket refuses a key of more than 1024 bytes. *)
Definition upload_fileobj (key : string) (content : list byte) : M unit :=
  if String.eqb key "" then raise ParamValidationError
  else if Nat.ltb 1024 (String.length key) then raise KeyTooLongError
  else modify (fun w => set_s3 (put_object key content (s3 w)) w).

(** [files] is the dict of [read_directory]: relative path to text.  The
    loop is inside the [try]: the first upload that raises ends it, and the
    error is printed. *)
Definition s3_store (files : list (string * string)) (base_prefix : string)
  : M unit :=
  try_except
    (for_each files
       (fun f =>
          let object_key :=
            replace_char "\" "/" (path_join base_prefix (fst f)) in
          upload_fileobj object_key (encode (snd f))))
    (fun e => print_exn "Some error occurred while storing the commit:" e).

Definition update_head (branch_name commit_id : string) : M unit :=
  run (q_update_head branch_name commit_id).

(** [if parent_commit_id:] holds for a string that is not empty. *)
Definition truthy (s : option string) : option string :=
  match s with
  | Some EmptyString => None
  | _ => s
  end.

Definition create_commit (commit_id message user_id : string)
           (files : list (string * string)) (commit_branch : string)
           (timestamp : string) : M unit :=
  parent_commit_id <-
    (if String.eqb commit_branch "master" then read_latest_commit
     else g <- gets db ;; ret (single (head_rows commit_branch g))) ;;
  run (q_create_commit commit_id message timestamp user_id) ;;
  match truthy parent_commit_id with
  | Some p =>
      run (q_link_parent commit_id p) ;;
      print ("Parent commit " ++ p ++ " linked to " ++ commit_id)%string
  | None => ret tt
  end ;;
  write_latest_commit commit_id ;;
  update_head commit_branch commit_id ;;
  s3_store files commit_id ;;
  print ("Commit created: " ++ commit_id ++ " - " ++ message)%string.

Definition create_branch (branch_name commit_id : string) : M unit :=
  run (q_create_branch_base branch_name commit_id) ;;
  run (q_create_branch_head branch_name commit_id) ;;
  print ("Branch " ++ branch_name ++ " created from commit " ++ commit_id)%string.

Definition branch_exists (branch_name : string) : M bool :=
  g <- gets db ;;
  ret (match single (branch_rows branch_name g) with
       | Some _ => true
       | None => false
       end).

(** *** The file system calls of [revert_to_commit] *)

Definition relpath_eqb (p q : relpath) : bool :=
  if list_eq_dec string_dec p q then true else false.

Definition entry_at (p : relpath) (d : directory) : option entry :=
  option_map snd (find (fun e => relpath_eqb (fst e) p) d).

Fixpoint put_entry (p : relpath) (e : entry) (d : directory) : directory :=
  match d with
  | [] => [(p, e)]
  | (q, e') :: r =>
      if relpath_eqb p q then (p, e) :: r else (q, e') :: put_entry p e r
  end.

(** The entries the loop over [os.listdir] leaves: those at or below an item
    whose name starts with a dot (a path that climbs out of the directory
    starts with [..]). *)
Definition hidden (p : relpath) : bool :=
  match p with
  | item :: _ => startswith "." item
  | [] => true
  end.

Definition keep_hidden (d : directory) : directory :=
  filter (fun e => hidden (fst e)) d.

(** [os.makedirs(path, exist_ok=True)] for the path [above ++ below] when
    [above] is a directory: the components are walked downwards; a directory
    that is there is entered, one that is missing is made (and so are those
    below it), and a file in the way raises, [FileExistsError] when it is the
    path itself and [NotADirectoryError] when it is above it.  Nothing is
    made when it raises. *)
Fixpoint makedirs_below (above below : relpath) (d : directory)
  : result directory :=
  match below with
  | [] => Ok d
  | c :: rest =>
      let p := above ++ [c] in
      match entry_at p d with
      | Some (File _) =>
          Raise (match rest with
                 | [] => FileExistsError
                 | _ :: _ => NotADirectoryError
                 end)
      | Some Dir => makedirs_below p rest d
      | None => makedirs_below p rest (d ++ [(p, Dir)])
      end
  end.

Definition makedirs (p : relpath) (d : directory) : result directory :=
  makedirs_below [] p d.

(** The path is a directory: the directory of the checkout itself, one
    above it, or a directory below it. *)
Definition is_directory (p : relpath) (d : directory) : bool :=
  match p with
  | [] => true
  | _ :: _ =>
      String.eqb (last p "") ".."
      || match entry_at p d with
         | Some Dir => true
         | _ => false
         end
  end.

(** [download_file] writes a temporary file beside the path and renames it
    onto the path: a file there is replaced, a directory there makes the
    renaming raise, and the temporary file is removed. *)
Definition download_to (p : relpath) (content : list byte) (d : directory)
  : result directory :=
  if is_directory p d then Raise IsADirectoryError
  else Ok (put_entry p (File content) d).

(** A file system call on the directory of the world. *)
Definition on_workdir (f : directory -> result directory) : M unit :=
  fun w =>
    match f (workdir w) with
    | Ok d => (Ok tt, set_workdir d w)
    | Raise e => (Raise e, w)
    end.

(** Every item of the directory whose name does not start with a dot is
    deleted, with all below it.  Then every object under [commit_id/] that
    is not a folder marker is downloaded to the path its key names below the
    directory, the directories on the way being made first.  The directory
    exists, and the components of the keys are names the file system takes
    (no NUL byte, at most 255 bytes). *)
Definition revert_to_commit (commit_id to_be_deleted_dir : string) : M unit :=
  let commit_prefix := (commit_id ++ "/")%string in
  modify (fun w => set_workdir (keep_hidden (workdir w)) w) ;;
  b <- gets s3 ;;
  for_each (list_objects commit_prefix b)
    (fun key =>
       if endswith_slash key then ret tt
       else
         let relative_path := drop (String.length commit_prefix) key in
         let local_path := normpath (split_slash relative_path) in
         on_workdir (makedirs (removelast local_path)) ;;
         match get_object key b with
         | Some content => on_workdir (download_to local_path content)
         | None => raise (NoSuchKey key)
         end) ;;
  print ("Restored commit " ++ commit_id ++ " to " ++ to_be_deleted_dir)%string.

Definition switch_branch (branch_name : string) : M unit :=
  g <- gets db ;;
  match single (head_rows branch_name g) with
  | Some current_commit_id =>
      modify (set_current_branch branch_name) ;;
      write_latest_commit current_commit_id ;;
      print ("Switched to branch " ++ branch_name)%string
  | None => print ("Branch " ++ branch_name ++ " does not exist")%string
  end.

Definition create_branch_from_commit (branch_name commit_id : string)
  : M unit :=
  create_branch branch_name commit_id ;;
  switch_branch branch_name.

(** ** The fingerprints *)

(** The key of the first sort of [fetch_version_hash]. *)
Definition sort_key (prefix key : string) : string :=
  if endswith_slash key then "" else drop (String.length prefix) key.

(** The digest of one file: line endings normalised, then the SHA-1 of
    [blob <size>\0] followed by the content. *)
Definition file_sha1 (content : list byte) : string :=
  let content := replace_crlf content in
  let header :=
    encode ("blob " ++ str_of_nat (List.length content) ++ String zero "")%string in
  let git_blob := header ++ content in
  SHA1.hexdigest git_blob.

(** The loop over the sorted listing. *)
Fixpoint hash_objects (prefix : string) (b : bucket) (keys : list string)
  : result (list (string * string)) :=
  match keys with
  | [] => Ok []
  | key :: r =>
      if endswith_slash key then hash_objects prefix b r
      else
        match get_object key b with
        | None => Raise (NoSuchKey key)
        | Some content =>
            match hash_objects prefix b r with
            | Ok file_hashes =>
                Ok ((drop (String.length prefix) key, file_sha1 content)
                      :: file_hashes)
            | Raise e => Raise e
            end
        end
  end.

Definition directory_sha1 (file_hashes : list (string * string)) : string :=
  let combined :=
    encode (String.concat ""
              (map (fun ph => (fst ph ++ ":" ++ snd ph)%string)
                   (sorted_by fst file_hashes))) in
  SHA1.hexdigest combined.

(** What [fetch_version_hash] computes from a listing [contents] (the
    [Contents] of the response) and the bucket it reads the objects from. *)
Definition version_hash (prefix : string) (contents : list string) (b : bucket)
  : result (string * list (string * string)) :=
  match hash_objects prefix b (sorted_by (sort_key prefix) contents) with
  | Ok file_hashes => Ok (directory_sha1 file_hashes, file_hashes)
  | Raise e => Raise e
  end.

Definition lift (A : Type) (r : result A) : M A := fun w => (r, w).

Definition fetch_version_hash (commit_id : string)
  : M (string * list (string * string)) :=
  get_client ;;
  b <- gets s3 ;;
  let prefix := (commit_id ++ "/")%string in
  dh <- lift (version_hash prefix (list_objects_v2 prefix b) b) ;;
  print "File Hashes:" ;;
  for_each (snd dh) (fun ph => print (fst ph ++ " -> " ++ snd ph)%string) ;;
  print ("Directory Hash: " ++ fst dh)%string ;;
  ret dh.

(** ** Branch termination and merge commits *)

Definition terminate_branch (branch_name : string) : M bool :=
  g <- gets db ;;
  match single (branch_rows branch_name g) with
  | None =>
      print ("Branch " ++ branch_name ++ " does not exist")%string ;;
      ret false
  | Some _ =>
      run (q_terminate branch_name) ;;
      print ("Branch " ++ branch_name ++ " has been terminated")%string ;;
      ret true
  end.

Definition exit_logging : M unit := print "exited the merge branches loop".

(** [int(c)] for a one-character string [c] that is ASCII: the value of a
    decimal digit, or none ([ValueError]).  (For a character outside ASCII
    [int] also takes the decimal digits of other scripts; the model reads
    the last byte and does not.) *)
Definition digit_value (c : ascii) : option nat :=
  let n := nat_of_ascii c in
  if Nat.leb 48 n && Nat.leb n 57 then Some (n - 48) else None.

Definition merge_commit (commit1 commit2 user_id message timestamp : string)
  : M string :=
  print "entered merge commit function" ;;
  last <- read_latest_commit ;;
  match last with
  | None => raise TypeError
  | Some last_commit_id =>
      let string := but_last last_commit_id in
      match last_char last_commit_id with
      | None => raise IndexError
      | Some number =>
          match digit_value number with
          | None =>
              raise (ValueError
                       ("invalid literal for int() with base 10: "
                          ++ repr_char number)%string)
          | Some n =>
              let merge_commit_id := (string ++ str_of_nat (n + 1))%string in
              run (q_merge_commit merge_commit_id message timestamp
                                  commit1 commit2 user_id) ;;
              write_latest_commit merge_commit_id ;;
              ret merge_commit_id
          end
      end
  end.

(** ** The merge *)

(** The loop [for record in result: ancestors[record.id] = record.distance]:
    a later row for the same id replaces the distance recorded before. *)
Definition record_distances (rows : list (string * nat))
  : list (string * nat) :=
  fold_left (fun d row => dict_set (fst row) (snd row) d) rows [].

(** [d[k]] for a key that is present. *)
Definition distance (d : list (string * nat)) (k : string) : nat :=
  match dict_get k d with
  | Some n => n
  | None => 0
  end.

Definition in_keys (k : string) (ks : list string) : bool :=
  existsb (String.eqb k) ks.

Section Merge.
(** A Python [set] of strings is iterated in the order of their hashes,
    which changes from one process to the next; [set_order] is that order
    for the run at hand, applied to the elements of the set. *)
Variable set_order : list string -> list string.

(** [set(d1.keys()) & set(d2.keys())], as [min] will iterate it. *)
Definition common_ancestors (d1 d2 : list (string * nat)) : list string :=
  set_order (filter (fun k => in_keys k (dict_keys d2)) (dict_keys d1)).

Definition conflict_message : string :=
  "conflicting versions encountered between source and target branches".

Definition merge_branches (source_branch target_branch user_id message
                           directory_delete timestamp : string) : M unit :=
  get_client ;;
  record <- gets (fun w => single (head_rows source_branch (db w))) ;;
  match record with
  | None =>
      raise (ValueError ("No HEAD found for target branch '"
                           ++ target_branch ++ "'")%string)
  | Some head_for_source_id =>
  record <- gets (fun w => single (head_rows target_branch (db w))) ;;
  match record with
  | None =>
      raise (ValueError ("No HEAD found for target branch '"
                           ++ target_branch ++ "'")%string)
  | Some head_for_target_id =>
  print "head prints below" ;;
  print head_for_source_id ;;
  print head_for_target_id ;;
  rows <- gets (fun w => ancestor_rows head_for_source_id (db w)) ;;
  let ancestors_for_1 := record_distances rows in
  rows <- gets (fun w => ancestor_rows head_for_target_id (db w)) ;;
  let ancestors_for_2 := record_distances rows in
  print "below this" ;;
  print_dict "Ancestors for source:" ancestors_for_1 ;;
  print_dict "Ancestors for target:" ancestors_for_2 ;;
  match common_ancestors ancestors_for_1 ancestors_for_2 with
  | [] => raise (Exception_ "No common ancestor found between the two branches.")
  | c :: cs =>
  let lca_id :=
    min_of (fun cid => distance ancestors_for_1 cid
                       + distance ancestors_for_2 cid) c cs in
  print (lca_id ++ " is the lca id")%string ;;
  anc <- fetch_version_hash lca_id ;;
  src <- fetch_version_hash head_for_source_id ;;
  tgt <- fetch_version_hash head_for_target_id ;;
  let hash_for_ancestor_dir := fst anc in
  let hash_for_source_dir := fst src in
  let hash_for_target_dir := fst tgt in
  merge_id <-
    (if String.eqb hash_for_ancestor_dir hash_for_target_dir
        && negb (String.eqb hash_for_ancestor_dir hash_for_source_dir)
     then
       revert_to_commit head_for_source_id directory_delete ;;
       merge_id <- merge_commit head_for_source_id head_for_target_id
                                user_id message timestamp ;;
       terminate_branch source_branch ;;
       print "new merge commit created" ;;
       exit_logging ;;
       ret merge_id
     else if negb (String.eqb hash_for_ancestor_dir hash_for_target_dir)
             && String.eqb hash_for_ancestor_dir hash_for_source_dir
     then
       revert_to_commit head_for_target_id directory_delete ;;
       merge_id <- merge_commit head_for_source_id head_for_target_id
                                user_id message timestamp ;;
       print "new merge commit created" ;;
       exit_logging ;;
       ret merge_id
     else if String.eqb hash_for_ancestor_dir hash_for_target_dir
             && String.eqb hash_for_target_dir hash_for_source_dir
     then
       print "no merge required, nothing to merge" ;;
       merge_id <- merge_commit head_for_source_id head_for_target_id
                                user_id message timestamp ;;
       print "new merge commit created" ;;
       exit_logging ;;
       ret merge_id
     else raise (ValueError conflict_message)) ;;
  update_head target_branch merge_id
  end end end.
End Merge.

(* ================================================================== *)
(** * Properties *)

(** ** Strings *)

Lemma ascii_compare_lt_trans (a b c : ascii) :
  Ascii.compare a b = Lt -> Ascii.compare b c = Lt -> Ascii.compare a c = Lt.
Proof.
  unfold Ascii.compare. rewrite !N.compare_lt_iff. lia.
Qed.

Lemma string_compare_refl (s : string) : String.compare s s = Eq.
Proof.
  induction s as [|c s IH]; simpl; auto.
  unfold Ascii.compare. rewrite N.compare_refl. exact IH.
Qed.

Lemma string_compare_lt_trans (s1 s2 s3 : string) :
  String.compare s1 s2 = Lt -> String.compare s2 s3 = Lt ->
  String.compare s1 s3 = Lt.
Proof.
  revert s2 s3.
  induction s1 as [|a s1 IH]; intros [|b s2] [|c s3]; simpl;
    try discriminate; auto.
  destruct (Ascii.compare a b) eqn:Hab; try discriminate.
  - apply Ascii.compare_eq_iff in Hab. subst b.
    destruct (Ascii.compare a c); try discriminate; auto.
    apply IH.
  - intros _.
    destruct (Ascii.compare b c) eqn:Hbc; try discriminate.
    + apply Ascii.compare_eq_iff in Hbc. subst c. rewrite Hab. auto.
    + intros _. rewrite (ascii_compare_lt_trans _ _ _ Hab Hbc). auto.
Qed.

Lemma string_leb_iff (s1 s2 : string) :
  String.leb s1 s2 = true <-> String.compare s1 s2 = Lt \/ s1 = s2.
Proof.
  unfold String.leb.
  destruct (String.compare s1 s2) eqn:H; split; intros H0; auto;
    try discriminate.
  - right. now apply String.compare_eq_iff.
  - destruct H0 as [H0|H0]; try discriminate.
    subst. rewrite string_compare_refl in H. discriminate.
Qed.

Lemma string_leb_trans (s1 s2 s3 : string) :
  String.leb s1 s2 = true -> String.leb s2 s3 = true ->
  String.leb s1 s3 = true.
Proof.
  rewrite !string_leb_iff.
  intros [H1|H1] [H2|H2]; subst; auto.
  left. eapply string_compare_lt_trans; eauto.
Qed.

Lemma string_leb_asym (s1 s2 : string) :
  s1 <> s2 -> String.leb s1 s2 = true -> String.leb s2 s1 = false.
Proof.
  intros Hne H. destruct (String.leb s2 s1) eqn:E; auto.
  elim Hne. now apply String.leb_antisym.
Qed.

Lemma string_leb_false (s1 s2 : string) :
  String.leb s1 s2 = false -> String.leb s2 s1 = true.
Proof.
  intros H. destruct (String.leb_total s1 s2) as [H0|H0]; congruence.
Qed.

Lemma encode_app (a b : string) : encode (a ++ b)%string = encode a ++ encode b.
Proof.
  unfold encode, list_byte_of_string.
  induction a as [|c a IH]; simpl; auto.
  now rewrite IH.
Qed.

Lemma last_char_app (p : string) (c : ascii) :
  last_char (p ++ String c "")%string = Some c.
Proof.
  induction p as [|a p IH]; simpl; auto.
  rewrite IH. destruct (p ++ String c "")%string eqn:E; auto.
  destruct p; discriminate.
Qed.

Lemma but_last_app (p : string) (c : ascii) :
  but_last (p ++ String c "")%string = p.
Proof.
  induction p as [|a p IH]; simpl; auto.
  rewrite IH. destruct (p ++ String c "")%string eqn:E; auto.
  destruct p; discriminate.
Qed.

(** A string with a last character is its [s[:-1]] followed by it. *)
Lemma but_last_last_char (s : string) (c : ascii) :
  last_char s = Some c -> s = (but_last s ++ String c "")%string.
Proof.
  induction s as [|a s IH]; simpl; try discriminate.
  destruct s as [|b s].
  - intros H. now inversion H.
  - intros H. simpl. f_equal. apply IH. exact H.
Qed.

Lemma prefix_drop (p s : string) :
  startswith p s = true -> s = (p ++ drop (String.length p) s)%string.
Proof.
  unfold startswith. revert s.
  induction p as [|a p IH]; intros [|b s]; simpl; auto; try discriminate.
  destruct (ascii_dec a b); try discriminate.
  intros H. subst. f_equal. now apply IH.
Qed.

(** ** Sorting *)

Section SortedFacts.
Variable A : Type.
Variable key : A -> string.

Lemma insert_by_perm (x : A) (l : list A) :
  Permutation (insert_by key x l) (x :: l).
Proof.
  induction l as [|y l IH]; simpl; auto.
  destruct (String.leb (key x) (key y)); auto.
  rewrite IH. apply perm_swap.
Qed.

Lemma sorted_by_perm (l : list A) : Permutation (sorted_by key l) l.
Proof.
  induction l as [|x l IH]; simpl; auto.
  rewrite insert_by_perm. now constructor.
Qed.

(** Two insertions of elements with different keys commute. *)
Lemma insert_by_comm (x y : A) (l : list A) :
  key x <> key y ->
  insert_by key x (insert_by key y l) = insert_by key y (insert_by key x l).
Proof.
  intros Hxy.
  induction l as [|z l IH]; simpl.
  - destruct (String.leb (key x) (key y)) eqn:E1.
    + now rewrite (string_leb_asym Hxy E1).
    + now rewrite (string_leb_false _ _ E1).
  - destruct (String.leb (key y) (key z)) eqn:Eyz;
      destruct (String.leb (key x) (key z)) eqn:Exz; simpl.
    + destruct (String.leb (key x) (key y)) eqn:E1.
      * now rewrite (string_leb_asym Hxy E1), Eyz.
      * now rewrite (string_leb_false _ _ E1), Exz.
    + destruct (String.leb (key x) (key y)) eqn:E1.
      * rewrite (string_leb_trans _ _ _ E1 Eyz) in Exz. discriminate.
      * now rewrite Exz, Eyz.
    + destruct (String.leb (key y) (key x)) eqn:E1.
      * rewrite (string_leb_trans _ _ _ E1 Exz) in Eyz. discriminate.
      * now rewrite Exz, Eyz.
    + now rewrite Exz, Eyz, IH.
Qed.

(** With pairwise different keys the sorted list does not depend on the
    order of the input. *)
Lemma sorted_by_permutation (l1 l2 : list A) :
  Permutation l1 l2 -> NoDup (map key l1) ->
  sorted_by key l1 = sorted_by key l2.
Proof.
  induction 1 as [|x l1 l2 HP IH|x y l|l1 l2 l3 HP1 IH1 HP2 IH2];
    simpl; intros HN; auto.
  - inversion HN; subst. now rewrite IH.
  - apply insert_by_comm.
    inversion HN as [|? ? Hin _]; subst. simpl in Hin.
    intros E. apply Hin. left. auto.
  - rewrite IH1 by auto. apply IH2.
    eapply Permutation_NoDup; [|exact HN]. now apply Permutation_map.
Qed.
End SortedFacts.

Section SortedOrder.
Variable A : Type.
Variable key : A -> string.

Definition key_le (x y : A) : Prop := String.leb (key x) (key y) = true.

Lemma insert_by_sorted (x : A) (l : list A) :
  StronglySorted key_le l -> StronglySorted key_le (insert_by key x l).
Proof.
  induction 1 as [|y l Hs IH Hy]; simpl.
  - repeat constructor.
  - destruct (String.leb (key x) (key y)) eqn:E.
    + constructor; [now constructor|].
      constructor; [exact E|].
      eapply Forall_impl; [|exact Hy].
      intros z Hz. unfold key_le in *. eapply string_leb_trans; eauto.
    + constructor; auto.
      eapply Permutation_Forall;
        [apply Permutation_sym, insert_by_perm|].
      constructor; auto. now apply string_leb_false.
Qed.

Lemma sorted_by_sorted (l : list A) : StronglySorted key_le (sorted_by key l).
Proof.
  induction l as [|x l IH]; simpl; [constructor|].
  now apply insert_by_sorted.
Qed.
End SortedOrder.

(** ** The fingerprints (C6, C7) *)

(** The CRLF pairs of a byte string, taken from the left, each replaced by
    one LF. *)
Inductive crlf_to_lf : list byte -> list byte -> Prop :=
| crlf_done : crlf_to_lf [] []
| crlf_pair r r' :
    crlf_to_lf r r' -> crlf_to_lf (x0d :: x0a :: r) (x0a :: r')
| crlf_keep b r r' :
    (b <> x0d \/ forall t, r <> x0a :: t) ->
    crlf_to_lf r r' -> crlf_to_lf (b :: r) (b :: r').

(** The byte string git hashes for a blob: [blob ], the length in decimal,
    a NUL byte, the content. *)
Definition git_blob (content : list byte) : list byte :=
  encode "blob " ++ encode (str_of_nat (List.length content))
         ++ [x00] ++ content.

Lemma byte_eqb_eq (a b : byte) : Byte.eqb a b = true <-> a = b.
Proof.
  split.
  - apply Byte.byte_dec_bl.
  - apply Byte.byte_dec_lb.
Qed.

Lemma replace_crlf_spec (content : list byte) :
  crlf_to_lf content (replace_crlf content).
Proof.
  assert (H : forall n c, List.length c <= n -> crlf_to_lf c (replace_crlf c)).
  { induction n as [|n IH]; intros [|b [|b' r]] Hl; simpl in *;
      try lia; try constructor.
    - right. intros t. discriminate.
    - constructor.
    - destruct (Byte.eqb b x0d && Byte.eqb b' x0a) eqn:E.
      + apply andb_true_iff in E. destruct E as [E1 E2].
        apply byte_eqb_eq in E1, E2. subst.
        constructor. apply IH. lia.
      + apply crlf_keep.
        * apply andb_false_iff in E. destruct E as [E|E].
          -- left. intros ->. now rewrite (proj2 (byte_eqb_eq _ _) eq_refl) in E.
          -- right. intros t Ht. inversion Ht; subst.
             now rewrite (proj2 (byte_eqb_eq _ _) eq_refl) in E.
        * apply (IH (b' :: r)). simpl. lia. }
  apply (H (List.length content)). lia.
Qed.

Lemma file_sha1_git_blob (content : list byte) :
  file_sha1 content = SHA1.hexdigest (git_blob (replace_crlf content)).
Proof.
  unfold file_sha1, git_blob.
  rewrite !encode_app. rewrite <- !app_assoc. reflexivity.
Qed.

(** The (path, digest) entries of a snapshot: one per listed key that is not
    a folder marker. *)
Definition entries (prefix : string) (keys : list string) (b : bucket)
  : list (string * string) :=
  flat_map
    (fun key =>
       if endswith_slash key then []
       else match get_object key b with
            | Some content =>
                [(drop (String.length prefix) key, file_sha1 content)]
            | None => []
            end)
    keys.

(** Every listed key that is not a folder marker has an object. *)
Definition listed (keys : list string) (b : bucket) : Prop :=
  forall key, In key keys -> endswith_slash key = false ->
              get_object key b <> None.

Lemma hash_objects_entries (prefix : string) (b : bucket) (keys : list string) :
  listed keys b -> hash_objects prefix b keys = Ok (entries prefix keys b).
Proof.
  unfold listed.
  induction keys as [|k keys IH]; simpl; intros H; auto.
  destruct (endswith_slash k) eqn:E.
  - apply IH. intros; apply H; auto.
  - destruct (get_object k b) eqn:G.
    + rewrite IH; auto.
    + elim (H k); auto.
Qed.

Lemma hash_objects_In (prefix : string) (b : bucket) (keys : list string)
      (fh : list (string * string)) :
  hash_objects prefix b keys = Ok fh ->
  forall ph, In ph fh <->
    exists key content,
      In key keys /\ endswith_slash key = false
      /\ get_object key b = Some content
      /\ ph = (drop (String.length prefix) key, file_sha1 content).
Proof.
  revert fh.
  induction keys as [|k keys IH]; simpl; intros fh H ph.
  - inversion H; subst. simpl. split; [tauto|].
    intros (? & ? & [] & _).
  - destruct (endswith_slash k) eqn:E.
    + rewrite (IH _ H). split.
      * intros (key & c & Hin & Hk); exists key, c; tauto.
      * intros (key & c & [->|Hin] & Hs & Hk); [congruence|].
        exists key, c; tauto.
    + destruct (get_object k b) eqn:G; try discriminate.
      destruct (hash_objects prefix b keys) eqn:Hr; try discriminate.
      inversion H; subst. simpl. rewrite (IH _ eq_refl). split.
      * intros [<-|(key & c & Hin & Hk)].
        -- exists k, l. tauto.
        -- exists key, c. tauto.
      * intros (key & c & [->|Hin] & Hs & Hg & ->).
        -- left. congruence.
        -- right. exists key, c. tauto.
Qed.

Lemma listed_perm (l1 l2 : list string) (b : bucket) :
  Permutation l1 l2 -> listed l1 b -> listed l2 b.
Proof.
  intros HP H key Hin. apply H.
  eapply Permutation_in; [apply Permutation_sym|]; eauto.
Qed.

Lemma entries_perm (prefix : string) (l1 l2 : list string) (b : bucket) :
  Permutation l1 l2 -> Permutation (entries prefix l1 b) (entries prefix l2 b).
Proof.
  intros HP. unfold entries. now apply Permutation_flat_map.
Qed.

Lemma version_hash_entries (prefix : string) (l : list string) (b : bucket) :
  listed l b ->
  version_hash prefix l b =
    Ok (directory_sha1 (entries prefix (sorted_by (sort_key prefix) l) b),
        entries prefix (sorted_by (sort_key prefix) l) b).
Proof.
  intros H. unfold version_hash.
  rewrite hash_objects_entries; auto.
  eapply listed_perm; [apply Permutation_sym, sorted_by_perm|exact H].
Qed.

(** The text that is hashed for a directory. *)
Definition combined_text (sorted_entries : list (string * string)) : string :=
  String.concat "" (map (fun ph => (fst ph ++ ":" ++ snd ph)%string)
                        sorted_entries).

Lemma same_entries_same_digest :
  forall (prefix1 prefix2 : string) (l1 l2 : list string) (b1 b2 : bucket),
    listed l1 b1 -> listed l2 b2 ->
    NoDup (map fst (entries prefix1 l1 b1)) ->
    Permutation (entries prefix1 l1 b1) (entries prefix2 l2 b2) ->
    exists d fh1 fh2 sorted_entries,
      version_hash prefix1 l1 b1 = Ok (d, fh1)
      /\ version_hash prefix2 l2 b2 = Ok (d, fh2)
      /\ Permutation sorted_entries (entries prefix1 l1 b1)
      /\ StronglySorted (key_le fst) sorted_entries
      /\ d = SHA1.hexdigest (encode (combined_text sorted_entries)).
Proof.
  intros p1 p2 l1 l2 b1 b2 H1 H2 HN HP.
  rewrite (version_hash_entries p1 H1), (version_hash_entries p2 H2).
  pose (e1 := entries p1 (sorted_by (sort_key p1) l1) b1).
  pose (e2 := entries p2 (sorted_by (sort_key p2) l2) b2).
  assert (P1 : Permutation e1 (entries p1 l1 b1))
    by (apply entries_perm, sorted_by_perm).
  assert (P2 : Permutation e2 (entries p2 l2 b2))
    by (apply entries_perm, sorted_by_perm).
  assert (HS : sorted_by fst e1 = sorted_by fst e2).
  { apply sorted_by_permutation.
    - rewrite P1, HP. now symmetry.
    - eapply Permutation_NoDup; [|exact HN].
      apply Permutation_map. now symmetry. }
  exists (directory_sha1 e1), e1, e2, (sorted_by fst e1).
  repeat split.
  - unfold directory_sha1. fold e2. now rewrite <- HS.
  - now rewrite sorted_by_perm.
  - apply sorted_by_sorted.
Qed.

(** Keys under one prefix are told apart by their relative paths. *)
Lemma entries_paths_nodup (prefix : string) (l : list string) (b : bucket) :
  NoDup l -> (forall k, In k l -> startswith prefix k = true) ->
  NoDup (map fst (entries prefix l b)).
Proof.
  induction 1 as [|k l Hk HN IH]; simpl; intros Hp; [constructor|].
  rewrite map_app. 
  assert (IH' : NoDup (map fst (entries prefix l b))) by (apply IH; auto).
  destruct (endswith_slash k); simpl; auto.
  destruct (get_object k b); simpl; auto.
  constructor; auto.
  intros Hin. apply in_map_iff in Hin. destruct Hin as ((p & h) & Hf & Hin).
  simpl in Hf. unfold entries in Hin. apply in_flat_map in Hin.
  destruct Hin as (k' & Hk' & Hin).
  destruct (endswith_slash k'); [destruct Hin|].
  destruct (get_object k' b); [|destruct Hin].
  destruct Hin as [Hin|[]]. inversion Hin; subst. simpl in *.
  apply Hk.
  rewrite (prefix_drop prefix k) by auto.
  match goal with E : drop _ _ = drop _ _ |- _ => rewrite <- E end.
  rewrite <- (prefix_drop prefix k') by auto. exact Hk'.
Qed.

(** The listing order of one snapshot does not matter. *)
Lemma version_hash_listing_order (prefix : string) (l1 l2 : list string)
      (b : bucket) :
  NoDup l1 -> (forall k, In k l1 -> startswith prefix k = true) ->
  listed l1 b -> Permutation l1 l2 ->
  exists d fh1 fh2,
    version_hash prefix l1 b = Ok (d, fh1)
    /\ version_hash prefix l2 b = Ok (d, fh2).
Proof.
  intros HN Hp HL HP.
  destruct (@same_entries_same_digest prefix prefix l1 l2 b b)
    as (d & fh1 & fh2 & _ & H1 & H2 & _); auto.
  - eapply listed_perm; eauto.
  - now apply entries_paths_nodup.
  - now apply entries_perm.
  - exists d, fh1, fh2. auto.
Qed.

(** C6. The directory digest is a function of the set of (path, digest)
    entries of the snapshot, whatever the order of the listing: when two
    listings (of one snapshot, or of two snapshots under different commit
    prefixes or buckets) yield the same entries up to order, each path
    occurring once, [fetch_version_hash] computes the same directory digest
    for both, namely the SHA-1 of the entries sorted by path in ascending
    byte order and concatenated as path:digest. *)
Theorem directory_hash_order_insensitive :
  forall (prefix1 prefix2 : string) (l1 l2 : list string) (b1 b2 : bucket),
    listed l1 b1 -> listed l2 b2 ->
    NoDup (map fst (entries prefix1 l1 b1)) ->
    Permutation (entries prefix1 l1 b1) (entries prefix2 l2 b2) ->
    exists d fh1 fh2 sorted_entries,
      version_hash prefix1 l1 b1 = Ok (d, fh1)
      /\ version_hash prefix2 l2 b2 = Ok (d, fh2)
      /\ Permutation sorted_entries (entries prefix1 l1 b1)
      /\ StronglySorted (key_le fst) sorted_entries
      /\ d = SHA1.hexdigest (encode (combined_text sorted_entries)).
Proof.
  intros. now apply same_entries_same_digest.
Qed.

Definition c6_bucket : bucket :=
  [ ("c1/b.txt", [x68; x69; x0d; x0a]);
    ("c1/docs/", []);
    ("c1/a.txt", [x61]);
    ("c2/a.txt", [x61]);
    ("c2/b.txt", [x68; x69; x0a]) ].

Lemma directory_hash_order_insensitive_witness :
  exists d fh1 fh2 sorted_entries,
    version_hash "c1/" ["c1/b.txt"; "c1/docs/"; "c1/a.txt"] c6_bucket
    = Ok (d, fh1)
    /\ version_hash "c2/" ["c2/a.txt"; "c2/b.txt"] c6_bucket = Ok (d, fh2)
    /\ Permutation sorted_entries
         (entries "c1/" ["c1/b.txt"; "c1/docs/"; "c1/a.txt"] c6_bucket)
    /\ StronglySorted (key_le fst) sorted_entries
    /\ d = SHA1.hexdigest (encode (combined_text sorted_entries)).
Proof.
  apply (@directory_hash_order_insensitive "c1/" "c2/").
  - intros key [<-|[<-|[<-|[]]]] _; vm_compute; discriminate.
  - intros key [<-|[<-|[]]] _; vm_compute; discriminate.
  - vm_compute. repeat constructor; simpl; intuition discriminate.
  - vm_compute. apply perm_swap.
Defined.

Lemma crlf_to_lf_fun (content normalized : list byte) :
  crlf_to_lf content normalized -> normalized = replace_crlf content.
Proof.
  induction 1 as [|r r' H IH|b r r' Hb H IH]; simpl; auto.
  - now rewrite IH.
  - destruct r as [|b' r].
    + inversion H; subst; auto.
    + destruct (Byte.eqb b x0d && Byte.eqb b' x0a) eqn:E.
      * apply andb_true_iff in E. destruct E as [E1 E2].
        apply byte_eqb_eq in E1, E2. subst.
        destruct Hb as [Hb|Hb]; [now elim Hb|now elim (Hb r)].
      * now rewrite IH.
Qed.

(** The digest of the empty file and of a one-line file are the ones git
    gives; a CRLF ending hashes as the LF ending does. *)
Example file_sha1_empty :
  file_sha1 [] = "e69de29bb2d1d6434b8b29ae775ad8c2e48c5391".
Proof. vm_compute. reflexivity. Qed.

Example file_sha1_hello_crlf :
  file_sha1 (encode "hello" ++ [x0d; x0a])
  = "ce013625030ba8dba906f756967f9e9ca394464a"
  /\ file_sha1 (encode "hello" ++ [x0a])
     = "ce013625030ba8dba906f756967f9e9ca394464a".
Proof. split; vm_compute; reflexivity. Qed.

(** C7. On a listing whose keys have their objects, the computation of
    [fetch_version_hash] returns, and the file digests it returns are exactly
    these: one for every listed key that is not a folder marker, under the
    path of the key below the prefix, and it is the SHA-1 of [blob ], the
    decimal length, a NUL byte and the content, taken after the CRLF pairs of
    the stored content were replaced by LF.  So a digest depends on the
    content alone, not on the key or the commit the object is stored under,
    and every stored content has its digest. *)
Theorem file_hash_is_git_blob_hash :
  forall (prefix : string) (contents : list string) (b : bucket),
    listed contents b ->
    exists fh,
      version_hash prefix contents b = Ok (directory_sha1 fh, fh)
      /\ forall path h,
           In (path, h) fh <->
           exists key content normalized,
             In key contents
             /\ endswith_slash key = false
             /\ get_object key b = Some content
             /\ path = drop (String.length prefix) key
             /\ crlf_to_lf content normalized
             /\ normalized = replace_crlf content
             /\ h = SHA1.hexdigest (git_blob normalized).
Proof.
  intros prefix contents b Hl.
  assert (Hs : listed (sorted_by (sort_key prefix) contents) b).
  { eapply listed_perm; [apply Permutation_sym, sorted_by_perm|exact Hl]. }
  pose proof (hash_objects_entries prefix Hs) as E.
  exists (entries prefix (sorted_by (sort_key prefix) contents) b).
  split; [now apply version_hash_entries|].
  intros path h. rewrite (hash_objects_In _ _ _ E). split.
  - intros (key & content & Hk & Hf & Hg & Heq).
    inversion Heq; subst.
    exists key, content, (replace_crlf content).
    repeat split; auto.
    + eapply Permutation_in; [apply sorted_by_perm|exact Hk].
    + apply replace_crlf_spec.
    + apply file_sha1_git_blob.
  - intros (key & content & normalized & Hk & Hf & Hg & -> & _ & -> & ->).
    exists key, content. repeat split; auto.
    + eapply Permutation_in; [apply Permutation_sym, sorted_by_perm|exact Hk].
    + now rewrite file_sha1_git_blob.
Qed.

Lemma file_hash_is_git_blob_hash_witness :
  exists fh,
    version_hash "c1/" ["c1/b.txt"; "c1/docs/"; "c1/a.txt"] c6_bucket
    = Ok (directory_sha1 fh, fh)
    /\ forall path h,
         In (path, h) fh <->
         exists key content normalized,
           In key ["c1/b.txt"; "c1/docs/"; "c1/a.txt"]
           /\ endswith_slash key = false
           /\ get_object key c6_bucket = Some content
           /\ path = drop (String.length "c1/") key
           /\ crlf_to_lf content normalized
           /\ normalized = replace_crlf content
           /\ h = SHA1.hexdigest (git_blob normalized).
Proof.
  apply (@file_hash_is_git_blob_hash "c1/"
           ["c1/b.txt"; "c1/docs/"; "c1/a.txt"] c6_bucket).
  intros key [<-|[<-|[<-|[]]]] _; vm_compute; discriminate.
Defined.

(** ** Running the monad *)

Lemma bind_ok (A B : Type) (m : M A) (k : A -> M B) (w w' : world) (a : A) :
  m w = (Ok a, w') -> bind m k w = k a w'.
Proof. unfold bind. now intros ->. Qed.

Lemma bind_raise (A B : Type) (m : M A) (k : A -> M B) (w w' : world)
      (e : exn) :
  m w = (Raise e, w') -> bind m k w = (Raise e, w').
Proof. unfold bind. now intros ->. Qed.

(** Two worlds with the same stores: they differ at most by what was
    printed and by the S3 client being set up. *)
Definition same_stores (w w' : world) : Prop :=
  db w' = db w /\ s3 w' = s3 w /\ config w' = config w
  /\ workdir w' = workdir w /\ current_branch w' = current_branch w.

Lemma same_stores_refl (w : world) : same_stores w w.
Proof. repeat split. Qed.

Lemma same_stores_trans (w1 w2 w3 : world) :
  same_stores w1 w2 -> same_stores w2 w3 -> same_stores w1 w3.
Proof.
  unfold same_stores. intros (?&?&?&?&?) (?&?&?&?&?).
  repeat split; congruence.
Qed.

Lemma print_run (text : string) (w : world) :
  print text w = (Ok tt, add_stdout (Line text) w).
Proof. reflexivity. Qed.

Lemma get_client_run (w : world) :
  exists w', get_client w = (Ok tt, w') /\ same_stores w w'.
Proof.
  unfold get_client, bind, gets. destruct (s3_client w) eqn:E.
  - exists w. split; [reflexivity|apply same_stores_refl].
  - eexists. split; [reflexivity|]. repeat split.
Qed.

Lemma for_each_print_run (A : Type) (text : A -> string) (l : list A)
      (w : world) :
  exists w', for_each l (fun x => print (text x)) w = (Ok tt, w')
             /\ same_stores w w'.
Proof.
  revert w. induction l as [|x l IH]; intros w; simpl.
  - exists w. split; [reflexivity|apply same_stores_refl].
  - destruct (IH (add_stdout (Line (text x)) w)) as (w' & H & Hs).
    exists w'. split.
    + unfold bind. rewrite print_run. exact H.
    + eapply same_stores_trans; [|exact Hs]. repeat split.
Qed.

(** ** Switching branches (C9) *)

Lemma head_rows_no_head (branch : string) (g : graph) :
  match_nodes HEAD branch g = [] -> head_rows branch g = [].
Proof. unfold head_rows. now intros ->. Qed.

(** C9. [switch_branch name]: when the HEAD of [name] resolves to a commit,
    the persisted pointer becomes that commit id and the active branch
    becomes [name]; when it does not resolve (in particular when there is no
    HEAD node for [name]), the message that the branch does not exist is
    printed and the active branch, the pointer and the graph are as
    before. *)
Theorem switch_branch_spec :
  forall (branch_name : string) (w : world),
    let w' := snd (switch_branch branch_name w) in
    fst (switch_branch branch_name w) = Ok tt
    /\ db w' = db w
    /\ (forall c, single (head_rows branch_name (db w)) = Some c ->
          config w' = Some c /\ current_branch w' = branch_name)
    /\ (single (head_rows branch_name (db w)) = None ->
          stdout w' = stdout w
                        ++ [Line ("Branch " ++ branch_name ++ " does not exist")%string]
          /\ config w' = config w
          /\ current_branch w' = current_branch w)
    /\ (match_nodes HEAD branch_name (db w) = [] ->
          single (head_rows branch_name (db w)) = None).
Proof.
  intros name w. unfold switch_branch, bind, gets. simpl.
  destruct (single (head_rows name (db w))) as [c|] eqn:E; simpl;
    refine (conj eq_refl (conj eq_refl (conj _ (conj _ _)))).
  - intros c' Hc. inversion Hc; subst. split; reflexivity.
  - discriminate.
  - intros H. rewrite (head_rows_no_head _ _ H) in E. discriminate.
  - discriminate.
  - intros _. repeat split.
  - reflexivity.
Qed.

Definition c9_world : world :=
  mkWorld
    (mkGraph [mkNode 0 Commit "c1" (Some "first") (Some "t1");
              mkNode 1 Branch "dev" None None;
              mkNode 2 HEAD "dev" None None]
             [mkRel 3 BASE 1 0; mkRel 4 POINTS_TO 2 0] 5)
    [] (Some "c0") [] "master" true [].

Lemma switch_branch_spec_witness :
  (config (snd (switch_branch "dev" c9_world)) = Some "c1"
   /\ current_branch (snd (switch_branch "dev" c9_world)) = "dev")
  /\ (stdout (snd (switch_branch "gone" c9_world))
      = [Line "Branch gone does not exist"]
      /\ config (snd (switch_branch "gone" c9_world)) = Some "c0"
      /\ current_branch (snd (switch_branch "gone" c9_world)) = "master").
Proof.
  split.
  - apply (proj1 (proj2 (proj2 (switch_branch_spec "dev" c9_world))) "c1").
    reflexivity.
  - apply (proj1 (proj2 (proj2 (proj2 (switch_branch_spec "gone" c9_world))))).
    reflexivity.
Defined.

(** ** The shape of the graph after a statement *)

(** The identities of the nodes are pairwise different, and identities in
    use are below [next_id]. *)
Fixpoint distinct (l : list nat) : bool :=
  match l with
  | [] => true
  | x :: r => negb (mem x r) && distinct r
  end.

Definition wf_graph (g : graph) : bool :=
  distinct (map node_id (nodes g))
  && forallb (fun n => Nat.ltb (node_id n) (next_id g)) (nodes g)
  && forallb (fun r => Nat.ltb (rel_id r) (next_id g)
                       && Nat.ltb (rel_start r) (next_id g)
                       && Nat.ltb (rel_end r) (next_id g)) (rels g).

(** The relationships one CREATE clause adds, numbered from [n0]. *)
Fixpoint new_rels (t : reltype) (n0 : nat) (rows : list (node * node))
  : list rel :=
  match rows with
  | [] => []
  | ab :: r =>
      mkRel n0 t (node_id (fst ab)) (node_id (snd ab)) :: new_rels t (S n0) r
  end.

Lemma create_rels_eq (t : reltype) (rows : list (node * node)) (g : graph) :
  create_rels t rows g
  = mkGraph (nodes g) (rels g ++ new_rels t (next_id g) rows)
            (next_id g + List.length rows).
Proof.
  unfold create_rels. revert g.
  induction rows as [|ab rows IH]; intros g; simpl.
  - rewrite app_nil_r, Nat.add_0_r. now destruct g.
  - rewrite IH. simpl. rewrite <- app_assoc. simpl.
    f_equal. lia.
Qed.

Lemma new_rels_type (t : reltype) (n0 : nat) (rows : list (node * node)) :
  Forall (fun r => rel_type r = t) (new_rels t n0 rows).
Proof.
  revert n0. induction rows as [|ab rows IH]; intros n0; simpl;
    constructor; auto.
Qed.

Lemma new_rels_ends (t : reltype) (n0 : nat) (rows : list (node * node)) :
  Forall (fun r => In (rel_start r, rel_end r)
                      (map (fun ab => (node_id (fst ab), node_id (snd ab))) rows))
         (new_rels t n0 rows).
Proof.
  revert n0. induction rows as [|ab rows IH]; intros n0; simpl;
    constructor; simpl; auto.
  eapply Forall_impl; [|apply IH]. simpl. auto.
Qed.

Lemma filter_nil (A : Type) (f : A -> bool) (l : list A) :
  Forall (fun x => f x = false) l -> filter f l = [].
Proof.
  induction 1 as [|x l Hx _ IH]; simpl; auto. now rewrite Hx.
Qed.

Lemma filter_all (A : Type) (f : A -> bool) (l : list A) :
  Forall (fun x => f x = true) l -> filter f l = l.
Proof.
  induction 1 as [|x l Hx _ IH]; simpl; auto. now rewrite Hx, IH.
Qed.

Lemma delete_rels_nil (g : graph) : delete_rels [] g = g.
Proof.
  unfold delete_rels. simpl. rewrite filter_all; [now destruct g|].
  apply Forall_forall. auto.
Qed.

(** Without a HEAD node for the branch, [update_head] changes nothing. *)
Lemma q_update_head_no_head (branch commit_id : string) (g : graph) :
  match_nodes HEAD branch g = [] -> q_update_head branch commit_id g = g.
Proof.
  intros H. unfold q_update_head. rewrite H. simpl.
  rewrite delete_rels_nil. now destruct g.
Qed.

Lemma q_create_commit_nodes (cid msg ts user : string) (g : graph) :
  exists extra,
    nodes (q_create_commit cid msg ts user g)
    = nodes g ++ mkNode (next_id g) Commit cid (Some msg) (Some ts) :: extra
    /\ Forall (fun n => node_label n = User) extra.
Proof.
  unfold q_create_commit, create_node, merge_node.
  match goal with |- context [match_nodes User user ?g1] =>
    destruct (match_nodes User user g1) eqn:E end.
  - unfold create_node. cbn.
    eexists. rewrite <- app_assoc. simpl. split; [reflexivity|].
    repeat constructor.
  - rewrite create_rels_eq. simpl. exists []. split; auto.
Qed.

Lemma q_create_commit_rels (cid msg ts user : string) (g : graph) :
  exists new,
    rels (q_create_commit cid msg ts user g) = rels g ++ new
    /\ Forall (fun r => rel_type r = MADE_BY) new.
Proof.
  unfold q_create_commit, create_node, merge_node.
  match goal with |- context [match_nodes User user ?g1] =>
    destruct (match_nodes User user g1) eqn:E end.
  - unfold create_node. cbn. eexists. split; [reflexivity|].
    repeat constructor.
  - rewrite create_rels_eq. cbn [rels]. eexists. split; [reflexivity|].
    apply new_rels_type.
Qed.

Lemma wf_graph_rels (g : graph) :
  wf_graph g = true ->
  Forall (fun r => rel_id r < next_id g /\ rel_start r < next_id g
                   /\ rel_end r < next_id g) (rels g).
Proof.
  unfold wf_graph. intros H. apply andb_true_iff in H. destruct H as [_ H].
  rewrite forallb_forall in H. apply Forall_forall. intros r Hr.
  specialize (H r Hr). rewrite !andb_true_iff, !Nat.ltb_lt in H. tauto.
Qed.

Lemma wf_graph_nodes (g : graph) :
  wf_graph g = true -> Forall (fun n => node_id n < next_id g) (nodes g).
Proof.
  unfold wf_graph. intros H. rewrite !andb_true_iff in H.
  destruct H as [[_ H] _].
  rewrite forallb_forall in H. apply Forall_forall. intros r Hr.
  specialize (H r Hr). now rewrite Nat.ltb_lt in H.
Qed.

Lemma mem_In (i : nat) (l : list nat) : mem i l = true <-> In i l.
Proof.
  unfold mem. rewrite existsb_exists. split.
  - intros (x & Hx & E). apply Nat.eqb_eq in E. now subst.
  - intros H. exists i. split; auto. apply Nat.eqb_refl.
Qed.

Lemma distinct_NoDup (l : list nat) : distinct l = true -> NoDup l.
Proof.
  induction l as [|x l IH]; simpl; intros H; constructor.
  - apply andb_true_iff in H. destruct H as [H _].
    intros Hin. apply mem_In in Hin. now rewrite Hin in H.
  - apply IH. apply andb_true_iff in H. tauto.
Qed.

Lemma wf_graph_distinct (g : graph) :
  wf_graph g = true -> NoDup (map node_id (nodes g)).
Proof.
  unfold wf_graph. intros H. rewrite !andb_true_iff in H.
  destruct H as [[H _] _]. now apply distinct_NoDup.
Qed.

(** ** The blob store *)

(** The key [s3_store] uploads a file under. *)
Definition object_key (base_prefix rel_path : string) : string :=
  replace_char "\" "/" (path_join base_prefix rel_path).

Definition upload (base_prefix : string) (b : bucket) (f : string * string)
  : bucket :=
  put_object (object_key base_prefix (fst f)) (encode (snd f)) b.

(** The bucket after the loop of [s3_store], and the error that ended the
    loop, if one did. *)
Fixpoint store_files (base_prefix : string) (files : list (string * string))
         (b : bucket) : bucket * option exn :=
  match files with
  | [] => (b, None)
  | f :: r =>
      let key := object_key base_prefix (fst f) in
      if String.eqb key "" then (b, Some ParamValidationError)
      else if Nat.ltb 1024 (String.length key) then (b, Some KeyTooLongError)
      else store_files base_prefix r (upload base_prefix b f)
  end.

(** What the handler of [s3_store] prints. *)
Definition store_report (e : option exn) (w : world) : world :=
  match e with
  | Some e =>
      add_stdout (LineExn "Some error occurred while storing the commit:" e) w
  | None => w
  end.

Lemma set_s3_same (w : world) : set_s3 (s3 w) w = w.
Proof. now destruct w. Qed.

Lemma upload_loop_run (files : list (string * string)) (base_prefix : string)
      (w : world) :
  for_each files
    (fun f =>
       upload_fileobj (replace_char "\" "/" (path_join base_prefix (fst f)))
                      (encode (snd f))) w
  = (match snd (store_files base_prefix files (s3 w)) with
     | Some e => Raise e
     | None => Ok tt
     end,
     set_s3 (fst (store_files base_prefix files (s3 w))) w).
Proof.
  revert w. induction files as [|f files IH]; intros w.
  - cbn. now rewrite set_s3_same.
  - cbn [for_each store_files]. unfold bind, upload_fileobj at 1.
    fold (object_key base_prefix (fst f)).
    destruct (String.eqb (object_key base_prefix (fst f)) "");
      [cbn; now rewrite set_s3_same|].
    destruct (Nat.ltb 1024 (String.length (object_key base_prefix (fst f))));
      [cbn; now rewrite set_s3_same|].
    unfold modify. rewrite IH. reflexivity.
Qed.

Lemma s3_store_run (files : list (string * string)) (base_prefix : string)
      (w : world) :
  s3_store files base_prefix w
  = (Ok tt,
     store_report (snd (store_files base_prefix files (s3 w)))
       (set_s3 (fst (store_files base_prefix files (s3 w))) w)).
Proof.
  unfold s3_store, try_except. cbv zeta. rewrite upload_loop_run.
  now destruct (snd (store_files base_prefix files (s3 w))).
Qed.

Lemma store_report_stores (e : option exn) (w : world) :
  db (store_report e w) = db w /\ s3 (store_report e w) = s3 w
  /\ config (store_report e w) = config w
  /\ workdir (store_report e w) = workdir w
  /\ current_branch (store_report e w) = current_branch w.
Proof. destruct e; repeat split. Qed.

(** When the bucket accepts every key, every file is put. *)
Lemma store_files_valid (base_prefix : string) (files : list (string * string))
      (b : bucket) :
  forallb valid_object_key
          (map (fun f => object_key base_prefix (fst f)) files) = true ->
  store_files base_prefix files b
  = (fold_left (upload base_prefix) files b, None).
Proof.
  revert b. induction files as [|f files IH]; intros b H; simpl in *; auto.
  apply andb_true_iff in H. destruct H as [Hv H].
  unfold valid_object_key in Hv. apply andb_true_iff in Hv.
  destruct Hv as [Hv1 Hv2]. apply negb_true_iff in Hv1. rewrite Hv1.
  apply Nat.leb_le in Hv2.
  destruct (Nat.ltb_spec 1024 (String.length (object_key base_prefix (fst f))));
    [lia|].
  now apply IH.
Qed.

Lemma get_put_same (key : string) (content : list byte) (b : bucket) :
  get_object key (put_object key content b) = Some content.
Proof.
  unfold get_object.
  induction b as [|(k, c) b IH]; simpl.
  - now rewrite String.eqb_refl.
  - destruct (String.eqb key k) eqn:E; simpl.
    + now rewrite String.eqb_refl.
    + rewrite String.eqb_sym, E. exact IH.
Qed.

Lemma get_put_present (key key' : string) (content : list byte) (b : bucket) :
  get_object key b <> None ->
  get_object key (put_object key' content b) <> None.
Proof.
  unfold get_object.
  induction b as [|(k, c) b IH]; simpl; auto.
  destruct (String.eqb key' k) eqn:E; simpl.
  - apply String.eqb_eq in E. subst.
    destruct (String.eqb k key); simpl; auto. intros _. discriminate.
  - destruct (String.eqb k key); simpl; auto.
Qed.

Lemma upload_all_present (base_prefix : string) (files : list (string * string))
      (b : bucket) (f : string * string) :
  In f files ->
  get_object (object_key base_prefix (fst f))
             (fold_left (upload base_prefix) files b) <> None.
Proof.
  assert (K : forall fs b k, get_object k b <> None ->
                get_object k (fold_left (upload base_prefix) fs b) <> None).
  { induction fs as [|x fs IH]; intros b0 k Hk; simpl; auto.
    apply IH. unfold upload. now apply get_put_present. }
  revert b. induction files as [|x files IH]; intros b []; simpl.
  - subst. apply K. unfold upload. rewrite get_put_same. discriminate.
  - now apply IH.
Qed.

(** ** A commit on a branch without HEAD (C10) *)

Definition is_points_to (r : rel) : bool := reltype_eqb (rel_type r) POINTS_TO.

(** C10. [create_commit] on a branch other than master that has no HEAD node
    does not raise.  The parent lookup finds nothing, so the graph gets
    exactly what the CREATE/MERGE statement adds: the new Commit node has no
    outgoing PARENT relationship, no POINTS_TO relationship is created and
    the branch still has no HEAD; the local pointer is the new commit id and
    the snapshot is uploaded: the bucket is the one the loop of [s3_store]
    leaves, and when the bucket accepts the key of every file (none empty,
    none above 1024 bytes), every file of the snapshot has been put under
    the commit prefix. *)
Theorem create_commit_headless :
  forall (commit_id message user_id : string) (files : list (string * string))
         (commit_branch timestamp : string) (w : world),
    commit_branch <> "master" ->
    match_nodes HEAD commit_branch (db w) = [] ->
    wf_graph (db w) = true ->
    let r := create_commit commit_id message user_id files commit_branch
                           timestamp w in
    let w' := snd r in
    fst r = Ok tt
    /\ db w' = q_create_commit commit_id message timestamp user_id (db w)
    /\ (exists c, In c (nodes (db w'))
                  /\ node_id c = next_id (db w)
                  /\ is_full_commit commit_id message timestamp c = true
                  /\ out_rels PARENT (node_id c) (db w') = [])
    /\ filter is_points_to (rels (db w')) = filter is_points_to (rels (db w))
    /\ match_nodes HEAD commit_branch (db w') = []
    /\ head_rows commit_branch (db w') = []
    /\ config w' = Some commit_id
    /\ s3 w' = fst (store_files commit_id files (s3 w))
    /\ (forallb valid_object_key
                (map (fun f => object_key commit_id (fst f)) files) = true ->
        s3 w' = fold_left (upload commit_id) files (s3 w)
        /\ (forall f, In f files ->
              get_object (object_key commit_id (fst f)) (s3 w') <> None)).
Proof.
  intros cid msg user files branch ts w Hb Hh Hwf.
  destruct (q_create_commit_nodes cid msg ts user (db w)) as (extra & Hn & He).
  destruct (q_create_commit_rels cid msg ts user (db w)) as (new & Hr & Hm).
  set (g' := q_create_commit cid msg ts user (db w)) in *.
  assert (Hh' : match_nodes HEAD branch g' = []).
  { unfold match_nodes in *. rewrite Hn, filter_app, Hh. simpl.
    apply filter_nil. apply Forall_forall. intros n Hin.
    rewrite Forall_forall in He. unfold is_node. now rewrite (He n Hin). }
  assert (Hrun : create_commit cid msg user files branch ts w
                 = (Ok tt,
                    add_stdout (Line ("Commit created: " ++ cid ++ " - " ++ msg)%string)
                      (store_report (snd (store_files cid files (s3 w)))
                         (set_s3 (fst (store_files cid files (s3 w)))
                            (set_config (Some cid) (set_db g' w)))))).
  { unfold create_commit. apply String.eqb_neq in Hb. rewrite Hb.
    unfold bind, gets, run, modify, ret, write_latest_commit, update_head.
    rewrite (head_rows_no_head _ _ Hh). simpl.
    fold g'. rewrite (q_update_head_no_head _ _ _ Hh').
    rewrite s3_store_run. simpl. unfold print, modify. simpl.
    reflexivity. }
  intros r w'. subst r w'. rewrite Hrun. cbn [fst snd].
  destruct (store_report_stores (snd (store_files cid files (s3 w)))
              (set_s3 (fst (store_files cid files (s3 w)))
                 (set_config (Some cid) (set_db g' w))))
    as (Edb & Es3 & Ecf & _).
  cbn [db s3 config add_stdout]. rewrite Edb, Es3, Ecf.
  cbn [db s3 config set_s3 set_config set_db].
  refine (conj eq_refl (conj eq_refl (conj _ (conj _ (conj Hh' (conj _
           (conj eq_refl (conj eq_refl _)))))))).
  - exists (mkNode (next_id (db w)) Commit cid (Some msg) (Some ts)).
    split; [rewrite Hn; apply in_or_app; right; left; reflexivity|].
    split; [reflexivity|].
    split; [unfold is_full_commit, is_node; simpl;
            now rewrite !String.eqb_refl|].
    unfold out_rels. rewrite Hr, filter_app. simpl.
    rewrite (@filter_nil _ _ (rels (db w))), (@filter_nil _ _ new); auto.
    + eapply Forall_impl; [|exact Hm]. intros x Hx. simpl in Hx.
      now rewrite Hx.
    + eapply Forall_impl; [|exact (wf_graph_rels _ Hwf)].
      intros x (_ & Hx & _). simpl.
      apply andb_false_iff. right. apply Nat.eqb_neq. lia.
  - rewrite Hr, filter_app.
    rewrite (@filter_nil _ _ new); [now rewrite app_nil_r|].
    eapply Forall_impl; [|exact Hm]. intros x Hx. unfold is_points_to.
    now rewrite Hx.
  - now apply head_rows_no_head.
  - intros Hv. rewrite store_files_valid by assumption. cbn [fst].
    split; [reflexivity|].
    intros f Hf. now apply upload_all_present.
Qed.

Definition c10_world : world :=
  mkWorld
    (mkGraph [mkNode 0 Commit "c1" (Some "first") (Some "t1");
              mkNode 1 User "alice" None None;
              mkNode 2 Branch "master" None None;
              mkNode 3 HEAD "master" None None]
             [mkRel 4 MADE_BY 0 1; mkRel 5 BASE 2 0; mkRel 6 POINTS_TO 3 0] 7)
    [] (Some "c1") [] "master" true [].

Lemma create_commit_headless_witness :
  let r := create_commit "c2" "work" "alice" [("a.txt", "a")] "ghost" "t2"
                         c10_world in
  fst r = Ok tt
  /\ head_rows "ghost" (db (snd r)) = []
  /\ config (snd r) = Some "c2"
  /\ get_object "c2/a.txt" (s3 (snd r)) <> None.
Proof.
  destruct (@create_commit_headless "c2" "work" "alice" [("a.txt", "a")]
              "ghost" "t2" c10_world)
    as (H1 & _ & _ & _ & _ & H2 & H3 & _ & H4).
  - discriminate.
  - reflexivity.
  - reflexivity.
  - repeat split; auto.
    apply (proj2 (H4 eq_refl) ("a.txt", "a")). left. reflexivity.
Defined.

(** ** Merge commits (C8, C4) *)

Definition merge_row : Type := (node * (node * (node * node)))%type.

(** The PARENT relationships the first CREATE clause of [q_merge_commit]
    adds: two per row, numbered from [n0]. *)
Fixpoint parent_rels (n0 : nat) (rows : list merge_row) : list rel :=
  match rows with
  | [] => []
  | (c, (a, (b, _))) :: r =>
      mkRel n0 PARENT (node_id c) (node_id a)
        :: mkRel (S n0) PARENT (node_id c) (node_id b)
        :: parent_rels (S (S n0)) r
  end.

Lemma fold_parent_rels (rows : list merge_row) (g : graph) :
  fold_left
    (fun g' (row : merge_row) =>
       let '(c, (a, (b, _))) := row in
       create_rel PARENT c b (create_rel PARENT c a g'))
    rows g
  = mkGraph (nodes g) (rels g ++ parent_rels (next_id g) rows)
            (next_id g + 2 * List.length rows).
Proof.
  revert g. induction rows as [|(c, (a, (b, u))) rows IH]; intros g; simpl.
  - rewrite app_nil_r, Nat.add_0_r. now destruct g.
  - rewrite IH. cbn [create_rel nodes rels next_id].
    rewrite <- !app_assoc. simpl. f_equal. lia.
Qed.

(** The graph the MERGE clause of [q_merge_commit] leaves, and the Commit
    nodes it binds. *)
Definition merged_commit (mid msg ts : string) (g : graph)
  : list node * graph :=
  match filter (is_full_commit mid msg ts) (nodes g) with
  | [] => let (c, g') := create_node Commit mid (Some msg) (Some ts) g in
          ([c], g')
  | ms => (ms, g)
  end.

Definition merge_rows (mid msg ts source_id target_id user_id : string)
           (g : graph) : list merge_row :=
  let (cs, g1) := merged_commit mid msg ts g in
  product cs (product (match_nodes Commit source_id g1)
                (product (match_nodes Commit target_id g1)
                         (match_nodes User user_id g1))).

Lemma q_merge_commit_eq (mid msg ts source_id target_id user_id : string)
      (g : graph) :
  let g1 := snd (merged_commit mid msg ts g) in
  let rows := merge_rows mid msg ts source_id target_id user_id g in
  q_merge_commit mid msg ts source_id target_id user_id g
  = mkGraph (nodes g1)
      (rels g1 ++ parent_rels (next_id g1) rows
            ++ new_rels MADE_BY (next_id g1 + 2 * List.length rows)
                 (map (fun row : merge_row => (fst row, snd (snd (snd row))))
                      rows))
      (next_id g1 + 2 * List.length rows + List.length rows).
Proof.
  unfold q_merge_commit, merge_rows, merged_commit.
  destruct (filter (is_full_commit mid msg ts) (nodes g)) as [|m ms] eqn:E;
    cbv zeta; unfold create_node; cbn [fst snd];
    rewrite create_rels_eq, fold_parent_rels; cbn [nodes rels next_id];
    rewrite <- app_assoc, length_map; reflexivity.
Qed.

Lemma merged_commit_nodes (mid msg ts : string) (g : graph) :
  exists c, In c (nodes (snd (merged_commit mid msg ts g)))
            /\ is_full_commit mid msg ts c = true.
Proof.
  unfold merged_commit.
  destruct (filter (is_full_commit mid msg ts) (nodes g)) as [|m ms] eqn:E.
  - simpl. eexists. split; [apply in_or_app; right; left; reflexivity|].
    unfold is_full_commit, is_node. simpl. now rewrite !String.eqb_refl.
  - simpl. exists m.
    assert (H : In m (filter (is_full_commit mid msg ts) (nodes g)))
      by (rewrite E; now left).
    apply filter_In in H. exact H.
Qed.

Lemma merge_commit_run (commit1 commit2 user_id message timestamp : string)
      (w : world) (last : string) (ch : ascii) (n : nat) :
  config w = Some last -> last_char last = Some ch ->
  digit_value ch = Some n ->
  let mid := (but_last last ++ str_of_nat (n + 1))%string in
  merge_commit commit1 commit2 user_id message timestamp w
  = (Ok mid,
     set_config (Some mid)
       (set_db (q_merge_commit mid message timestamp commit1 commit2 user_id
                               (db w))
               (add_stdout (Line "entered merge commit function") w))).
Proof.
  intros Hc Hl Hd mid.
  unfold merge_commit, bind, read_latest_commit, gets. rewrite print_run.
  cbn [config add_stdout]. rewrite Hc, Hl, Hd. reflexivity.
Qed.

Lemma digit_value_digit (n : nat) :
  n <= 9 -> digit_value (ascii_of_nat (48 + n)) = Some n.
Proof.
  intros H. do 10 (destruct n as [|n]; [reflexivity|]). lia.
Qed.

Lemma is_full_commit_fields (mid msg ts : string) (c : node) :
  is_full_commit mid msg ts c = true ->
  node_label c = Commit /\ node_key c = mid
  /\ node_message c = Some msg /\ node_timestamp c = Some ts.
Proof.
  unfold is_full_commit, is_node, opt_eqb.
  rewrite !andb_true_iff. intros [[[Hl Hk] Hm] Ht].
  apply String.eqb_eq in Hk.
  destruct (node_message c); try discriminate.
  destruct (node_timestamp c); try discriminate.
  apply String.eqb_eq in Hm, Ht. subst.
  destruct (node_label c); try discriminate. auto.
Qed.

(** C8. When the persisted pointer is [prefix] followed by the decimal digit
    of [n], [merge_commit] returns the id [prefix] followed by [n + 1] in
    decimal, the graph holds a Commit node with that id, the message and the
    timestamp, and the pointer is that id. *)
Theorem merge_commit_id_increment :
  forall (commit1 commit2 user_id message timestamp : string) (w : world)
         (prefix : string) (n : nat),
    n <= 9 ->
    config w = Some (prefix ++ String (ascii_of_nat (48 + n)) "")%string ->
    let r := merge_commit commit1 commit2 user_id message timestamp w in
    let mid := (prefix ++ str_of_nat (n + 1))%string in
    fst r = Ok mid
    /\ db (snd r)
       = q_merge_commit mid message timestamp commit1 commit2 user_id (db w)
    /\ (exists c, In c (nodes (db (snd r)))
                  /\ node_label c = Commit /\ node_key c = mid
                  /\ node_message c = Some message
                  /\ node_timestamp c = Some timestamp)
    /\ config (snd r) = Some mid.
Proof.
  intros c1 c2 user msg ts w prefix n Hn Hc r mid. subst r.
  rewrite (merge_commit_run c1 c2 user msg ts w Hc
             (last_char_app prefix _) (digit_value_digit Hn)).
  rewrite but_last_app. fold mid. cbn [fst snd].
  refine (conj eq_refl (conj eq_refl (conj _ eq_refl))).
  cbn [db set_config set_db]. rewrite q_merge_commit_eq. cbn [nodes].
  destruct (merged_commit_nodes mid msg ts (db w)) as (c & Hin & Hc').
  exists c. split; auto. now apply is_full_commit_fields.
Qed.

Lemma merge_commit_id_increment_witness :
  let r := merge_commit "c1" "c1" "alice" "merge" "t3"
             (set_config (Some "c9") c10_world) in
  fst r = Ok "c10"
  /\ db (snd r) = q_merge_commit "c10" "merge" "t3" "c1" "c1" "alice"
                                 (db c10_world)
  /\ (exists c, In c (nodes (db (snd r)))
                /\ node_label c = Commit /\ node_key c = "c10"
                /\ node_message c = Some "merge"
                /\ node_timestamp c = Some "t3")
  /\ config (snd r) = Some "c10".
Proof.
  apply (@merge_commit_id_increment "c1" "c1" "alice" "merge" "t3"
           (set_config (Some "c9") c10_world) "c" 9).
  - lia.
  - reflexivity.
Defined.

Lemma product_nil_r (A B : Type) (xs : list A) : product xs (@nil B) = [].
Proof. unfold product. induction xs; simpl; auto. Qed.

Lemma merged_commit_users (mid msg ts user_id : string) (g : graph) :
  match_nodes User user_id (snd (merged_commit mid msg ts g))
  = match_nodes User user_id g.
Proof.
  unfold merged_commit.
  destruct (filter (is_full_commit mid msg ts) (nodes g)); simpl; auto.
  unfold match_nodes. simpl. rewrite filter_app. simpl.
  now rewrite app_nil_r.
Qed.

Lemma merged_commit_rels (mid msg ts : string) (g : graph) :
  rels (snd (merged_commit mid msg ts g)) = rels g.
Proof.
  unfold merged_commit.
  now destruct (filter (is_full_commit mid msg ts) (nodes g)).
Qed.

(** C4. [merge_commit] does not upsert the user.  When no User node has the
    given id, the MATCH of the statement finds no row: the merge commit node
    is there (C8), the graph has no User node for the id afterwards and not
    one relationship more than before, so the merge commit has neither
    PARENT nor MADE_BY relationships.  ([create_commit] upserts the user
    with MERGE.) *)
Theorem merge_commit_user_not_upserted :
  forall (commit1 commit2 user_id message timestamp : string) (w : world)
         (prefix : string) (n : nat),
    n <= 9 ->
    config w = Some (prefix ++ String (ascii_of_nat (48 + n)) "")%string ->
    match_nodes User user_id (db w) = [] ->
    let r := merge_commit commit1 commit2 user_id message timestamp w in
    fst r = Ok (prefix ++ str_of_nat (n + 1))%string
    /\ match_nodes User user_id (db (snd r)) = []
    /\ rels (db (snd r)) = rels (db w).
Proof.
  intros c1 c2 user msg ts w prefix n Hn Hc Hu r. subst r.
  rewrite (merge_commit_run c1 c2 user msg ts w Hc
             (last_char_app prefix _) (digit_value_digit Hn)).
  rewrite but_last_app. cbn [fst snd db set_config set_db add_stdout].
  split; [reflexivity|].
  rewrite q_merge_commit_eq. cbn [nodes rels].
  assert (Hrows : merge_rows (prefix ++ str_of_nat (n + 1)) msg ts c1 c2 user
                             (db w) = []).
  { unfold merge_rows.
    pose proof (merged_commit_users (prefix ++ str_of_nat (n + 1)) msg ts
                                    user (db w)) as Hm.
    destruct (merged_commit (prefix ++ str_of_nat (n + 1)) msg ts (db w))
      as (cs, g1).
    simpl in Hm. rewrite Hm, Hu. now rewrite !product_nil_r. }
  rewrite Hrows. simpl. rewrite app_nil_r. split.
  - pose proof (merged_commit_users (prefix ++ str_of_nat (n + 1)) msg ts
                                    user (db w)) as Hm.
    unfold match_nodes in *. cbn [nodes]. now rewrite Hm.
  - apply merged_commit_rels.
Qed.

(** Two commits by alice on master; bob has never committed. *)
Definition c4_world : world :=
  mkWorld
    (mkGraph [mkNode 0 Commit "c1" (Some "first") (Some "t1");
              mkNode 1 User "alice" None None;
              mkNode 2 Branch "master" None None;
              mkNode 3 HEAD "master" None None;
              mkNode 4 Commit "c2" (Some "second") (Some "t2")]
             [mkRel 5 MADE_BY 0 1; mkRel 6 BASE 2 0; mkRel 7 MADE_BY 4 1;
              mkRel 8 PARENT 4 0; mkRel 9 POINTS_TO 3 4] 10)
    [] (Some "c2") [] "master" true [].

Lemma merge_commit_user_not_upserted_witness :
  let r := merge_commit "c2" "c1" "bob" "merge" "t3" c4_world in
  fst r = Ok "c3"
  /\ match_nodes User "bob" (db (snd r)) = []
  /\ rels (db (snd r)) = rels (db c4_world).
Proof.
  apply (@merge_commit_user_not_upserted "c2" "c1" "bob" "merge" "t3"
           c4_world "c" 2).
  - lia.
  - reflexivity.
  - reflexivity.
Defined.

(** At that input the merge commit is a node without relationships, where an
    ordinary commit by the same new user gets its MADE_BY relationship. *)
Example merge_commit_absent_user_example :
  let g := db (snd (merge_commit "c2" "c1" "bob" "merge" "t3" c4_world)) in
  match_nodes Commit "c3" g = [mkNode 10 Commit "c3" (Some "merge") (Some "t3")]
  /\ out_rels PARENT 10 g = []
  /\ out_rels MADE_BY 10 g = []
  /\ out_rels MADE_BY 10
       (q_create_commit "c3" "work" "t3" "bob" (db c4_world))
     = [mkRel 12 MADE_BY 10 11].
Proof. vm_compute. repeat split. Qed.

(** ** One POINTS_TO per HEAD (C5) *)

Definition head_out_degree (branch : string) (g : graph) : list nat :=
  map (fun h => List.length (out_rels POINTS_TO (node_id h) g))
      (match_nodes HEAD branch g).

(** C5. [create_branch] for a name that already has a HEAD node reuses the
    node and adds a POINTS_TO relationship without removing the old one (as
    [update_head] does): after [branch dev --commit_id c1] and then
    [branch dev --commit_id c2] the HEAD of dev has two POINTS_TO
    relationships and resolves to two commits, and a later [update_head]
    keeps two. *)
Theorem create_branch_twice_two_points_to :
  let w1 := snd (create_branch "dev" "c1" c4_world) in
  let w2 := snd (create_branch "dev" "c2" w1) in
  let w3 := snd (update_head "dev" "c1" w2) in
  head_out_degree "dev" (db w1) = [1]
  /\ head_out_degree "dev" (db w2) = [2]
  /\ head_rows "dev" (db w2) = ["c1"; "c2"]
  /\ head_out_degree "dev" (db w3) = [2]
  /\ head_rows "dev" (db w3) = ["c1"; "c1"].
Proof. vm_compute. repeat split. Qed.

(** ** Ancestors and the lowest common ancestor (C2) *)

(** The common ancestor [merge_branches] picks for two head commits. *)
Definition find_lca (set_order : list string -> list string) (g : graph)
           (head_for_source_id head_for_target_id : string) : option string :=
  let ancestors_for_1 := record_distances (ancestor_rows head_for_source_id g) in
  let ancestors_for_2 := record_distances (ancestor_rows head_for_target_id g) in
  match common_ancestors set_order ancestors_for_1 ancestors_for_2 with
  | [] => None
  | c :: cs =>
      Some (min_of (fun cid => distance ancestors_for_1 cid
                               + distance ancestors_for_2 cid) c cs)
  end.

(** The mapping as the specification words it: for an ancestor reached by
    several parent chains, the minimum distance observed is recorded. *)
Definition minimal_distances (rows : list (string * nat))
  : list (string * nat) :=
  fold_left
    (fun d row =>
       match dict_get (fst row) d with
       | Some n => dict_set (fst row) (Nat.min n (snd row)) d
       | None => dict_set (fst row) (snd row) d
       end)
    rows [].

(** The common ancestor with the least sum of minimal distances. *)
Definition minimal_lca (set_order : list string -> list string) (g : graph)
           (head_for_source_id head_for_target_id : string) : option string :=
  let ancestors_for_1 := minimal_distances (ancestor_rows head_for_source_id g) in
  let ancestors_for_2 := minimal_distances (ancestor_rows head_for_target_id g) in
  match common_ancestors set_order ancestors_for_1 ancestors_for_2 with
  | [] => None
  | c :: cs =>
      Some (min_of (fun cid => distance ancestors_for_1 cid
                               + distance ancestors_for_2 cid) c cs)
  end.

Definition empty_world : world :=
  mkWorld (mkGraph [] [] 0) [] None [] "master" true [].

(** A history made with the commands of the program: the repository is
    initialised, [c1] is committed on master (an empty directory), the
    branch [feature] is made from [c1], [c2] is committed on master, and
    [feature] is merged into master (only the target changed), which makes
    the merge commit [c3] with the parents [c1] and [c2]. *)
Definition c2_history : M unit :=
  create_branch "master" "root_commit" ;;
  write_latest_commit "root_commit" ;;
  create_commit "c1" "first" "alice" [] "master" "t1" ;;
  create_branch_from_commit "feature" "c1" ;;
  create_commit "c2" "second" "alice" [("x", "1")] "master" "t2" ;;
  merge_branches (fun l => l) "feature" "master" "alice" "m" "dir" "t3".

Definition c2_world : world := snd (c2_history empty_world).

(** C2. The distance recorded for an ancestor is the one of the last path
    the query returned for it, not the least one.  In the history above
    [c1] is a parent of [c3] (distance 1) and also the parent of its other
    parent [c2] (distance 2): the mapping built for [c3] records 2 for [c1]
    and 3 for [root_commit], where the minimal distances are 1 and 2. *)
Theorem ancestors_record_last_distance :
  fst (c2_history empty_world) = Ok tt
  /\ head_rows "master" (db c2_world) = ["c3"]
  /\ ancestor_rows "c3" (db c2_world)
     = [("c1", 1); ("root_commit", 2); ("c2", 1); ("c1", 2); ("root_commit", 3)]
  /\ record_distances (ancestor_rows "c3" (db c2_world))
     = [("c1", 2); ("root_commit", 3); ("c2", 1)]
  /\ minimal_distances (ancestor_rows "c3" (db c2_world))
     = [("c1", 1); ("root_commit", 2); ("c2", 1)].
Proof. vm_compute. repeat split. Qed.

(** A history in which the same slip changes the common ancestor chosen.
    [h1] merges [u] and [v]; [u] is a child of [cs]; [v] merges [w] and [d];
    [w], [z], [cs], [d], [r] is a chain; [h2] is a child of [cs]. *)
Definition lca_graph : graph :=
  mkGraph
    [mkNode 0 Commit "r" None None; mkNode 1 Commit "d" None None;
     mkNode 2 Commit "cs" None None; mkNode 3 Commit "z" None None;
     mkNode 4 Commit "w" None None; mkNode 5 Commit "v" None None;
     mkNode 6 Commit "u" None None; mkNode 7 Commit "h1" None None;
     mkNode 8 Commit "h2" None None]
    [mkRel 9 PARENT 1 0; mkRel 10 PARENT 2 1; mkRel 11 PARENT 3 2;
     mkRel 12 PARENT 4 3; mkRel 13 PARENT 5 4; mkRel 14 PARENT 5 1;
     mkRel 15 PARENT 6 2; mkRel 16 PARENT 7 6; mkRel 17 PARENT 7 5;
     mkRel 18 PARENT 8 2]
    19.

Example lca_not_least_sum :
  record_distances (ancestor_rows "h1" lca_graph)
  = [("u", 1); ("cs", 4); ("d", 2); ("r", 3); ("v", 1); ("w", 2); ("z", 3)]
  /\ minimal_distances (ancestor_rows "h1" lca_graph)
     = [("u", 1); ("cs", 2); ("d", 2); ("r", 3); ("v", 1); ("w", 2); ("z", 3)]
  /\ find_lca (fun l => l) lca_graph "h1" "h2" = Some "d"
  /\ minimal_lca (fun l => l) lca_graph "h1" "h2" = Some "cs".
Proof. vm_compute. repeat split. Qed.

(** ** The steps of a merge *)

Lemma get_object_in (key : string) (b : bucket) :
  In key (map fst b) -> get_object key b <> None.
Proof.
  unfold get_object.
  induction b as [|(k, c) b IH]; simpl; [tauto|].
  intros [H|H].
  - subst. rewrite String.eqb_refl. discriminate.
  - destruct (String.eqb k key); [discriminate|auto].
Qed.

Lemma list_objects_in (prefix key : string) (b : bucket) :
  In key (list_objects prefix b) -> In key (map fst b).
Proof.
  unfold list_objects. intros H.
  apply (Permutation_in _ (sorted_by_perm _ _)) in H.
  apply in_map_iff in H. destruct H as (o & Ho & Hin).
  apply filter_In in Hin. apply in_map_iff. exists o. tauto.
Qed.

Lemma list_objects_v2_listed (prefix : string) (b : bucket) :
  listed (list_objects_v2 prefix b) b.
Proof.
  intros key Hin _. apply get_object_in.
  apply (list_objects_in prefix). unfold list_objects_v2 in Hin.
  rewrite <- (firstn_skipn 1000 (list_objects prefix b)).
  apply in_or_app. now left.
Qed.

(** The fingerprint of a commit: its directory digest and its file digests,
    as [fetch_version_hash] returns them. *)
Definition file_hashes (commit_id : string) (b : bucket)
  : list (string * string) :=
  let prefix := (commit_id ++ "/")%string in
  entries prefix (sorted_by (sort_key prefix) (list_objects_v2 prefix b)) b.

Definition dir_digest (commit_id : string) (b : bucket) : string :=
  directory_sha1 (file_hashes commit_id b).

Lemma fetch_version_hash_run (commit_id : string) (w : world) :
  exists w',
    fetch_version_hash commit_id w
    = (Ok (dir_digest commit_id (s3 w), file_hashes commit_id (s3 w)), w')
    /\ same_stores w w'.
Proof.
  unfold fetch_version_hash.
  destruct (get_client_run w) as (w1 & H1 & S1).
  rewrite (bind_ok _ _ _ H1).
  erewrite bind_ok by reflexivity.
  cbv zeta.
  assert (E : s3 w1 = s3 w) by apply S1. rewrite E.
  rewrite (version_hash_entries _ (list_objects_v2_listed _ (s3 w))).
  fold (file_hashes commit_id (s3 w)). fold (dir_digest commit_id (s3 w)).
  erewrite bind_ok by reflexivity.
  erewrite bind_ok by apply print_run.
  cbn [snd fst].
  destruct (for_each_print_run
              (fun ph : string * string => (fst ph ++ " -> " ++ snd ph)%string)
              (file_hashes commit_id (s3 w))
              (add_stdout (Line "File Hashes:") w1)) as (w2 & H2 & S2).
  rewrite (bind_ok _ _ _ H2).
  erewrite bind_ok by apply print_run.
  eexists. split; [reflexivity|].
  eapply same_stores_trans; [exact S1|].
  eapply same_stores_trans; [|eapply same_stores_trans; [exact S2|]];
    repeat split.
Qed.

(** One turn of the loop of [revert_to_commit]: how it ends, and the
    directory it leaves. *)
Definition restore_object (commit_prefix : string) (b : bucket)
           (key : string) (d : directory) : result unit * directory :=
  if endswith_slash key then (Ok tt, d)
  else
    let local_path :=
      normpath (split_slash (drop (String.length commit_prefix) key)) in
    match makedirs (removelast local_path) d with
    | Raise e => (Raise e, d)
    | Ok d1 =>
        match get_object key b with
        | None => (Raise (NoSuchKey key), d1)
        | Some content =>
            match download_to local_path content d1 with
            | Raise e => (Raise e, d1)
            | Ok d2 => (Ok tt, d2)
            end
        end
    end.

Fixpoint restore_objects (commit_prefix : string) (b : bucket)
         (keys : list string) (d : directory) : result unit * directory :=
  match keys with
  | [] => (Ok tt, d)
  | key :: r =>
      match restore_object commit_prefix b key d with
      | (Ok _, d1) => restore_objects commit_prefix b r d1
      | (Raise e, d1) => (Raise e, d1)
      end
  end.

(** How [revert_to_commit] ends, and what it leaves in the directory. *)
Definition checkout (commit_id : string) (b : bucket) (d : directory)
  : result unit * directory :=
  let commit_prefix := (commit_id ++ "/")%string in
  restore_objects commit_prefix b (list_objects commit_prefix b)
                  (keep_hidden d).

Lemma set_workdir_same (w : world) : set_workdir (workdir w) w = w.
Proof. now destruct w. Qed.

Lemma restore_loop_run (commit_prefix : string) (b : bucket)
      (keys : list string) (w : world) :
  for_each keys
    (fun key =>
       if endswith_slash key then ret tt
       else
         on_workdir
           (makedirs
              (removelast
                 (normpath
                    (split_slash (drop (String.length commit_prefix) key))))) ;;
         match get_object key b with
         | Some content =>
             on_workdir
               (download_to
                  (normpath
                     (split_slash (drop (String.length commit_prefix) key)))
                  content)
         | None => raise (NoSuchKey key)
         end) w
  = (fst (restore_objects commit_prefix b keys (workdir w)),
     set_workdir (snd (restore_objects commit_prefix b keys (workdir w))) w).
Proof.
  revert w. induction keys as [|k keys IH]; intros w.
  - cbn. now rewrite set_workdir_same.
  - cbn [for_each restore_objects]. unfold restore_object, bind at 1.
    destruct (endswith_slash k).
    + unfold ret. apply IH.
    + unfold bind, on_workdir at 1.
      destruct (makedirs _ (workdir w)) as [d1|e];
        [|cbn; now rewrite set_workdir_same].
      destruct (get_object k b) as [content|]; [|reflexivity].
      unfold on_workdir. cbn [workdir set_workdir].
      destruct (download_to _ content d1) as [d2|e]; [|reflexivity].
      rewrite IH. reflexivity.
Qed.

Lemma revert_to_commit_run (commit_id dir : string) (w : world) :
  revert_to_commit commit_id dir w
  = match fst (checkout commit_id (s3 w) (workdir w)) with
    | Ok _ =>
        (Ok tt,
         add_stdout
           (Line ("Restored commit " ++ commit_id ++ " to " ++ dir)%string)
           (set_workdir (snd (checkout commit_id (s3 w) (workdir w))) w))
    | Raise e =>
        (Raise e,
         set_workdir (snd (checkout commit_id (s3 w) (workdir w))) w)
    end.
Proof.
  unfold revert_to_commit, checkout. cbv zeta.
  erewrite bind_ok by reflexivity.
  erewrite bind_ok by reflexivity.
  unfold bind at 1. rewrite restore_loop_run.
  cbn [s3 workdir set_workdir].
  destruct (fst (restore_objects _ _ _ _)); reflexivity.
Qed.

Lemma revert_to_commit_ok (commit_id dir : string) (w : world) :
  fst (checkout commit_id (s3 w) (workdir w)) = Ok tt ->
  revert_to_commit commit_id dir w
  = (Ok tt,
     add_stdout
       (Line ("Restored commit " ++ commit_id ++ " to " ++ dir)%string)
       (set_workdir (snd (checkout commit_id (s3 w) (workdir w))) w)).
Proof. intros H. rewrite revert_to_commit_run, H. reflexivity. Qed.

Lemma revert_to_commit_raise (commit_id dir : string) (w : world) (e : exn) :
  fst (checkout commit_id (s3 w) (workdir w)) = Raise e ->
  revert_to_commit commit_id dir w
  = (Raise e, set_workdir (snd (checkout commit_id (s3 w) (workdir w))) w).
Proof. intros H. rewrite revert_to_commit_run, H. reflexivity. Qed.

(** The graph after [terminate_branch]. *)
Definition terminated (branch_name : string) (g : graph) : graph :=
  match single (branch_rows branch_name g) with
  | Some _ => q_terminate branch_name g
  | None => g
  end.

Definition terminate_text (branch_name : string) (g : graph) : string :=
  match single (branch_rows branch_name g) with
  | Some _ => ("Branch " ++ branch_name ++ " has been terminated")%string
  | None => ("Branch " ++ branch_name ++ " does not exist")%string
  end.

Definition terminate_result (branch_name : string) (g : graph) : bool :=
  match single (branch_rows branch_name g) with
  | Some _ => true
  | None => false
  end.

Lemma terminate_branch_run (branch_name : string) (w : world) :
  terminate_branch branch_name w
  = (Ok (terminate_result branch_name (db w)),
     add_stdout (Line (terminate_text branch_name (db w)))
                (set_db (terminated branch_name (db w)) w)).
Proof.
  unfold terminate_branch, terminated, terminate_text, terminate_result.
  erewrite bind_ok by reflexivity.
  destruct (single (branch_rows branch_name (db w))).
  - reflexivity.
  - unfold bind, print, modify, ret. simpl. now destruct w.
Qed.

(** The classification of [merge_branches], given the three directory
    digests: the four-way [if] and what each branch does before the HEAD of
    the target is updated. *)
Definition merge_decision (source_branch head_for_source_id head_for_target_id
                           user_id message directory_delete timestamp : string)
           (hash_for_ancestor_dir hash_for_source_dir hash_for_target_dir
            : string) : M string :=
  if String.eqb hash_for_ancestor_dir hash_for_target_dir
     && negb (String.eqb hash_for_ancestor_dir hash_for_source_dir)
  then
    revert_to_commit head_for_source_id directory_delete ;;
    merge_id <- merge_commit head_for_source_id head_for_target_id
                             user_id message timestamp ;;
    terminate_branch source_branch ;;
    print "new merge commit created" ;;
    exit_logging ;;
    ret merge_id
  else if negb (String.eqb hash_for_ancestor_dir hash_for_target_dir)
          && String.eqb hash_for_ancestor_dir hash_for_source_dir
  then
    revert_to_commit head_for_target_id directory_delete ;;
    merge_id <- merge_commit head_for_source_id head_for_target_id
                             user_id message timestamp ;;
    print "new merge commit created" ;;
    exit_logging ;;
    ret merge_id
  else if String.eqb hash_for_ancestor_dir hash_for_target_dir
          && String.eqb hash_for_target_dir hash_for_source_dir
  then
    print "no merge required, nothing to merge" ;;
    merge_id <- merge_commit head_for_source_id head_for_target_id
                             user_id message timestamp ;;
    print "new merge commit created" ;;
    exit_logging ;;
    ret merge_id
  else raise (ValueError conflict_message).

Section MergeRun.
Variable set_order : list string -> list string.
Variables source_branch target_branch user_id message directory_delete
          timestamp : string.
Variable w : world.
Variables head_for_source_id head_for_target_id lca_id : string.

Hypothesis source_head :
  single (head_rows source_branch (db w)) = Some head_for_source_id.
Hypothesis target_head :
  single (head_rows target_branch (db w)) = Some head_for_target_id.
Hypothesis lca :
  find_lca set_order (db w) head_for_source_id head_for_target_id
  = Some lca_id.

(** Up to the classification a merge only reads and prints. *)
Lemma merge_branches_prefix :
  exists w1,
    same_stores w w1
    /\ merge_branches set_order source_branch target_branch user_id message
                      directory_delete timestamp w
       = bind (merge_decision source_branch head_for_source_id
                 head_for_target_id user_id message directory_delete timestamp
                 (dir_digest lca_id (s3 w))
                 (dir_digest head_for_source_id (s3 w))
                 (dir_digest head_for_target_id (s3 w)))
              (fun merge_id => update_head target_branch merge_id) w1.
Proof.
  unfold merge_branches.
  destruct (get_client_run w) as (w1 & H1 & S1).
  assert (Edb : db w1 = db w) by apply S1.
  rewrite (bind_ok _ _ _ H1).
  erewrite bind_ok by reflexivity. cbv beta. rewrite Edb, source_head.
  erewrite bind_ok by reflexivity. cbv beta. rewrite Edb, target_head.
  do 3 (erewrite bind_ok by apply print_run).
  do 2 (erewrite bind_ok by reflexivity).
  cbv beta zeta. cbn [db add_stdout]. rewrite Edb.
  erewrite bind_ok by apply print_run.
  do 2 (erewrite bind_ok by reflexivity).
  unfold find_lca in lca.
  destruct (common_ancestors set_order
              (record_distances (ancestor_rows head_for_source_id (db w)))
              (record_distances (ancestor_rows head_for_target_id (db w))))
    as [|c cs]; [discriminate|].
  inversion lca as [Hl]. clear lca. rewrite Hl.
  erewrite bind_ok by apply print_run.
  match goal with
  | |- context [add_stdout (Line (lca_id ++ " is the lca id")%string) ?r] =>
      set (w0 := add_stdout (Line (lca_id ++ " is the lca id")%string) r)
  end.
  assert (S0 : same_stores w1 w0) by (repeat split).
  destruct (fetch_version_hash_run lca_id w0) as (w2 & H2 & S2).
  assert (S2' : same_stores w w2)
    by (eapply same_stores_trans; [exact S1|];
        eapply same_stores_trans; [exact S0|exact S2]).
  rewrite (bind_ok _ _ _ H2).
  destruct (fetch_version_hash_run head_for_source_id w2) as (w3 & H3 & S3).
  rewrite (bind_ok _ _ _ H3).
  destruct (fetch_version_hash_run head_for_target_id w3) as (w4 & H4 & S4).
  rewrite (bind_ok _ _ _ H4).
  assert (S3' : same_stores w w3) by (eapply same_stores_trans; eauto).
  assert (S4' : same_stores w w4) by (eapply same_stores_trans; eauto).
  exists w4. split; [exact S4'|].
  cbn [fst snd].
  replace (s3 w0) with (s3 w)
    by (symmetry; apply (same_stores_trans S1 S0)).
  replace (s3 w2) with (s3 w) by (symmetry; apply S2').
  replace (s3 w3) with (s3 w) by (symmetry; apply S3').
  reflexivity.
Qed.
End MergeRun.

(** ** Conflicts (C3) *)

(** C3. When the directory digests of the source head and of the target
    head both differ from the digest of the common ancestor,
    [merge_branches] raises the ValueError for conflicting versions, and
    nothing but the output has changed: the graph (so every HEAD), the
    persisted pointer, the directory, the bucket and the active branch are
    the ones before the call; no checkout and no merge commit happened. *)
Theorem merge_conflict_leaves_state :
  forall (set_order : list string -> list string)
         (source_branch target_branch user_id message directory_delete
          timestamp : string) (w : world)
         (head_for_source_id head_for_target_id lca_id : string),
    single (head_rows source_branch (db w)) = Some head_for_source_id ->
    single (head_rows target_branch (db w)) = Some head_for_target_id ->
    find_lca set_order (db w) head_for_source_id head_for_target_id
    = Some lca_id ->
    dir_digest head_for_source_id (s3 w) <> dir_digest lca_id (s3 w) ->
    dir_digest head_for_target_id (s3 w) <> dir_digest lca_id (s3 w) ->
    let r := merge_branches set_order source_branch target_branch user_id
                            message directory_delete timestamp w in
    fst r = Raise (ValueError conflict_message)
    /\ db (snd r) = db w
    /\ config (snd r) = config w
    /\ workdir (snd r) = workdir w
    /\ s3 (snd r) = s3 w
    /\ current_branch (snd r) = current_branch w.
Proof.
  intros so src tgt user msg dir ts w hs ht lca Hs Ht Hl Ds Dt r. subst r.
  destruct (merge_branches_prefix so src tgt user msg dir ts w Hs Ht Hl)
    as (w1 & S1 & ->).
  unfold merge_decision.
  assert (E1 : String.eqb (dir_digest lca (s3 w)) (dir_digest ht (s3 w)) = false)
    by (apply String.eqb_neq; congruence).
  assert (E2 : String.eqb (dir_digest lca (s3 w)) (dir_digest hs (s3 w)) = false)
    by (apply String.eqb_neq; congruence).
  rewrite E1, E2. cbn [andb negb]. unfold bind, raise. cbn [fst snd].
  destruct S1 as (? & ? & ? & ? & ?). repeat split; assumption.
Qed.

Example c3_conflict_history_ok :
  fst ((create_branch "master" "root_commit" ;;
        write_latest_commit "root_commit" ;;
        create_commit "c1" "first" "alice" [("x", "1")] "master" "t1" ;;
        create_branch_from_commit "feature" "c1" ;;
        create_commit "c2" "second" "alice" [("x", "1"); ("y", "2")]
                      "feature" "t2" ;;
        switch_branch "master") empty_world) = Ok tt.
Proof. vm_compute. reflexivity. Qed.

(** Master holds [c1] with one file; feature holds [c2], a child of [c1]
    with a second file; the only common ancestor is the empty root. *)
Definition c3_world : world :=
  snd ((create_branch "master" "root_commit" ;;
        write_latest_commit "root_commit" ;;
        create_commit "c1" "first" "alice" [("x", "1")] "master" "t1" ;;
        create_branch_from_commit "feature" "c1" ;;
        create_commit "c2" "second" "alice" [("x", "1"); ("y", "2")]
                      "feature" "t2" ;;
        switch_branch "master") empty_world).

Lemma merge_conflict_leaves_state_witness :
  let r := merge_branches (fun l => l) "feature" "master" "alice" "m" "dir"
                          "t3" c3_world in
  fst r = Raise (ValueError conflict_message)
  /\ db (snd r) = db c3_world
  /\ config (snd r) = config c3_world
  /\ workdir (snd r) = workdir c3_world
  /\ s3 (snd r) = s3 c3_world
  /\ current_branch (snd r) = current_branch c3_world.
Proof.
  apply (@merge_conflict_leaves_state (fun l => l) "feature" "master" "alice"
           "m" "dir" "t3" c3_world "c2" "c1" "root_commit").
  - vm_compute. reflexivity.
  - vm_compute. reflexivity.
  - vm_compute. reflexivity.
  - vm_compute. discriminate.
  - vm_compute. discriminate.
Defined.

(** ** Graph facts for the successful merges *)

Lemma node_ids_inj (l : list node) (a b : node) :
  NoDup (map node_id l) -> In a l -> In b l -> node_id a = node_id b -> a = b.
Proof.
  induction l as [|x l IH]; simpl; [tauto|].
  intros HN Ha Hb E. inversion HN as [|? ? Hx HN']; subst.
  destruct Ha as [Ha|Ha], Hb as [Hb|Hb]; subst; auto.
  - elim Hx. rewrite E. now apply in_map.
  - elim Hx. rewrite <- E. now apply in_map.
Qed.

Lemma node_by_id_In (g : graph) (i : nat) (n : node) :
  node_by_id g i = Some n -> In n (nodes g) /\ node_id n = i.
Proof.
  unfold node_by_id. intros H. apply find_some in H.
  destruct H as [H E]. apply Nat.eqb_eq in E. auto.
Qed.

Lemma node_by_id_unique (g : graph) (n : node) :
  NoDup (map node_id (nodes g)) -> In n (nodes g) ->
  node_by_id g (node_id n) = Some n.
Proof.
  intros HN Hin. unfold node_by_id.
  destruct (find (fun m => Nat.eqb (node_id m) (node_id n)) (nodes g))
    as [m|] eqn:E.
  - apply find_some in E. destruct E as [Hm E]. apply Nat.eqb_eq in E.
    f_equal. eapply node_ids_inj; eauto.
  - apply (find_none _ _ E) in Hin. now rewrite Nat.eqb_refl in Hin.
Qed.

Lemma head_rows_In (branch x : string) (g : graph) :
  In x (head_rows branch g) <->
  exists h r c,
    In h (match_nodes HEAD branch g)
    /\ In r (out_rels POINTS_TO (node_id h) g)
    /\ node_by_id g (rel_end r) = Some c
    /\ node_label c = Commit /\ node_key c = x.
Proof.
  unfold head_rows. rewrite in_flat_map. split.
  - intros (h & Hh & Hx). apply in_flat_map in Hx.
    destruct Hx as (r & Hr & Hx).
    destruct (node_by_id g (rel_end r)) as [c|] eqn:E; [|destruct Hx].
    destruct (label_eqb (node_label c) Commit) eqn:L; [|destruct Hx].
    destruct Hx as [Hx|[]]. exists h, r, c. repeat split; auto.
    destruct (node_label c); try discriminate; auto.
  - intros (h & r & c & Hh & Hr & Hc & Hl & Hk).
    exists h. split; auto. apply in_flat_map. exists r. split; auto.
    rewrite Hc, Hl. simpl. auto.
Qed.

Lemma single_all (x : string) (l : list string) :
  In x l -> (forall y, In y l -> y = x) -> single l = Some x.
Proof.
  destruct l as [|y l]; simpl; [tauto|].
  intros _ H. f_equal. apply H. now left.
Qed.

Lemma in_product (A B : Type) (xs : list A) (ys : list B) (x : A) (y : B) :
  In (x, y) (product xs ys) <-> In x xs /\ In y ys.
Proof.
  unfold product. rewrite in_flat_map. split.
  - intros (a & Ha & H). apply in_map_iff in H.
    destruct H as (b & E & Hb). inversion E; subst. auto.
  - intros [Hx Hy]. exists x. split; auto. apply in_map_iff. eauto.
Qed.

Lemma new_rels_In (t : reltype) (n0 : nat) (rows : list (node * node))
      (a b : node) :
  In (a, b) rows ->
  exists r, In r (new_rels t n0 rows)
            /\ rel_type r = t /\ rel_start r = node_id a
            /\ rel_end r = node_id b.
Proof.
  revert n0. induction rows as [|ab rows IH]; intros n0; simpl; [tauto|].
  intros [->|H].
  - eexists. split; [left; reflexivity|]. simpl. auto.
  - destruct (IH (S n0) H) as (r & Hr & ?). exists r. split; auto.
Qed.

Lemma reltype_eqb_refl (t : reltype) : reltype_eqb t t = true.
Proof. now destruct t. Qed.

Lemma out_rels_In (t : reltype) (i : nat) (g : graph) (r : rel) :
  In r (out_rels t i g) <->
  In r (rels g) /\ rel_type r = t /\ rel_start r = i.
Proof.
  unfold out_rels. rewrite filter_In, andb_true_iff, Nat.eqb_eq.
  split; intros (H1 & H2 & H3); repeat split; auto.
  - destruct (rel_type r), t; simpl in H2; try discriminate; auto.
  - subst. apply reltype_eqb_refl.
Qed.

Lemma match_nodes_In (l : label) (k : string) (g : graph) (n : node) :
  In n (match_nodes l k g) <->
  In n (nodes g) /\ node_label n = l /\ node_key n = k.
Proof.
  unfold match_nodes, is_node.
  rewrite filter_In, andb_true_iff, String.eqb_eq.
  split; intros (H1 & H2 & H3); repeat split; auto.
  - destruct (node_label n), l; simpl in H2; try discriminate; auto.
  - subst. now destruct (node_label n).
Qed.

(** After [update_head], when the HEAD of the branch had a POINTS_TO
    relationship and a Commit with the id exists, the HEAD resolves to that
    id, and to nothing else. *)
Lemma q_update_head_resolves (branch commit_id : string) (g : graph) :
  NoDup (map node_id (nodes g)) ->
  (exists h r, In h (match_nodes HEAD branch g)
               /\ In r (out_rels POINTS_TO (node_id h) g)) ->
  (exists c, In c (match_nodes Commit commit_id g)) ->
  single (head_rows branch (q_update_head branch commit_id g))
  = Some commit_id.
Proof.
  intros HN (h0 & r0 & Hh0 & Hr0) (c0 & Hc0).
  unfold q_update_head.
  set (rows := flat_map
                 (fun h => map (fun r => (h, r))
                               (out_rels POINTS_TO (node_id h) g))
                 (match_nodes HEAD branch g)).
  set (g1 := delete_rels (map (fun hr => rel_id (snd hr)) rows) g).
  rewrite create_rels_eq.
  set (new := new_rels POINTS_TO (next_id g1)
                (product (map fst rows) (match_nodes Commit commit_id g1))).
  set (g2 := mkGraph (nodes g1) (rels g1 ++ new) _).
  assert (Hrow0 : In (h0, r0) rows).
  { unfold rows. apply in_flat_map. exists h0. split; auto.
    apply in_map_iff. eauto. }
  assert (Hold : forall h r, In h (match_nodes HEAD branch g) ->
                   In r (rels g1) -> rel_type r = POINTS_TO ->
                   rel_start r = node_id h -> False).
  { intros h r Hh Hr Ht Hs. unfold g1, delete_rels in Hr. simpl in Hr.
    apply filter_In in Hr. destruct Hr as [Hr Hm].
    assert (Hin : In (rel_id r) (map (fun hr => rel_id (snd hr)) rows)).
    { apply in_map_iff. exists (h, r). split; auto.
      unfold rows. apply in_flat_map. exists h. split; auto.
      apply in_map_iff. exists r. split; auto.
      apply out_rels_In. auto. }
    apply mem_In in Hin. now rewrite Hin in Hm. }
  apply single_all.
  - apply head_rows_In. 
    destruct (@new_rels_In POINTS_TO (next_id g1)
                (product (map fst rows) (match_nodes Commit commit_id g1))
                h0 c0) as (r & Hr & Ht & Hs & He).
    { apply in_product. split.
      - apply in_map_iff. exists (h0, r0). auto.
      - exact Hc0. }
    exists h0, r, c0. repeat split.
    + exact Hh0.
    + apply out_rels_In. repeat split; auto.
      simpl. apply in_or_app. now right.
    + rewrite He. apply (@node_by_id_unique g2); auto.
      apply match_nodes_In in Hc0. tauto.
    + apply match_nodes_In in Hc0. tauto.
    + apply match_nodes_In in Hc0. tauto.
  - intros y Hy. apply head_rows_In in Hy.
    destruct Hy as (h & r & c & Hh & Hr & Hc & Hl & Hk).
    apply out_rels_In in Hr. destruct Hr as (Hr & Ht & Hs). simpl in Hr.
    apply in_app_or in Hr. destruct Hr as [Hr|Hr].
    + elim (Hold h r Hh Hr Ht Hs).
    + pose proof (new_rels_ends POINTS_TO (next_id g1)
                    (product (map fst rows) (match_nodes Commit commit_id g1)))
        as HE.
      rewrite Forall_forall in HE. specialize (HE r Hr).
      apply in_map_iff in HE. destruct HE as ((a, b) & E & Hab).
      simpl in E. inversion E as [[E1 E2]].
      apply in_product in Hab. destruct Hab as [_ Hb].
      apply match_nodes_In in Hb. destruct Hb as (Hb & Hbl & Hbk).
      rewrite <- E2 in Hc.
      rewrite (@node_by_id_unique g2 b) in Hc; auto.
      inversion Hc; subst. reflexivity.
Qed.

Section MergeCommitGraph.
Variables mid msg ts source_id target_id user_id : string.
Variable g : graph.

Let g1 : graph := q_merge_commit mid msg ts source_id target_id user_id g.

Lemma q_merge_commit_nodes :
  nodes g1 = nodes g
  \/ nodes g1 = nodes g ++ [mkNode (next_id g) Commit mid (Some msg) (Some ts)].
Proof.
  unfold g1. rewrite q_merge_commit_eq. cbn [nodes]. unfold merged_commit.
  destruct (filter (is_full_commit mid msg ts) (nodes g)); simpl; auto.
Qed.

Lemma q_merge_commit_rels : exists new, rels g1 = rels g ++ new.
Proof.
  unfold g1. rewrite q_merge_commit_eq. cbn [rels].
  rewrite merged_commit_rels. eexists. reflexivity.
Qed.

Lemma q_merge_commit_nodup :
  wf_graph g = true -> NoDup (map node_id (nodes g1)).
Proof.
  intros Hwf. pose proof (wf_graph_distinct _ Hwf) as HN.
  destruct q_merge_commit_nodes as [->| ->]; auto.
  rewrite map_app. simpl.
  apply NoDup_app; auto.
  - repeat constructor. simpl. tauto.
  - intros i Hi [Hj|[]]. subst i. apply in_map_iff in Hi.
    destruct Hi as (n & E & Hn).
    pose proof (wf_graph_nodes _ Hwf) as HB. rewrite Forall_forall in HB.
    specialize (HB n Hn). lia.
Qed.

Lemma q_merge_commit_match (l : label) (k : string) :
  l <> Commit -> match_nodes l k g1 = match_nodes l k g.
Proof.
  intros Hl. unfold match_nodes.
  destruct q_merge_commit_nodes as [->| ->]; auto.
  rewrite filter_app. simpl. unfold is_node at 2. simpl.
  destruct l; try (now elim Hl); simpl; now rewrite app_nil_r.
Qed.

Lemma q_merge_commit_has_commit :
  exists c, In c (match_nodes Commit mid g1)
            /\ is_full_commit mid msg ts c = true.
Proof.
  destruct (merged_commit_nodes mid msg ts g) as (c & Hc & Hf).
  exists c. split; auto.
  apply match_nodes_In. split.
  - unfold g1. rewrite q_merge_commit_eq. exact Hc.
  - apply is_full_commit_fields in Hf. tauto.
Qed.

Lemma q_merge_commit_keeps_nodes (n : node) :
  In n (nodes g) -> In n (nodes g1).
Proof.
  destruct q_merge_commit_nodes as [->| ->]; auto.
  intros H. apply in_or_app. now left.
Qed.

Lemma q_merge_commit_keeps_out_rels (t : reltype) (i : nat) (r : rel) :
  In r (out_rels t i g) -> In r (out_rels t i g1).
Proof.
  rewrite !out_rels_In. intros (H & ?). split; auto.
  destruct q_merge_commit_rels as (new & ->). apply in_or_app. now left.
Qed.

Lemma q_merge_commit_keeps_lookup (i : nat) (n : node) :
  node_by_id g i = Some n -> node_by_id g1 i = Some n.
Proof.
  unfold node_by_id.
  destruct q_merge_commit_nodes as [->| ->]; auto.
  intros H.
  assert (K : forall (f : node -> bool) (l l' : list node),
             find f l = Some n -> find f (l ++ l') = Some n).
  { induction l as [|x l IH]; simpl; intros l' E; [discriminate|].
    destruct (f x); auto. }
  now apply K.
Qed.
End MergeCommitGraph.

(** Dropping nodes keeps the identities pairwise different. *)
Lemma filter_keeps_ids (keep : node -> bool) (ns : list node) :
  NoDup (map node_id ns) -> NoDup (map node_id (filter keep ns)).
Proof.
  intros HN. induction ns as [|x ns IH]; simpl in *; [constructor|].
  apply NoDup_cons_iff in HN. destruct HN as [Hx HN].
  destruct (keep x); simpl; [|now apply IH].
  apply NoDup_cons; [|now apply IH].
  intros Hin. apply Hx. apply in_map_iff in Hin.
  destruct Hin as (y & E & Hy). apply filter_In in Hy.
  apply in_map_iff. exists y. tauto.
Qed.

Lemma nonempty_In (A : Type) (l : list A) : l <> [] -> exists x, In x l.
Proof.
  destruct l as [|x l]; [now intros H; elim H|].
  intros _. exists x. now left.
Qed.

Section Terminated.
Variable branch_name : string.
Variable g : graph.
Hypothesis ids : NoDup (map node_id (nodes g)).

Let deleted : list nat :=
  flat_map (fun bh : node * node => [node_id (fst bh); node_id (snd bh)])
           (product (match_nodes Branch branch_name g)
                    (match_nodes HEAD branch_name g)).

Lemma deleted_In (i : nat) :
  In i deleted ->
  exists n, In n (nodes g) /\ node_id n = i /\ node_key n = branch_name
            /\ (node_label n = Branch \/ node_label n = HEAD).
Proof.
  unfold deleted. rewrite in_flat_map.
  intros ((b, h) & Hbh & Hi). apply in_product in Hbh.
  destruct Hbh as [Hb Hh]. apply match_nodes_In in Hb, Hh.
  simpl in Hi. destruct Hi as [<-|[<-|[]]].
  - exists b. tauto.
  - exists h. tauto.
Qed.

Lemma terminated_nodes (n : node) :
  In n (nodes (terminated branch_name g)) -> In n (nodes g).
Proof.
  unfold terminated. destruct (single (branch_rows branch_name g)); auto.
  unfold q_terminate, detach_delete. simpl. intros H.
  apply filter_In in H. tauto.
Qed.

Lemma terminated_nodup : NoDup (map node_id (nodes (terminated branch_name g))).
Proof.
  unfold terminated. destruct (single (branch_rows branch_name g)); auto.
  unfold q_terminate, detach_delete. simpl. now apply filter_keeps_ids.
Qed.

(** A node that is neither the Branch nor the HEAD of the name stays. *)
Lemma terminated_keeps_node (n : node) :
  In n (nodes g) ->
  (node_key n = branch_name ->
   node_label n <> Branch /\ node_label n <> HEAD) ->
  In n (nodes (terminated branch_name g)).
Proof.
  intros Hn Hl. unfold terminated.
  destruct (single (branch_rows branch_name g)); auto.
  unfold q_terminate, detach_delete. simpl. apply filter_In. split; auto.
  fold deleted. destruct (mem (node_id n) deleted) eqn:E; auto.
  apply mem_In in E. apply deleted_In in E.
  destruct E as (m & Hm & Ei & Ek & El).
  assert (m = n) by (eapply node_ids_inj; eauto). subst m.
  destruct (Hl Ek) as [H1 H2]. destruct El; contradiction.
Qed.

(** A relationship between two nodes that stay stays. *)
Lemma terminated_keeps_rel (r : rel) (a b : node) :
  In r (rels g) ->
  In a (nodes g) -> node_id a = rel_start r ->
  (node_key a = branch_name ->
   node_label a <> Branch /\ node_label a <> HEAD) ->
  In b (nodes g) -> node_id b = rel_end r ->
  (node_key b = branch_name ->
   node_label b <> Branch /\ node_label b <> HEAD) ->
  In r (rels (terminated branch_name g)).
Proof.
  intros Hr Ha Ea La Hb Eb Lb. unfold terminated.
  destruct (single (branch_rows branch_name g)); auto.
  unfold q_terminate, detach_delete. simpl. apply filter_In. split; auto.
  fold deleted. apply andb_true_iff. split.
  - destruct (mem (rel_start r) deleted) eqn:E; auto.
    apply mem_In in E. apply deleted_In in E.
    destruct E as (m & Hm & Ei & Ek & El).
    assert (m = a) by (eapply node_ids_inj; eauto; congruence). subst m.
    destruct (La Ek). destruct El; contradiction.
  - destruct (mem (rel_end r) deleted) eqn:E; auto.
    apply mem_In in E. apply deleted_In in E.
    destruct E as (m & Hm & Ei & Ek & El).
    assert (m = b) by (eapply node_ids_inj; eauto; congruence). subst m.
    destruct (Lb Ek). destruct El; contradiction.
Qed.

(** When the name has a HEAD node, no Branch node of the name is left; when
    it also had a Branch node, no HEAD node of the name is left. *)
Lemma terminated_no_branch :
  match_nodes HEAD branch_name g <> [] ->
  branch_rows branch_name (terminated branch_name g) = [].
Proof.
  intros Hh. destruct (nonempty_In Hh) as (h0 & Hh0).
  unfold terminated.
  destruct (single (branch_rows branch_name g)) as [b1|] eqn:Es.
  - unfold branch_rows, match_nodes at 1, q_terminate, detach_delete. simpl.
    apply filter_nil. apply Forall_forall. intros n Hn.
    apply filter_In in Hn. destruct Hn as [Hn Hm].
    destruct (is_node Branch branch_name n) eqn:E; auto.
    assert (Hin : In n (match_nodes Branch branch_name g))
      by (apply filter_In; auto).
    assert (Hd : In (node_id n) deleted).
    { unfold deleted. apply in_flat_map. exists (n, h0). split.
      - apply in_product. split; auto.
      - simpl. auto. }
    apply mem_In in Hd. unfold deleted in Hd. now rewrite Hd in Hm.
  - unfold single in Es.
    destruct (branch_rows branch_name g); [reflexivity|discriminate].
Qed.

Lemma terminated_no_head :
  branch_rows branch_name g <> [] ->
  match_nodes HEAD branch_name (terminated branch_name g) = [].
Proof.
  intros Hb. destruct (nonempty_In Hb) as (b0 & Hb0).
  unfold terminated.
  destruct (single (branch_rows branch_name g)) as [b1|] eqn:Es.
  - unfold match_nodes at 1. unfold q_terminate, detach_delete. simpl.
    apply filter_nil. apply Forall_forall. intros n Hn.
    apply filter_In in Hn. destruct Hn as [Hn Hm].
    destruct (is_node HEAD branch_name n) eqn:E; auto.
    assert (Hin : In n (match_nodes HEAD branch_name g))
      by (apply filter_In; auto).
    assert (Hd : In (node_id n) deleted).
    { unfold deleted. apply in_flat_map. exists (b0, n). split.
      - apply in_product. split; auto.
      - simpl. auto. }
    apply mem_In in Hd. unfold deleted in Hd. now rewrite Hd in Hm.
  - unfold single in Es.
    destruct (branch_rows branch_name g); [now elim Hb|discriminate].
Qed.
End Terminated.

Lemma q_update_head_nodes (branch commit_id : string) (g : graph) :
  nodes (q_update_head branch commit_id g) = nodes g.
Proof. unfold q_update_head. rewrite create_rels_eq. reflexivity. Qed.

Lemma q_update_head_match (l : label) (k branch commit_id : string)
      (g : graph) :
  match_nodes l k (q_update_head branch commit_id g) = match_nodes l k g.
Proof. unfold match_nodes. now rewrite q_update_head_nodes. Qed.

Lemma single_In (A : Type) (l : list A) (x : A) :
  single l = Some x -> In x l.
Proof. destruct l; simpl; intros H; inversion H. now left. Qed.

(** ** The successful merges (C1) *)

Section MergeSuccess.
Variable set_order : list string -> list string.
Variables source_branch target_branch user_id message directory_delete
          timestamp : string.
Variable w : world.
Variables head_for_source_id head_for_target_id lca_id : string.
Variable prefix : string.
Variable n : nat.

Hypothesis wf : wf_graph (db w) = true.
Hypothesis source_head :
  single (head_rows source_branch (db w)) = Some head_for_source_id.
Hypothesis target_head :
  single (head_rows target_branch (db w)) = Some head_for_target_id.
Hypothesis lca :
  find_lca set_order (db w) head_for_source_id head_for_target_id
  = Some lca_id.
Hypothesis digit : n <= 9.
Hypothesis pointer :
  config w = Some (prefix ++ String (ascii_of_nat (48 + n)) "")%string.

Let Da : string := dir_digest lca_id (s3 w).
Let Ds : string := dir_digest head_for_source_id (s3 w).
Let Dt : string := dir_digest head_for_target_id (s3 w).
Let mid : string := (prefix ++ str_of_nat (n + 1))%string.
Let g1 : graph :=
  q_merge_commit mid message timestamp head_for_source_id head_for_target_id
                 user_id (db w).
Let r : result unit * world :=
  merge_branches set_order source_branch target_branch user_id message
                 directory_delete timestamp w.

Lemma merge_commit_step (w0 : world) :
  config w0 = config w -> db w0 = db w ->
  merge_commit head_for_source_id head_for_target_id user_id message
               timestamp w0
  = (Ok mid,
     set_config (Some mid)
       (set_db g1 (add_stdout (Line "entered merge commit function") w0))).
Proof.
  intros Hc Hd. rewrite pointer in Hc.
  rewrite (merge_commit_run head_for_source_id head_for_target_id user_id
             message timestamp w0 Hc (last_char_app prefix _)
             (digit_value_digit digit)).
  rewrite but_last_app, Hd. reflexivity.
Qed.

(** Only the source changed. *)
Lemma merge_run_source_changed :
  Dt = Da -> Ds <> Da ->
  fst (checkout head_for_source_id (s3 w) (workdir w)) = Ok tt ->
  fst r = Ok tt
  /\ db (snd r) = q_update_head target_branch mid (terminated source_branch g1)
  /\ config (snd r) = Some mid
  /\ workdir (snd r) = snd (checkout head_for_source_id (s3 w) (workdir w))
  /\ s3 (snd r) = s3 w.
Proof.
  intros Et Es Hco. unfold r.
  destruct (merge_branches_prefix set_order source_branch target_branch
              user_id message directory_delete timestamp w source_head
              target_head lca) as (w1 & S1 & ->).
  destruct S1 as (Sdb & Ss3 & Scf & Swd & Scb).
  unfold merge_decision. fold Da Ds Dt.
  rewrite Et, String.eqb_refl.
  assert (E : String.eqb Da Ds = false)
    by (apply String.eqb_neq; congruence).
  rewrite E. cbn [andb negb].
  erewrite bind_ok.
  2:{ erewrite bind_ok
        by (apply revert_to_commit_ok; rewrite Ss3, Swd; exact Hco).
      erewrite bind_ok by (apply merge_commit_step; assumption).
      erewrite bind_ok by apply terminate_branch_run.
      erewrite bind_ok by apply print_run.
      erewrite bind_ok by apply print_run.
      reflexivity. }
  unfold update_head, run, modify.
  cbn [fst snd db config workdir s3 set_db set_config set_workdir add_stdout].
  rewrite Ss3, Swd. repeat split.
Qed.

(** Only the target changed. *)
Lemma merge_run_target_changed :
  Ds = Da -> Dt <> Da ->
  fst (checkout head_for_target_id (s3 w) (workdir w)) = Ok tt ->
  fst r = Ok tt
  /\ db (snd r) = q_update_head target_branch mid g1
  /\ config (snd r) = Some mid
  /\ workdir (snd r) = snd (checkout head_for_target_id (s3 w) (workdir w))
  /\ s3 (snd r) = s3 w.
Proof.
  intros Es Et Hco. unfold r.
  destruct (merge_branches_prefix set_order source_branch target_branch
              user_id message directory_delete timestamp w source_head
              target_head lca) as (w1 & S1 & ->).
  destruct S1 as (Sdb & Ss3 & Scf & Swd & Scb).
  unfold merge_decision. fold Da Ds Dt.
  rewrite Es, String.eqb_refl.
  assert (E : String.eqb Da Dt = false)
    by (apply String.eqb_neq; congruence).
  rewrite E. cbn [andb negb].
  erewrite bind_ok.
  2:{ erewrite bind_ok
        by (apply revert_to_commit_ok; rewrite Ss3, Swd; exact Hco).
      erewrite bind_ok by (apply merge_commit_step; assumption).
      erewrite bind_ok by apply print_run.
      erewrite bind_ok by apply print_run.
      reflexivity. }
  unfold update_head, run, modify.
  cbn [fst snd db config workdir s3 set_db set_config set_workdir add_stdout].
  rewrite Ss3, Swd. repeat split.
Qed.

(** Nothing changed. *)
Lemma merge_run_unchanged :
  Ds = Da -> Dt = Da ->
  fst r = Ok tt
  /\ db (snd r) = q_update_head target_branch mid g1
  /\ config (snd r) = Some mid
  /\ workdir (snd r) = workdir w
  /\ s3 (snd r) = s3 w.
Proof.
  intros Es Et. unfold r.
  destruct (merge_branches_prefix set_order source_branch target_branch
              user_id message directory_delete timestamp w source_head
              target_head lca) as (w1 & S1 & ->).
  destruct S1 as (Sdb & Ss3 & Scf & Swd & Scb).
  unfold merge_decision. fold Da Ds Dt.
  rewrite Es, Et, String.eqb_refl. cbn [andb negb].
  erewrite bind_ok.
  2:{ erewrite bind_ok by apply print_run.
      erewrite bind_ok by (apply merge_commit_step; assumption).
      erewrite bind_ok by apply print_run.
      erewrite bind_ok by apply print_run.
      reflexivity. }
  unfold update_head, run, modify.
  cbn [fst snd db config workdir s3 set_db set_config set_workdir add_stdout].
  repeat split; assumption.
Qed.
End MergeSuccess.

Section MergeOutcome.
Variables source_branch target_branch user_id message timestamp : string.
Variables head_for_source_id head_for_target_id mid : string.
Variable g : graph.

Hypothesis wf : wf_graph g = true.
Hypothesis source_head :
  single (head_rows source_branch g) = Some head_for_source_id.
Hypothesis target_head :
  single (head_rows target_branch g) = Some head_for_target_id.

Let g1 : graph :=
  q_merge_commit mid message timestamp head_for_source_id head_for_target_id
                 user_id g.

(** The HEAD of a branch that resolves keeps, in [g1], a node, a POINTS_TO
    relationship and the Commit node at its end. *)
Lemma head_kept (branch x : string) :
  single (head_rows branch g) = Some x ->
  exists h r c,
    In h (match_nodes HEAD branch g1)
    /\ In r (out_rels POINTS_TO (node_id h) g1)
    /\ In c (nodes g1) /\ node_id c = rel_end r /\ node_label c = Commit.
Proof.
  intros H. apply single_In, head_rows_In in H.
  destruct H as (h & r & c & Hh & Hr & Hc & Hl & _).
  apply node_by_id_In in Hc. destruct Hc as [Hc Hi].
  exists h, r, c. repeat split; auto.
  - unfold g1. rewrite q_merge_commit_match by discriminate. exact Hh.
  - now apply q_merge_commit_keeps_out_rels.
  - now apply q_merge_commit_keeps_nodes.
Qed.

Lemma head_nonempty (branch x : string) (g0 : graph) :
  single (head_rows branch g0) = Some x -> match_nodes HEAD branch g0 <> [].
Proof.
  intros H E. rewrite (head_rows_no_head _ _ E) in H. discriminate.
Qed.

(** Without termination: the target HEAD resolves to the merge commit and
    the nodes of the source branch are the ones before. *)
Lemma merge_outcome_retained :
  let g' := q_update_head target_branch mid g1 in
  single (head_rows target_branch g') = Some mid
  /\ (exists c, In c (nodes g')
                /\ is_full_commit mid message timestamp c = true)
  /\ branch_rows source_branch g' = branch_rows source_branch g
  /\ match_nodes HEAD source_branch g' = match_nodes HEAD source_branch g.
Proof.
  intros g'.
  destruct (head_kept _ target_head) as (h & r & c & Hh & Hr & _).
  destruct (q_merge_commit_has_commit mid message timestamp
              head_for_source_id head_for_target_id user_id g)
    as (cm & Hcm & Hfull).
  fold g1 in Hcm.
  refine (conj _ (conj _ (conj _ _))).
  - apply q_update_head_resolves; eauto.
    now apply q_merge_commit_nodup.
  - exists cm. split; auto. unfold g'. rewrite q_update_head_nodes.
    apply match_nodes_In in Hcm. tauto.
  - unfold branch_rows, g'. rewrite q_update_head_match.
    unfold g1. now rewrite q_merge_commit_match by discriminate.
  - unfold g'. rewrite q_update_head_match.
    unfold g1. now rewrite q_merge_commit_match by discriminate.
Qed.

(** With termination of a source branch other than the target. *)
Lemma merge_outcome_terminated :
  source_branch <> target_branch ->
  let g' := q_update_head target_branch mid (terminated source_branch g1) in
  single (head_rows target_branch g') = Some mid
  /\ (exists c, In c (nodes g')
                /\ is_full_commit mid message timestamp c = true)
  /\ branch_rows source_branch g' = []
  /\ (branch_rows source_branch g <> [] ->
      match_nodes HEAD source_branch g' = []).
Proof.
  intros Hne g'.
  pose proof (q_merge_commit_nodup mid message timestamp head_for_source_id
                head_for_target_id user_id g wf) as HN.
  fold g1 in HN.
  destruct (head_kept _ target_head) as (h & r & c & Hh & Hr & Hc & Hi & Hl).
  destruct (q_merge_commit_has_commit mid message timestamp
              head_for_source_id head_for_target_id user_id g)
    as (cm & Hcm & Hfull).
  fold g1 in Hcm.
  apply match_nodes_In in Hh. destruct Hh as (Hh & Hhl & Hhk).
  apply match_nodes_In in Hcm. destruct Hcm as (Hcm & Hcl & Hck).
  apply out_rels_In in Hr. destruct Hr as (Hr & Hrt & Hrs).
  assert (Kh : In h (nodes (terminated source_branch g1))).
  { apply terminated_keeps_node; auto. intros E. congruence. }
  assert (Kc : In cm (nodes (terminated source_branch g1))).
  { apply terminated_keeps_node; auto. intros _. rewrite Hcl.
    split; discriminate. }
  assert (Kr : In r (rels (terminated source_branch g1))).
  { apply (@terminated_keeps_rel source_branch g1 HN r h c); auto.
    - intros E. congruence.
    - intros _. rewrite Hl. split; discriminate. }
  refine (conj _ (conj _ (conj _ _))).
  - apply q_update_head_resolves.
    + now apply terminated_nodup.
    + exists h, r. split.
      * apply match_nodes_In. auto.
      * apply out_rels_In. auto.
    + exists cm. apply match_nodes_In. auto.
  - exists cm. split; auto. unfold g'. now rewrite q_update_head_nodes.
  - unfold branch_rows at 1. unfold g'. rewrite q_update_head_match.
    apply (@terminated_no_branch source_branch g1).
    unfold g1. rewrite q_merge_commit_match by discriminate.
    eapply head_nonempty; eauto.
  - intros Hb. unfold g'. rewrite q_update_head_match.
    apply (@terminated_no_head source_branch g1).
    unfold branch_rows, g1. rewrite q_merge_commit_match by discriminate.
    exact Hb.
Qed.
End MergeOutcome.

(** The same branch name resolves to the same head, so a source head and a
    target head with different digests belong to different branches. *)
Lemma different_digests_different_branches
      (source_branch target_branch hs ht : string) (b : bucket) (g : graph) :
  single (head_rows source_branch g) = Some hs ->
  single (head_rows target_branch g) = Some ht ->
  dir_digest hs b <> dir_digest ht b -> source_branch <> target_branch.
Proof. intros Hs Ht Hd E. subst. rewrite Hs in Ht. congruence. Qed.


(** A history with commit ids that end in a digit: master holds [c1] (an
    empty directory, as the root), feature holds [c5] with one file. *)
Definition c1_history (first second : string) : M unit :=
  create_branch "master" "root_commit" ;;
  write_latest_commit "root_commit" ;;
  create_commit first "first" "alice" [] "master" "t1" ;;
  create_branch_from_commit "feature" first ;;
  create_commit second "second" "alice" [("x", "1")] "feature" "t2" ;;
  switch_branch "master".

Definition c1_world : world := snd (c1_history "c1" "c5" empty_world).


(** The same history with the commit ids [a] and [b]. *)
Definition c1_letters_world : world := snd (c1_history "a" "b" empty_world).


(* ================================================================== *)
(** * More of the program *)

(** ** The errors of [merge_commit] *)

(** When [merge_commit] raises, only the output has changed; it raises
    TypeError without a pointer, IndexError on an empty pointer, and
    ValueError on a pointer whose last character is an ASCII character other
    than a decimal digit, the message quoting the character as [repr]
    does. *)
Theorem merge_commit_errors :
  forall (commit1 commit2 user_id message timestamp : string) (w : world),
    let r := merge_commit commit1 commit2 user_id message timestamp w in
    (config w = None -> fst r = Raise TypeError)
    /\ (config w = Some "" -> fst r = Raise IndexError)
    /\ (forall last ch,
          config w = Some last -> last_char last = Some ch ->
          nat_of_ascii ch < 128 ->
          digit_value ch = None ->
          fst r = Raise (ValueError
                           ("invalid literal for int() with base 10: "
                              ++ repr_char ch)%string))
    /\ (forall e, fst r = Raise e -> same_stores w (snd r)).
Proof.
  intros c1 c2 user msg ts w r. subst r.
  unfold merge_commit, bind, read_latest_commit, gets. rewrite print_run.
  cbn [config add_stdout].
  refine (conj _ (conj _ (conj _ _))).
  - intros ->. reflexivity.
  - intros ->. reflexivity.
  - intros last ch -> -> _ ->. reflexivity.
  - intros e.
    destruct (config w) as [last|]; [|intros _; repeat split].
    destruct (last_char last) as [ch|]; [|intros _; repeat split].
    destruct (digit_value ch); [|intros _; repeat split].
    cbn. discriminate.
Qed.

Lemma merge_commit_errors_witness :
  fst (merge_commit "c2" "c1" "alice" "m" "t3"
                    (set_config (Some "root_commit") c4_world))
  = Raise (ValueError "invalid literal for int() with base 10: 't'").
Proof.
  apply (proj1 (proj2 (proj2
           (merge_commit_errors "c2" "c1" "alice" "m" "t3"
              (set_config (Some "root_commit") c4_world))))
           "root_commit" "t"%char); try reflexivity.
  vm_compute. lia.
Defined.

(** ** The errors of [merge_branches] *)

Section MergeErrors.
Variable set_order : list string -> list string.
Variables source_branch target_branch user_id message directory_delete
          timestamp : string.
Variable w : world.

Let r : result unit * world :=
  merge_branches set_order source_branch target_branch user_id message
                 directory_delete timestamp w.

Lemma merge_no_source_head :
  single (head_rows source_branch (db w)) = None ->
  fst r = Raise (ValueError ("No HEAD found for target branch '"
                               ++ target_branch ++ "'")%string)
  /\ same_stores w (snd r).
Proof.
  intros H. unfold r, merge_branches.
  destruct (get_client_run w) as (w1 & H1 & S1).
  assert (Edb : db w1 = db w) by apply S1.
  rewrite (bind_ok _ _ _ H1).
  erewrite bind_ok by reflexivity. cbv beta. rewrite Edb, H.
  split; [reflexivity|exact S1].
Qed.

Lemma merge_no_target_head (head_for_source_id : string) :
  single (head_rows source_branch (db w)) = Some head_for_source_id ->
  single (head_rows target_branch (db w)) = None ->
  fst r = Raise (ValueError ("No HEAD found for target branch '"
                               ++ target_branch ++ "'")%string)
  /\ same_stores w (snd r).
Proof.
  intros Hs H. unfold r, merge_branches.
  destruct (get_client_run w) as (w1 & H1 & S1).
  assert (Edb : db w1 = db w) by apply S1.
  rewrite (bind_ok _ _ _ H1).
  erewrite bind_ok by reflexivity. cbv beta. rewrite Edb, Hs.
  erewrite bind_ok by reflexivity. cbv beta. rewrite Edb, H.
  split; [reflexivity|exact S1].
Qed.

Lemma merge_no_common_ancestor (head_for_source_id head_for_target_id : string) :
  single (head_rows source_branch (db w)) = Some head_for_source_id ->
  single (head_rows target_branch (db w)) = Some head_for_target_id ->
  find_lca set_order (db w) head_for_source_id head_for_target_id = None ->
  fst r = Raise (Exception_ "No common ancestor found between the two branches.")
  /\ same_stores w (snd r).
Proof.
  intros Hs Ht Hl. unfold r, merge_branches.
  destruct (get_client_run w) as (w1 & H1 & S1).
  assert (Edb : db w1 = db w) by apply S1.
  rewrite (bind_ok _ _ _ H1).
  erewrite bind_ok by reflexivity. cbv beta. rewrite Edb, Hs.
  erewrite bind_ok by reflexivity. cbv beta. rewrite Edb, Ht.
  do 3 (erewrite bind_ok by apply print_run).
  do 2 (erewrite bind_ok by reflexivity).
  cbv beta zeta. cbn [db add_stdout]. rewrite Edb.
  erewrite bind_ok by apply print_run.
  do 2 (erewrite bind_ok by reflexivity).
  unfold find_lca in Hl.
  destruct (common_ancestors set_order
              (record_distances (ancestor_rows head_for_source_id (db w)))
              (record_distances (ancestor_rows head_for_target_id (db w))))
    as [|c cs]; [|discriminate].
  split; [reflexivity|].
  eapply same_stores_trans; [exact S1|]. repeat split.
Qed.
End MergeErrors.

(** A merge whose source or target HEAD does not resolve raises a
    ValueError whose message names the target branch in both cases; a merge
    of two heads without common ancestor raises a plain Exception.  In all
    three cases only the output has changed. *)
Theorem merge_branches_lookup_errors :
  forall (set_order : list string -> list string)
         (source_branch target_branch user_id message directory_delete
          timestamp : string) (w : world),
    let r := merge_branches set_order source_branch target_branch user_id
                            message directory_delete timestamp w in
    let no_head :=
      Raise (ValueError ("No HEAD found for target branch '"
                           ++ target_branch ++ "'")%string) in
    (single (head_rows source_branch (db w)) = None ->
     fst r = no_head /\ same_stores w (snd r))
    /\ (single (head_rows source_branch (db w)) <> None ->
        single (head_rows target_branch (db w)) = None ->
        fst r = no_head /\ same_stores w (snd r))
    /\ (forall hs ht,
          single (head_rows source_branch (db w)) = Some hs ->
          single (head_rows target_branch (db w)) = Some ht ->
          find_lca set_order (db w) hs ht = None ->
          fst r = Raise (Exception_
                           "No common ancestor found between the two branches.")
          /\ same_stores w (snd r)).
Proof.
  intros so src tgt user msg dir ts w r no_head.
  refine (conj _ (conj _ _)).
  - apply merge_no_source_head.
  - intros Hs Ht.
    destruct (single (head_rows src (db w))) as [hs|] eqn:E; [|now elim Hs].
    now apply (merge_no_target_head so src tgt user msg dir ts w E).
  - intros hs ht. apply merge_no_common_ancestor.
Qed.

Lemma merge_branches_lookup_errors_witness :
  let r := merge_branches (fun l => l) "gone" "master" "alice" "m" "dir" "t3"
                          c4_world in
  fst r = Raise (ValueError "No HEAD found for target branch 'master'")
  /\ same_stores c4_world (snd r).
Proof.
  apply (proj1 (merge_branches_lookup_errors (fun l => l) "gone" "master"
                  "alice" "m" "dir" "t3" c4_world)).
  reflexivity.
Defined.

(** ** The ancestor mapping and the choice of the common ancestor *)

Lemma dict_get_set_same (V : Type) (k : string) (v : V)
      (d : list (string * V)) :
  dict_get k (dict_set k v d) = Some v.
Proof.
  induction d as [|(k', v') d IH]; simpl.
  - now rewrite String.eqb_refl.
  - destruct (String.eqb k k') eqn:E; simpl.
    + now rewrite String.eqb_refl.
    + now rewrite E.
Qed.

Lemma dict_get_set_other (V : Type) (k k' : string) (v : V)
      (d : list (string * V)) :
  k <> k' -> dict_get k (dict_set k' v d) = dict_get k d.
Proof.
  intros Hne. induction d as [|(k0, v0) d IH]; simpl.
  - apply String.eqb_neq in Hne. now rewrite Hne.
  - destruct (String.eqb k' k0) eqn:E; simpl.
    + apply String.eqb_eq in E. subst k0.
      apply String.eqb_neq in Hne. now rewrite Hne.
    + destruct (String.eqb k k0); auto.
Qed.

Lemma find_last (A : Type) (f : A -> bool) (l : list A) (x : A) :
  find f (l ++ [x])
  = match find f l with
    | Some y => Some y
    | None => if f x then Some x else None
    end.
Proof.
  induction l as [|y l IH]; simpl; auto.
  destruct (f y); auto.
Qed.

Lemma record_distances_from (rows : list (string * nat))
      (d : list (string * nat)) (k : string) :
  dict_get k (fold_left (fun d' row => dict_set (fst row) (snd row) d') rows d)
  = match find (fun row => String.eqb (fst row) k) (rev rows) with
    | Some row => Some (snd row)
    | None => dict_get k d
    end.
Proof.
  revert d. induction rows as [|(k', v) rows IH]; intros d; simpl; auto.
  rewrite IH, find_last. simpl.
  destruct (find (fun row => String.eqb (fst row) k) (rev rows)); auto.
  destruct (String.eqb k' k) eqn:E.
  - apply String.eqb_eq in E. subst. apply dict_get_set_same.
  - apply dict_get_set_other. apply String.eqb_neq in E. congruence.
Qed.

(** The distance recorded for an id is the one of the last row returned for
    it, whatever the rows before said; an id without a row has no entry. *)
Theorem record_distances_last_row :
  forall (rows : list (string * nat)) (k : string),
    dict_get k (record_distances rows)
    = option_map snd (find (fun row => String.eqb (fst row) k) (rev rows)).
Proof.
  intros rows k. unfold record_distances. rewrite record_distances_from.
  now destruct (find (fun row => String.eqb (fst row) k) (rev rows)).
Qed.

Lemma min_of_spec (A : Type) (key : A -> nat) (x : A) (l : list A) :
  In (min_of key x l) (x :: l)
  /\ forall y, In y (x :: l) -> key (min_of key x l) <= key y.
Proof.
  revert x. induction l as [|z l IH]; intros x; simpl.
  - split; auto. intros y [<-|[]]. lia.
  - destruct (IH (if Nat.ltb (key z) (key x) then z else x)) as [Hin Hle].
    split.
    + destruct Hin as [E|Hin]; auto.
      rewrite <- E. destruct (Nat.ltb (key z) (key x)); auto.
    + intros y Hy.
      assert (Hb : key (if Nat.ltb (key z) (key x) then z else x) <= key x
                   /\ key (if Nat.ltb (key z) (key x) then z else x) <= key z).
      { destruct (Nat.ltb (key z) (key x)) eqn:E.
        - apply Nat.ltb_lt in E. lia.
        - apply Nat.ltb_ge in E. lia. }
      destruct Hy as [<-|[<-|Hy]].
      * specialize (Hle _ (or_introl eq_refl)). lia.
      * specialize (Hle _ (or_introl eq_refl)). lia.
      * apply Hle. now right.
Qed.

Lemma in_keys_In (k : string) (ks : list string) :
  in_keys k ks = true <-> In k ks.
Proof.
  unfold in_keys. rewrite existsb_exists. split.
  - intros (x & Hx & E). apply String.eqb_eq in E. now subst.
  - intros H. exists k. split; auto. apply String.eqb_refl.
Qed.

(** Whatever the iteration order of the set, the common ancestor that
    [merge_branches] picks is an id recorded for both heads, and no id
    recorded for both has a smaller sum of recorded distances; there is
    none exactly when no id is recorded for both. *)
Theorem find_lca_least_recorded_sum :
  forall (set_order : list string -> list string) (g : graph)
         (hs ht : string),
    (forall l, Permutation (set_order l) l) ->
    let d1 := record_distances (ancestor_rows hs g) in
    let d2 := record_distances (ancestor_rows ht g) in
    (forall c, find_lca set_order g hs ht = Some c ->
       In c (dict_keys d1) /\ In c (dict_keys d2)
       /\ forall c', In c' (dict_keys d1) -> In c' (dict_keys d2) ->
            distance d1 c + distance d2 c <= distance d1 c' + distance d2 c')
    /\ (find_lca set_order g hs ht = None ->
        forall c, In c (dict_keys d1) -> ~ In c (dict_keys d2)).
Proof.
  intros so g hs ht Hperm d1 d2.
  assert (Hc : forall c, In c (common_ancestors so d1 d2)
                         <-> In c (dict_keys d1) /\ In c (dict_keys d2)).
  { intros c. unfold common_ancestors. split.
    - intros H. apply (Permutation_in _ (Hperm _)) in H.
      apply filter_In in H. now rewrite in_keys_In in H.
    - intros [H1 H2].
      apply (Permutation_in _ (Permutation_sym (Hperm _))).
      apply filter_In. now rewrite in_keys_In. }
  unfold find_lca. fold d1 d2.
  destruct (common_ancestors so d1 d2) as [|x l] eqn:E.
  - split; [discriminate|].
    intros _ c H1 H2. apply (proj2 (Hc c)). auto.
  - split; [|discriminate].
    intros c H. inversion H as [Hm]. clear H.
    destruct (min_of_spec
                (fun cid => distance d1 cid + distance d2 cid) x l)
      as [Hin Hle].
    destruct (proj1 (Hc _) Hin) as [H1 H2].
    repeat split; auto.
    intros c' H1' H2'. apply Hle. apply Hc. auto.
Qed.

Lemma find_lca_least_recorded_sum_witness :
  In "d" (dict_keys (record_distances (ancestor_rows "h1" lca_graph)))
  /\ In "d" (dict_keys (record_distances (ancestor_rows "h2" lca_graph)))
  /\ forall c',
       In c' (dict_keys (record_distances (ancestor_rows "h1" lca_graph))) ->
       In c' (dict_keys (record_distances (ancestor_rows "h2" lca_graph))) ->
       distance (record_distances (ancestor_rows "h1" lca_graph)) "d"
       + distance (record_distances (ancestor_rows "h2" lca_graph)) "d"
       <= distance (record_distances (ancestor_rows "h1" lca_graph)) c'
          + distance (record_distances (ancestor_rows "h2" lca_graph)) c'.
Proof.
  apply (proj1 (@find_lca_least_recorded_sum (fun l => l) lca_graph "h1" "h2"
                  (fun l => Permutation_refl l)) "d").
  vm_compute. reflexivity.
Defined.

Lemma ancestor_rows_no_parent (id : string) (g : graph) :
  (forall n, In n (match_nodes Commit id g) ->
             out_rels PARENT (node_id n) g = []) ->
  ancestor_rows id g = [].
Proof.
  intros H. unfold ancestor_rows.
  induction (match_nodes Commit id g) as [|n ns IH]; simpl; auto.
  rewrite IH by (intros; apply H; now right).
  assert (E : expand (List.length (rels g)) g [] (node_id n) 0 = []).
  { destruct (List.length (rels g)); simpl; auto.
    rewrite H by now left. reflexivity. }
  now rewrite E.
Qed.

(** A head commit without PARENT relationship has no ancestor row (a commit
    is not its own ancestor), so a merge from or into a branch whose head is
    a root commit always raises the no-common-ancestor Exception. *)
Theorem merge_with_root_head_raises :
  forall (set_order : list string -> list string)
         (source_branch target_branch user_id message directory_delete
          timestamp : string) (w : world) (hs ht : string),
    (forall l, Permutation (set_order l) l) ->
    single (head_rows source_branch (db w)) = Some hs ->
    single (head_rows target_branch (db w)) = Some ht ->
    (forall n, In n (match_nodes Commit hs (db w)) ->
               out_rels PARENT (node_id n) (db w) = [])
    \/ (forall n, In n (match_nodes Commit ht (db w)) ->
                  out_rels PARENT (node_id n) (db w) = []) ->
    let r := merge_branches set_order source_branch target_branch user_id
                            message directory_delete timestamp w in
    fst r = Raise (Exception_
                     "No common ancestor found between the two branches.")
    /\ same_stores w (snd r).
Proof.
  intros so src tgt user msg dir ts w hs ht Hperm Hs Ht Hroot r.
  apply (@merge_no_common_ancestor so src tgt user msg dir ts w hs ht Hs Ht).
  unfold find_lca, common_ancestors.
  assert (E : forall l, l = [] -> so l = []).
  { intros l ->. apply Permutation_nil. apply Permutation_sym, Hperm. }
  rewrite E; auto.
  destruct Hroot as [H|H]; rewrite (ancestor_rows_no_parent _ _ H); simpl;
    auto.
  apply filter_nil. apply Forall_forall. auto.
Qed.

(** Right after initialisation and one branch: master and dev both at the
    root commit. *)
Definition root_world : world :=
  snd ((create_branch "master" "root_commit" ;;
        write_latest_commit "root_commit" ;;
        create_branch "dev" "root_commit") empty_world).

Lemma merge_with_root_head_raises_witness :
  let r := merge_branches (fun l => l) "dev" "master" "alice" "m" "dir" "t"
                          root_world in
  fst r = Raise (Exception_
                   "No common ancestor found between the two branches.")
  /\ same_stores root_world (snd r).
Proof.
  apply (@merge_with_root_head_raises (fun l => l) "dev" "master" "alice" "m"
           "dir" "t" root_world "root_commit" "root_commit").
  - intros l. apply Permutation_refl.
  - reflexivity.
  - reflexivity.
  - left. intros n [<-|[]]. reflexivity.
Defined.

(** ** HEAD pointers: [update_head] and [create_branch] *)

(** What a row of the HEAD query yields for one POINTS_TO relationship. *)
Definition head_row (g : graph) (r : rel) : list string :=
  match node_by_id g (rel_end r) with
  | Some c => if label_eqb (node_label c) Commit then [node_key c] else []
  | None => []
  end.

Lemma head_rows_eq (branch : string) (g : graph) :
  head_rows branch g
  = flat_map (fun h => flat_map (head_row g) (out_rels POINTS_TO (node_id h) g))
             (match_nodes HEAD branch g).
Proof. reflexivity. Qed.

Lemma length_product (A B : Type) (xs : list A) (ys : list B) :
  List.length (product xs ys) = List.length xs * List.length ys.
Proof.
  unfold product. induction xs as [|x xs IH]; simpl; auto.
  now rewrite length_app, length_map, IH.
Qed.

(** New relationships that end at Commit nodes with the id resolve to it. *)
Lemma resolve_new_rels (g : graph) (commit_id : string) (t : reltype)
      (n0 : nat) (rows : list (node * node)) :
  NoDup (map node_id (nodes g)) ->
  Forall (fun p => In (snd p) (nodes g) /\ node_label (snd p) = Commit
                   /\ node_key (snd p) = commit_id) rows ->
  flat_map (head_row g) (new_rels t n0 rows)
  = repeat commit_id (List.length rows).
Proof.
  intros HN. revert n0.
  induction rows as [|(a, c) rows IH]; intros n0 HF; simpl; auto.
  inversion HF as [|? ? (Hc & Hl & Hk) HF']; subst. simpl in *.
  rewrite IH by assumption.
  unfold head_row at 1. simpl. rewrite (node_by_id_unique _ _ HN Hc), Hl.
  reflexivity.
Qed.

(** New relationships that all start at one node are its outgoing ones. *)
Lemma out_rels_new_rels (t : reltype) (i n0 : nat)
      (rows : list (node * node)) :
  Forall (fun p => node_id (fst p) = i) rows ->
  filter (fun r => reltype_eqb (rel_type r) t && Nat.eqb (rel_start r) i)
         (new_rels t n0 rows)
  = new_rels t n0 rows.
Proof.
  revert n0. induction rows as [|p rows IH]; intros n0 HF; simpl; auto.
  inversion HF; subst. rewrite reltype_eqb_refl, Nat.eqb_refl. simpl.
  now rewrite IH.
Qed.

(** [update_head] removes every POINTS_TO of the HEAD nodes of the branch. *)
Lemma old_pointers_deleted (branch : string) (g : graph) (h : node) :
  In h (match_nodes HEAD branch g) ->
  out_rels POINTS_TO (node_id h)
    (delete_rels
       (map (fun hr : node * rel => rel_id (snd hr))
            (flat_map
               (fun h' => map (fun r => (h', r))
                              (out_rels POINTS_TO (node_id h') g))
               (match_nodes HEAD branch g))) g)
  = [].
Proof.
  intros Hh. unfold out_rels at 1. unfold delete_rels. cbn [rels].
  apply filter_nil. apply Forall_forall. intros r Hr.
  apply filter_In in Hr. destruct Hr as [Hr Hm].
  destruct (reltype_eqb (rel_type r) POINTS_TO
            && Nat.eqb (rel_start r) (node_id h)) eqn:E; auto.
  assert (Hin : In r (out_rels POINTS_TO (node_id h) g))
    by (apply filter_In; auto).
  assert (Hd : In (rel_id r)
                  (map (fun hr : node * rel => rel_id (snd hr))
                     (flat_map
                        (fun h' => map (fun r => (h', r))
                                       (out_rels POINTS_TO (node_id h') g))
                        (match_nodes HEAD branch g)))).
  { apply in_map_iff. exists (h, r). split; auto.
    apply in_flat_map. exists h. split; auto. apply in_map_iff. eauto. }
  apply mem_In in Hd. now rewrite Hd in Hm.
Qed.

(** [update_head] with a commit id that no Commit node has leaves the HEAD
    of the branch without any POINTS_TO: a branch that resolved before no
    longer resolves (and [switch_branch] then reports it as missing). *)
Theorem update_head_unknown_commit :
  forall (branch_name commit_id : string) (w : world),
    match_nodes Commit commit_id (db w) = [] ->
    let r := update_head branch_name commit_id w in
    fst r = Ok tt
    /\ head_rows branch_name (db (snd r)) = []
    /\ nodes (db (snd r)) = nodes (db w)
    /\ forall h, In h (match_nodes HEAD branch_name (db w)) ->
                 out_rels POINTS_TO (node_id h) (db (snd r)) = [].
Proof.
  intros b cid w Hc r. subst r.
  unfold update_head, run, modify. cbn [fst snd db set_db].
  assert (K : forall h, In h (match_nodes HEAD b (db w)) ->
                out_rels POINTS_TO (node_id h) (q_update_head b cid (db w))
                = []).
  { intros h Hh. unfold q_update_head. rewrite create_rels_eq.
    assert (Em : forall ids,
               match_nodes Commit cid (delete_rels ids (db w)) = [])
      by (intros; exact Hc).
    rewrite Em, product_nil_r. cbn [new_rels]. rewrite app_nil_r.
    pose proof (old_pointers_deleted b (db w) h Hh) as E.
    unfold out_rels in *. exact E. }
  refine (conj eq_refl (conj _ (conj _ K))).
  - rewrite head_rows_eq, q_update_head_match.
    induction (match_nodes HEAD b (db w)) as [|h hs IH]; simpl; auto.
    rewrite K by now left. simpl. apply IH.
    intros h' Hh'. apply K. now right.
  - apply q_update_head_nodes.
Qed.

Lemma update_head_unknown_commit_witness :
  let r := update_head "master" "nope" c4_world in
  fst r = Ok tt
  /\ head_rows "master" (db (snd r)) = []
  /\ nodes (db (snd r)) = nodes (db c4_world)
  /\ forall h, In h (match_nodes HEAD "master" (db c4_world)) ->
               out_rels POINTS_TO (node_id h) (db (snd r)) = [].
Proof.
  apply (@update_head_unknown_commit "master" "nope" c4_world).
  reflexivity.
Defined.

(** With one HEAD node for the branch (what the MERGE of [create_branch]
    keeps), [update_head] leaves as many POINTS_TO as the HEAD had before
    times the number of Commit nodes with the id, all resolving to the id:
    exactly one when the HEAD had one and the id names one Commit. *)
Theorem update_head_pointer_count :
  forall (branch_name commit_id : string) (g : graph) (h : node),
    wf_graph g = true ->
    match_nodes HEAD branch_name g = [h] ->
    let g' := q_update_head branch_name commit_id g in
    let k := List.length (out_rels POINTS_TO (node_id h) g)
             * List.length (match_nodes Commit commit_id g) in
    List.length (out_rels POINTS_TO (node_id h) g') = k
    /\ head_rows branch_name g' = repeat commit_id k.
Proof.
  intros b cid g h Hwf Hh g' k.
  pose proof (wf_graph_distinct _ Hwf) as HN.
  assert (Hin : In h (match_nodes HEAD b g)) by (rewrite Hh; now left).
  pose proof (old_pointers_deleted b g h Hin) as Hold.
  unfold g', q_update_head in *. rewrite Hh in *. cbn [flat_map] in *.
  rewrite app_nil_r in *.
  set (rs := out_rels POINTS_TO (node_id h) g) in *.
  set (g1 := delete_rels
               (map (fun hr : node * rel => rel_id (snd hr))
                    (map (fun r => (h, r)) rs)) g) in *.
  rewrite create_rels_eq.
  set (rows := product (map fst (map (fun r : rel => (h, r)) rs))
                       (match_nodes Commit cid g1)).
  assert (Hlen : List.length rows = k).
  { unfold rows, k. now rewrite length_product, !length_map. }
  assert (Hfst : Forall (fun p : node * node => node_id (fst p) = node_id h)
                        rows).
  { apply Forall_forall. intros (a, c) Hp. apply in_product in Hp.
    destruct Hp as [Ha _]. rewrite map_map in Ha. apply in_map_iff in Ha.
    destruct Ha as (? & <- & _). reflexivity. }
  assert (Hsnd : Forall (fun p : node * node =>
                           In (snd p) (nodes g) /\ node_label (snd p) = Commit
                           /\ node_key (snd p) = cid) rows).
  { apply Forall_forall. intros (a, c) Hp. apply in_product in Hp.
    destruct Hp as [_ Hc]. apply match_nodes_In in Hc. exact Hc. }
  assert (Hout : out_rels POINTS_TO (node_id h)
                   (mkGraph (nodes g1)
                      (rels g1 ++ new_rels POINTS_TO (next_id g1) rows)
                      (next_id g1 + List.length rows))
                 = new_rels POINTS_TO (next_id g1) rows).
  { unfold out_rels in *. cbn [rels]. rewrite filter_app, Hold. simpl.
    now apply out_rels_new_rels. }
  split.
  - rewrite Hout.
    clear - Hlen. revert Hlen. generalize (next_id g1). generalize k.
    induction rows as [|p rows IH]; intros k0 n0 <-; simpl; auto.
  - assert (Hm : forall rs' n',
               match_nodes HEAD b (mkGraph (nodes g1) rs' n') = [h])
      by (intros; exact Hh).
    rewrite head_rows_eq, Hm. cbn [flat_map]. rewrite app_nil_r, Hout.
    rewrite (@resolve_new_rels _ cid); auto; try (now rewrite Hlen).
Qed.

Lemma update_head_pointer_count_witness :
  List.length
    (out_rels POINTS_TO 3 (q_update_head "master" "c1" (db c4_world))) = 1
  /\ head_rows "master" (q_update_head "master" "c1" (db c4_world)) = ["c1"].
Proof.
  apply (@update_head_pointer_count "master" "c1" (db c4_world)
           (mkNode 3 HEAD "master" None None)).
  - reflexivity.
  - reflexivity.
Defined.

(** ** Creating a branch *)

(** What the proofs need of a well-formed graph. *)
Definition ids_ok (g : graph) : Prop :=
  NoDup (map node_id (nodes g))
  /\ Forall (fun n => node_id n < next_id g) (nodes g)
  /\ Forall (fun r => rel_start r < next_id g) (rels g).

Lemma wf_ids_ok (g : graph) : wf_graph g = true -> ids_ok g.
Proof.
  intros H. refine (conj (wf_graph_distinct _ H) (conj (wf_graph_nodes _ H) _)).
  eapply Forall_impl; [|exact (wf_graph_rels _ H)]. simpl. tauto.
Qed.

Lemma ids_ok_create_node (l : label) (k : string) (m t : option string)
      (g : graph) :
  ids_ok g -> ids_ok (snd (create_node l k m t g)).
Proof.
  intros (HN & Hb & Hr). unfold create_node. cbv zeta.
  refine (conj _ (conj _ _)); cbn [snd nodes rels next_id].
  - rewrite map_app. apply NoDup_app; auto.
    + simpl. repeat constructor. simpl. tauto.
    + intros i Hi [<-|[]]. apply in_map_iff in Hi.
      destruct Hi as (n & E & Hn). rewrite Forall_forall in Hb.
      specialize (Hb n Hn). simpl in E. lia.
  - apply Forall_app. split.
    + eapply Forall_impl; [|exact Hb]. simpl. intros; lia.
    + repeat constructor.
  - eapply Forall_impl; [|exact Hr]. simpl. intros; lia.
Qed.

Lemma ids_ok_create_rels (t : reltype) (rows : list (node * node)) (g : graph) :
  ids_ok g -> Forall (fun p => In (fst p) (nodes g)) rows ->
  ids_ok (create_rels t rows g).
Proof.
  intros (HN & Hb & Hr) Hrows. rewrite create_rels_eq.
  refine (conj HN (conj _ _)); cbn [nodes rels next_id].
  - eapply Forall_impl; [|exact Hb]. simpl. intros; lia.
  - apply Forall_app. split.
    + eapply Forall_impl; [|exact Hr]. simpl. intros; lia.
    + pose proof (new_rels_ends t (next_id g) rows) as He.
      rewrite Forall_forall in *. intros r Hin. specialize (He r Hin).
      apply in_map_iff in He. destruct He as (p & E & Hp).
      inversion E as [[E1 E2]]. specialize (Hb _ (Hrows p Hp)). lia.
Qed.

Lemma merge_node_spec (l : label) (k : string) (g : graph) :
  let ns := fst (merge_node l k g) in
  let g' := snd (merge_node l k g) in
  ns = match_nodes l k g'
  /\ ns <> []
  /\ rels g' = rels g
  /\ (ids_ok g -> ids_ok g')
  /\ (forall n, In n (nodes g) -> In n (nodes g'))
  /\ (forall l' k', (l', k') <> (l, k) ->
                    match_nodes l' k' g' = match_nodes l' k' g)
  /\ List.length ns = Nat.max 1 (List.length (match_nodes l k g)).
Proof.
  unfold merge_node.
  destruct (match_nodes l k g) as [|m ms] eqn:E.
  - unfold create_node. cbv zeta. cbn [fst snd nodes rels].
    refine (conj _ (conj _ (conj eq_refl (conj _ (conj _ (conj _ eq_refl)))))).
    + unfold match_nodes in *. cbn [nodes]. rewrite filter_app, E. simpl.
      unfold is_node. simpl. rewrite String.eqb_refl. now destruct l.
    + discriminate.
    + intros H. exact (ids_ok_create_node l k None None H).
    + intros n Hn. apply in_or_app. now left.
    + intros l' k' Hne. unfold match_nodes. cbn [nodes].
      rewrite filter_app. simpl. unfold is_node at 2. simpl.
      destruct (label_eqb l l') eqn:El; simpl.
      * destruct (String.eqb k k') eqn:Ek; [|now rewrite app_nil_r].
        apply String.eqb_eq in Ek. elim Hne.
        destruct l, l'; try discriminate; now subst.
      * now rewrite app_nil_r.
  - cbn [fst snd]. rewrite <- E.
    refine (conj eq_refl (conj _ (conj eq_refl (conj _ (conj _ (conj _ _)))))); auto.
    + rewrite E. discriminate.
    + rewrite E. simpl. lia.
Qed.

Lemma merge_node_new (l : label) (k : string) (g : graph) :
  match_nodes l k g = [] ->
  fst (merge_node l k g) = [mkNode (next_id g) l k None None].
Proof. unfold merge_node. now intros ->. Qed.

Lemma q_create_branch_base_eq (branch_name commit_id : string) (g : graph) :
  let b := mkNode (next_id g) Branch branch_name None None in
  let g1 := snd (create_node Branch branch_name None None g) in
  q_create_branch_base branch_name commit_id g
  = create_rels BASE
      (map (fun c => (b, c)) (fst (merge_node Commit commit_id g1)))
      (snd (merge_node Commit commit_id g1)).
Proof.
  unfold q_create_branch_base, create_node. cbv zeta. cbn [snd].
  now destruct (merge_node Commit commit_id _).
Qed.

Lemma q_create_branch_head_eq (branch_name commit_id : string) (g : graph) :
  let mh := merge_node HEAD branch_name g in
  let mc := merge_node Commit commit_id (snd mh) in
  q_create_branch_head branch_name commit_id g
  = create_rels POINTS_TO (product (fst mh) (fst mc)) (snd mc).
Proof.
  unfold q_create_branch_head. cbv zeta.
  destruct (merge_node HEAD branch_name g) as (hs, g1). cbn [fst snd].
  now destruct (merge_node Commit commit_id g1).
Qed.

Lemma create_rels_match (t : reltype) (rows : list (node * node)) (g : graph)
      (l : label) (k : string) :
  match_nodes l k (create_rels t rows g) = match_nodes l k g.
Proof. now rewrite create_rels_eq. Qed.

Section CreateBranch.
Variables branch_name commit_id : string.
Variable g : graph.
Hypothesis ok : ids_ok g.
Hypothesis no_head : match_nodes HEAD branch_name g = [].

Let base : graph := q_create_branch_base branch_name commit_id g.
Let final : graph := q_create_branch_head branch_name commit_id base.

Lemma create_branch_base_facts :
  ids_ok base
  /\ match_nodes HEAD branch_name base = []
  /\ match_nodes Branch branch_name base <> []
  /\ List.length (match_nodes Commit commit_id base)
     = Nat.max 1 (List.length (match_nodes Commit commit_id g)).
Proof.
  unfold base. rewrite q_create_branch_base_eq. cbv zeta.
  set (b := mkNode (next_id g) Branch branch_name None None).
  set (g1 := snd (create_node Branch branch_name None None g)).
  assert (ok1 : ids_ok g1) by (apply ids_ok_create_node; exact ok).
  assert (Hb : In b (nodes g1))
    by (unfold g1, create_node; simpl; apply in_or_app; right; now left).
  destruct (merge_node_spec Commit commit_id g1)
    as (Hns & Hne & Hrels & Hok & Hkeep & Hother & Hlen).
  refine (conj _ (conj _ (conj _ _))).
  - apply ids_ok_create_rels; auto.
    apply Forall_forall. intros p Hp. apply in_map_iff in Hp.
    destruct Hp as (c & <- & _). simpl. auto.
  - rewrite create_rels_match, Hother by discriminate.
    unfold g1, create_node, match_nodes. simpl. rewrite filter_app.
    fold (match_nodes HEAD branch_name g). rewrite no_head. reflexivity.
  - rewrite create_rels_match. intros E.
    assert (Hin : In b (match_nodes Branch branch_name
                          (snd (merge_node Commit commit_id g1)))).
    { apply match_nodes_In. auto. }
    rewrite E in Hin. destruct Hin.
  - rewrite create_rels_match, <- Hns, Hlen. f_equal.
    unfold g1, create_node, match_nodes. simpl. rewrite filter_app. simpl.
    now rewrite app_nil_r.
Qed.

(** On a name without HEAD node, [create_branch] leaves a Branch node and a
    HEAD that resolves to the commit id: the HEAD query returns one row per
    Commit node with the id (one, when the id was new or named one
    commit). *)
Lemma create_branch_head_rows :
  head_rows branch_name final
  = repeat commit_id
           (Nat.max 1 (List.length (match_nodes Commit commit_id g)))
  /\ match_nodes Branch branch_name final <> []
  /\ ids_ok final.
Proof.
  destruct create_branch_base_facts as (ok3 & Hh3 & Hb3 & Hc3).
  unfold final. rewrite q_create_branch_head_eq. cbv zeta.
  pose proof (merge_node_new _ _ _ Hh3) as Hh.
  destruct (merge_node_spec HEAD branch_name base)
    as (Hns & _ & Hrels & Hok & Hkeep & Hother & _).
  set (mh := merge_node HEAD branch_name base) in *.
  set (h := mkNode (next_id base) HEAD branch_name None None) in *.
  destruct (merge_node_spec Commit commit_id (snd mh))
    as (Hns' & Hne' & Hrels' & Hok' & Hkeep' & Hother' & Hlen').
  set (mc := merge_node Commit commit_id (snd mh)) in *.
  assert (ok5 : ids_ok (snd mc)) by auto.
  assert (Hhead : match_nodes HEAD branch_name (snd mc) = [h]).
  { rewrite Hother' by discriminate. now rewrite <- Hns. }
  assert (Hrows : Forall (fun p => In (fst p) (nodes (snd mc)))
                         (product (fst mh) (fst mc))).
  { apply Forall_forall. intros (a, c) Hp. apply in_product in Hp.
    destruct Hp as [Ha _]. rewrite Hh in Ha. destruct Ha as [<-|[]].
    simpl. assert (Hin : In h (match_nodes HEAD branch_name (snd mc)))
      by (rewrite Hhead; now left).
    apply match_nodes_In in Hin. tauto. }
  refine (conj _ (conj _ _)).
  - rewrite head_rows_eq, create_rels_match, Hhead. cbn [flat_map].
    rewrite app_nil_r.
    set (rows := product (fst mh) (fst mc)) in *.
    assert (Hout : out_rels POINTS_TO (node_id h)
                     (create_rels POINTS_TO rows (snd mc))
                   = new_rels POINTS_TO (next_id (snd mc)) rows).
    { rewrite create_rels_eq. unfold out_rels. cbn [rels].
      rewrite filter_app, Hrels', Hrels.
      rewrite (@filter_nil _ _ (rels base)).
      - simpl. apply out_rels_new_rels. apply Forall_forall.
        intros (a, c) Hp. apply in_product in Hp. destruct Hp as [Ha _].
        rewrite Hh in Ha. destruct Ha as [<-|[]]. reflexivity.
      - destruct ok3 as (_ & _ & Hr). eapply Forall_impl; [|exact Hr].
        intros r Hlt. simpl in *. apply andb_false_iff. right.
        apply Nat.eqb_neq. lia. }
    rewrite Hout.
    assert (Hg : forall r, head_row (create_rels POINTS_TO rows (snd mc)) r
                           = head_row (snd mc) r).
    { intros r. unfold head_row, node_by_id. now rewrite create_rels_eq. }
    rewrite (flat_map_ext _ _ Hg).
    rewrite (@resolve_new_rels _ commit_id).
    + unfold rows. rewrite length_product, Hh. simpl. rewrite Nat.add_0_r.
      rewrite Hlen', Hother by discriminate. rewrite Hc3.
      now destruct (List.length (match_nodes Commit commit_id g)).
    + apply ok5.
    + apply Forall_forall. intros (a, c) Hp. apply in_product in Hp.
      destruct Hp as [_ Hc]. rewrite Hns' in Hc.
      apply match_nodes_In in Hc. exact Hc.
  - rewrite create_rels_match, Hother', Hother by discriminate. exact Hb3.
  - now apply ids_ok_create_rels.
Qed.
End CreateBranch.

Lemma create_branch_run (branch_name commit_id : string) (w : world) :
  create_branch branch_name commit_id w
  = (Ok tt,
     add_stdout
       (Line ("Branch " ++ branch_name ++ " created from commit "
                ++ commit_id)%string)
       (set_db (q_create_branch_head branch_name commit_id
                  (q_create_branch_base branch_name commit_id (db w))) w)).
Proof. reflexivity. Qed.

(** [create_branch_from_commit] on a name that has no HEAD node yet: the
    branch exists afterwards, its HEAD resolves to the commit id (one row
    per Commit node with the id, a new node being made when there was
    none), and the switch that follows makes the branch the active one and
    the commit id the persisted pointer. *)
Theorem create_branch_from_commit_fresh :
  forall (branch_name commit_id : string) (w : world),
    wf_graph (db w) = true ->
    match_nodes HEAD branch_name (db w) = [] ->
    let r := create_branch_from_commit branch_name commit_id w in
    fst r = Ok tt
    /\ head_rows branch_name (db (snd r))
       = repeat commit_id
           (Nat.max 1 (List.length (match_nodes Commit commit_id (db w))))
    /\ branch_rows branch_name (db (snd r)) <> []
    /\ config (snd r) = Some commit_id
    /\ current_branch (snd r) = branch_name.
Proof.
  intros name cid w Hwf Hh r. subst r.
  destruct (@create_branch_head_rows name cid (db w) (wf_ids_ok _ Hwf) Hh)
    as (Hrows & Hb & _).
  unfold create_branch_from_commit.
  rewrite (bind_ok _ _ _ (create_branch_run name cid w)).
  unfold switch_branch. erewrite bind_ok by reflexivity.
  cbn [db add_stdout set_db]. rewrite Hrows.
  destruct (Nat.max 1 (List.length (match_nodes Commit cid (db w))))
    as [|k] eqn:E; [lia|].
  cbn [repeat single hd_error].
  unfold bind, modify, write_latest_commit, print, modify.
  cbn [fst snd db config current_branch add_stdout set_db set_config
       set_current_branch].
  rewrite Hrows. repeat split. exact Hb.
Qed.

Lemma create_branch_from_commit_fresh_witness :
  let r := create_branch_from_commit "dev" "c1" c4_world in
  fst r = Ok tt
  /\ head_rows "dev" (db (snd r)) = ["c1"]
  /\ branch_rows "dev" (db (snd r)) <> []
  /\ config (snd r) = Some "c1"
  /\ current_branch (snd r) = "dev".
Proof.
  apply (@create_branch_from_commit_fresh "dev" "c1" c4_world).
  - reflexivity.
  - reflexivity.
Defined.

(** ** Terminating a branch *)

Lemma detach_delete_nil (g : graph) : detach_delete [] g = g.
Proof.
  unfold detach_delete. simpl.
  rewrite !filter_all; [now destruct g| |]; apply Forall_forall; auto.
Qed.

(** [terminate_branch]: without a Branch node of the name it returns False
    and changes nothing (a HEAD node of the name, if any, stays); with a
    Branch node and a HEAD node it returns True and neither is left, so
    [branch_exists] is False afterwards and the branch no longer resolves;
    with a Branch node but no HEAD node it returns True although nothing is
    deleted.  In a graph with unique identities no Commit or User node and
    no node of another name is ever deleted. *)
Theorem terminate_branch_cases :
  forall (branch_name : string) (w : world),
    let r := terminate_branch branch_name w in
    (branch_rows branch_name (db w) = [] ->
     fst r = Ok false /\ db (snd r) = db w)
    /\ (branch_rows branch_name (db w) <> [] ->
        match_nodes HEAD branch_name (db w) <> [] ->
        fst r = Ok true
        /\ branch_rows branch_name (db (snd r)) = []
        /\ match_nodes HEAD branch_name (db (snd r)) = []
        /\ head_rows branch_name (db (snd r)) = []
        /\ fst (branch_exists branch_name (snd r)) = Ok false)
    /\ (branch_rows branch_name (db w) <> [] ->
        match_nodes HEAD branch_name (db w) = [] ->
        fst r = Ok true /\ db (snd r) = db w)
    /\ (wf_graph (db w) = true ->
        forall n, In n (nodes (db w)) ->
                  (node_key n = branch_name ->
                   node_label n <> Branch /\ node_label n <> HEAD) ->
                  In n (nodes (db (snd r)))).
Proof.
  intros name w r. subst r. rewrite terminate_branch_run.
  cbn [fst snd db add_stdout set_db].
  unfold terminate_result, terminated.
  refine (conj _ (conj _ (conj _ _))).
  - intros E. unfold single. rewrite E. simpl. auto.
  - intros Hb Hh.
    pose proof (@terminated_no_branch name (db w) Hh) as K1.
    pose proof (@terminated_no_head name (db w) Hb) as K2.
    unfold terminated in K1, K2.
    destruct (single (branch_rows name (db w))) as [b|] eqn:E.
    + refine (conj eq_refl (conj K1 (conj K2 (conj _ _)))).
      * now apply head_rows_no_head.
      * unfold branch_exists, bind, gets, ret.
        cbn [fst snd db add_stdout set_db]. now rewrite K1.
    + unfold single in E. destruct (branch_rows name (db w)); [now elim Hb|].
      discriminate.
  - intros Hb Hh.
    destruct (single (branch_rows name (db w))) as [b|] eqn:E.
    + split; auto. unfold q_terminate. rewrite Hh, product_nil_r. simpl.
      apply detach_delete_nil.
    + unfold single in E. destruct (branch_rows name (db w)); [now elim Hb|].
      discriminate.
  - intros Hwf n Hn Hl.
    apply (@terminated_keeps_node name (db w) (wf_graph_distinct _ Hwf) n Hn Hl).
Qed.

Lemma terminate_branch_cases_witness :
  let r := terminate_branch "master" c4_world in
  fst r = Ok true
  /\ branch_rows "master" (db (snd r)) = []
  /\ match_nodes HEAD "master" (db (snd r)) = []
  /\ head_rows "master" (db (snd r)) = []
  /\ fst (branch_exists "master" (snd r)) = Ok false.
Proof.
  apply (proj1 (proj2 (terminate_branch_cases "master" c4_world)));
    discriminate.
Defined.

(** ** Checking out a snapshot *)

Lemma relpath_eqb_eq (p q : relpath) : relpath_eqb p q = true <-> p = q.
Proof.
  unfold relpath_eqb. destruct (list_eq_dec string_dec p q); split; auto.
  discriminate.
Qed.

Lemma relpath_eqb_refl (p : relpath) : relpath_eqb p p = true.
Proof. now apply relpath_eqb_eq. Qed.

Lemma relpath_eqb_neq (p q : relpath) : relpath_eqb p q = false <-> p <> q.
Proof.
  unfold relpath_eqb. destruct (list_eq_dec string_dec p q); split; auto.
  - discriminate.
  - intros H. now elim H.
Qed.

Lemma relpath_eqb_sym (p q : relpath) : relpath_eqb p q = relpath_eqb q p.
Proof.
  destruct (relpath_eqb q p) eqn:E.
  - apply relpath_eqb_eq in E. subst. apply relpath_eqb_refl.
  - apply relpath_eqb_neq in E. apply relpath_eqb_neq. congruence.
Qed.

Lemma entry_put_same (p : relpath) (e : entry) (d : directory) :
  entry_at p (put_entry p e d) = Some e.
Proof.
  unfold entry_at. induction d as [|(q, e') d IH]; simpl.
  - now rewrite relpath_eqb_refl.
  - destruct (relpath_eqb p q) eqn:E; simpl.
    + now rewrite relpath_eqb_refl.
    + rewrite relpath_eqb_sym, E. exact IH.
Qed.

Lemma entry_put_other (p q : relpath) (e : entry) (d : directory) :
  p <> q -> entry_at p (put_entry q e d) = entry_at p d.
Proof.
  intros Hne. apply relpath_eqb_neq in Hne.
  unfold entry_at. f_equal. induction d as [|(k, e') d IH]; simpl.
  - rewrite relpath_eqb_sym. now rewrite Hne.
  - destruct (relpath_eqb q k) eqn:E; simpl.
    + apply relpath_eqb_eq in E. subst k. rewrite relpath_eqb_sym.
      now rewrite Hne.
    + destruct (relpath_eqb k p); auto.
Qed.

Lemma entry_at_last (p q : relpath) (e : entry) (d : directory) :
  entry_at p (d ++ [(q, e)])
  = match entry_at p d with
    | Some x => Some x
    | None => if relpath_eqb p q then Some e else None
    end.
Proof.
  unfold entry_at. rewrite find_last. cbn [fst].
  destruct (find _ d); auto.
  rewrite (relpath_eqb_sym q p). now destruct (relpath_eqb p q).
Qed.

Lemma entry_keep_hidden (p : relpath) (d : directory) :
  entry_at p (keep_hidden d) = if hidden p then entry_at p d else None.
Proof.
  unfold entry_at, keep_hidden.
  induction d as [|(k, e) d IH]; simpl.
  - now destruct (hidden p).
  - destruct (hidden k) eqn:Ek; simpl.
    + destruct (relpath_eqb k p) eqn:E; simpl.
      * apply relpath_eqb_eq in E. subst. now rewrite Ek.
      * exact IH.
    + destruct (relpath_eqb k p) eqn:E; simpl; auto.
      apply relpath_eqb_eq in E. subst. rewrite Ek in *. exact IH.
Qed.

(** The paths [makedirs_below] walks. *)
Fixpoint ways (above below : relpath) : list relpath :=
  match below with
  | [] => []
  | c :: rest => (above ++ [c]) :: ways (above ++ [c]) rest
  end.

(** The directories a path lies in, below the directory of the checkout. *)
Definition parents (p : relpath) : list relpath := ways [] (removelast p).

Definition mem_path (q : relpath) (l : list relpath) : bool :=
  existsb (relpath_eqb q) l.

Definition is_file (o : option entry) : bool :=
  match o with
  | Some (File _) => true
  | _ => false
  end.

Definition is_dir (o : option entry) : bool :=
  match o with
  | Some Dir => true
  | _ => false
  end.

Lemma mem_path_In (q : relpath) (l : list relpath) :
  mem_path q l = true <-> In q l.
Proof.
  unfold mem_path. rewrite existsb_exists. split.
  - intros (x & Hx & E). apply relpath_eqb_eq in E. now subst.
  - intros H. exists q. split; auto. apply relpath_eqb_refl.
Qed.

(** [makedirs] succeeds when no file is in the way; it then adds the
    directories that were missing and nothing else. *)
Lemma makedirs_below_ok (below above : relpath) (d : directory) :
  forallb (fun q => negb (is_file (entry_at q d))) (ways above below) = true ->
  exists d',
    makedirs_below above below d = Ok d'
    /\ forall q,
        entry_at q d'
        = match entry_at q d with
          | Some e => Some e
          | None => if mem_path q (ways above below) then Some Dir else None
          end.
Proof.
  revert above d. induction below as [|c rest IH]; intros above d H.
  - exists d. split; [reflexivity|]. intros q. now destruct (entry_at q d).
  - cbn [ways forallb] in H. apply andb_true_iff in H. destruct H as [Hp H].
    cbn [makedirs_below ways]. set (p := above ++ [c]) in *.
    destruct (entry_at p d) as [[content|]|] eqn:E.
    + discriminate.
    + destruct (IH p d H) as (d' & Hrun & Hat). exists d'.
      split; [exact Hrun|]. intros q. rewrite Hat.
      destruct (entry_at q d) eqn:Eq; auto.
      unfold mem_path. cbn [existsb]. fold (mem_path q (ways p rest)).
      destruct (relpath_eqb q p) eqn:Eqp; auto.
      apply relpath_eqb_eq in Eqp. subst q. congruence.
    + assert (H1 : forallb (fun q => negb (is_file (entry_at q (d ++ [(p, Dir)]))))
                           (ways p rest) = true).
      { rewrite forallb_forall in *. intros q Hq. specialize (H q Hq).
        rewrite entry_at_last. destruct (entry_at q d); auto.
        now destruct (relpath_eqb q p). }
      destruct (IH p _ H1) as (d' & Hrun & Hat). exists d'.
      split; [exact Hrun|]. intros q. rewrite Hat, entry_at_last.
      unfold mem_path. cbn [existsb]. fold (mem_path q (ways p rest)).
      destruct (entry_at q d); auto.
      now destruct (relpath_eqb q p).
Qed.

Lemma makedirs_below_raise (below above : relpath) (d : directory) (e : exn) :
  makedirs_below above below d = Raise e ->
  e = FileExistsError \/ e = NotADirectoryError.
Proof.
  revert above d. induction below as [|c rest IH]; intros above d; simpl.
  - discriminate.
  - destruct (entry_at (above ++ [c]) d) as [[content|]|].
    + destruct rest; intros H; inversion H; auto.
    + apply IH.
    + apply IH.
Qed.

(** The downloads of a checkout, in the order of the listing: the local path
    and the content of every object under the prefix that is not a folder
    marker. *)
Definition local_path_of (commit_prefix key : string) : relpath :=
  normpath (split_slash (drop (String.length commit_prefix) key)).

Definition downloads (commit_id : string) (b : bucket)
  : list (relpath * list byte) :=
  let commit_prefix := (commit_id ++ "/")%string in
  flat_map
    (fun key =>
       if endswith_slash key then []
       else match get_object key b with
            | Some content => [(local_path_of commit_prefix key, content)]
            | None => []
            end)
    (list_objects commit_prefix b).

Definition download (pc : relpath * list byte) (d : directory)
  : result unit * directory :=
  match makedirs (removelast (fst pc)) d with
  | Raise e => (Raise e, d)
  | Ok d1 =>
      match download_to (fst pc) (snd pc) d1 with
      | Raise e => (Raise e, d1)
      | Ok d2 => (Ok tt, d2)
      end
  end.

Fixpoint download_all (D : list (relpath * list byte)) (d : directory)
  : result unit * directory :=
  match D with
  | [] => (Ok tt, d)
  | pc :: R =>
      match download pc d with
      | (Ok _, d1) => download_all R d1
      | (Raise e, d1) => (Raise e, d1)
      end
  end.

Lemma restore_objects_downloads (commit_prefix : string) (b : bucket)
      (keys : list string) (d : directory) :
  (forall key, In key keys -> get_object key b <> None) ->
  restore_objects commit_prefix b keys d
  = download_all
      (flat_map
         (fun key =>
            if endswith_slash key then []
            else match get_object key b with
                 | Some content =>
                     [(local_path_of commit_prefix key, content)]
                 | None => []
                 end) keys) d.
Proof.
  revert d. induction keys as [|k keys IH]; intros d H; [reflexivity|].
  cbn [restore_objects flat_map]. unfold restore_object.
  destruct (endswith_slash k).
  - cbn [app]. apply IH. intros; apply H; now right.
  - destruct (get_object k b) as [content|] eqn:G;
      [|elim (H k (or_introl eq_refl) G)].
    cbn [app download_all]. unfold download, local_path_of. cbn [fst snd].
    destruct (makedirs _ d) as [d1|e]; auto.
    destruct (download_to _ content d1) as [d2|e]; auto.
    apply IH. intros; apply H; now right.
Qed.

Lemma checkout_downloads (commit_id : string) (b : bucket) (d : directory) :
  checkout commit_id b d
  = download_all (downloads commit_id b) (keep_hidden d).
Proof.
  unfold checkout, downloads. cbv zeta.
  apply restore_objects_downloads.
  intros key Hk. apply get_object_in. now apply (list_objects_in (commit_id ++ "/")).
Qed.

(** A checkout raises nothing but the three errors of the file system. *)
Lemma download_all_raise (D : list (relpath * list byte)) (d : directory)
      (e : exn) :
  fst (download_all D d) = Raise e ->
  e = FileExistsError \/ e = NotADirectoryError \/ e = IsADirectoryError.
Proof.
  revert d. induction D as [|pc R IH]; intros d; simpl; [discriminate|].
  unfold download.
  destruct (makedirs (removelast (fst pc)) d) as [d1|e1] eqn:Em.
  - unfold download_to.
    destruct (is_directory (fst pc) d1).
    + simpl. intros H. inversion H. auto.
    + apply IH.
  - simpl. intros H. inversion H; subst.
    destruct (makedirs_below_raise _ _ _ Em); auto.
Qed.

(** The last content downloaded to a path, and whether a path is one of the
    directories the downloads lie in. *)
Fixpoint last_download (D : list (relpath * list byte)) (q : relpath)
  : option (list byte) :=
  match D with
  | [] => None
  | pc :: R =>
      match last_download R q with
      | Some content => Some content
      | None => if relpath_eqb q (fst pc) then Some (snd pc) else None
      end
  end.

Definition made_dir (D : list (relpath * list byte)) (q : relpath) : bool :=
  existsb (fun pc => mem_path q (parents (fst pc))) D.

(** A name the file system takes for a file or a directory. *)
Definition file_name (c : string) : bool :=
  negb (String.eqb c "") && negb (String.eqb c ".")
  && negb (String.eqb c "..")
  && Nat.leb (String.length c) 255
  && negb (existsb (Ascii.eqb zero) (list_ascii_of_string c)).

(** A download that cannot raise: its path is made of names, lies below the
    directory, is no directory that was kept and lies in no other download;
    none of its parents is a file that was kept or another download. *)
Definition safe_download (kept : directory) (D : list (relpath * list byte))
           (p : relpath) : bool :=
  negb (relpath_eqb p []) && forallb file_name p
  && negb (is_dir (entry_at p kept))
  && forallb (fun q => negb (is_file (entry_at q kept))) (parents p)
  && forallb (fun pc => negb (mem_path p (parents (fst pc)))) D.

Definition checkout_safe (kept : directory) (D : list (relpath * list byte))
  : bool :=
  forallb (fun pc => safe_download kept D (fst pc)) D.

Lemma file_names_last (p : relpath) :
  p <> [] -> forallb file_name p = true -> String.eqb (last p "") ".." = false.
Proof.
  intros Hp H. rewrite forallb_forall in H.
  assert (Hin : In (last p "") p).
  { destruct (exists_last Hp) as (q & c & ->). rewrite last_last.
    apply in_or_app. right. now left. }
  specialize (H _ Hin). unfold file_name in H.
  rewrite !andb_true_iff in H. destruct H as [[[[_ _] H] _] _].
  now apply negb_true_iff in H.
Qed.

Section DownloadAll.
Variable D0 : list (relpath * list byte).

(** No download lies in another one. *)
Hypothesis apart :
  forall p p', In p (map fst D0) -> In p' (map fst D0) ->
               mem_path p (parents p') = false.

(** What a download needs of the directory it meets. *)
Definition ready (d : directory) (p : relpath) : Prop :=
  p <> [] /\ String.eqb (last p "") ".." = false
  /\ is_dir (entry_at p d) = false
  /\ forallb (fun q => negb (is_file (entry_at q d))) (parents p) = true.

Lemma download_ready (pc : relpath * list byte) (d : directory) :
  In (fst pc) (map fst D0) -> ready d (fst pc) ->
  exists d',
    download pc d = (Ok tt, d')
    /\ forall q,
        entry_at q d'
        = if relpath_eqb q (fst pc) then Some (File (snd pc))
          else match entry_at q d with
               | Some e => Some e
               | None =>
                   if mem_path q (parents (fst pc)) then Some Dir else None
               end.
Proof.
  destruct pc as (p, content). cbn [fst snd].
  intros Hin (Hne & Hlast & Hdir & Hpar).
  destruct (makedirs_below_ok _ _ _ Hpar) as (d1 & Hrun & Hat).
  unfold download, makedirs. cbn [fst snd]. rewrite Hrun.
  assert (Hd : is_directory p d1 = false).
  { unfold is_directory. destruct p as [|c p']; [now elim Hne|].
    rewrite Hlast. cbn [orb]. rewrite Hat. fold (parents (c :: p')).
    destruct (entry_at (c :: p') d) as [[x|]|] eqn:E; auto.
    now rewrite (apart _ _ Hin Hin). }
  unfold download_to. rewrite Hd.
  eexists. split; [reflexivity|]. intros q.
  destruct (relpath_eqb q p) eqn:E.
  - apply relpath_eqb_eq in E. subst q. apply entry_put_same.
  - apply relpath_eqb_neq in E. rewrite entry_put_other by assumption.
    apply Hat.
Qed.

Lemma download_all_ready (R : list (relpath * list byte)) (d : directory) :
  incl (map fst R) (map fst D0) ->
  (forall p, In p (map fst R) -> ready d p) ->
  fst (download_all R d) = Ok tt
  /\ forall q,
      entry_at q (snd (download_all R d))
      = match last_download R q with
        | Some content => Some (File content)
        | None =>
            match entry_at q d with
            | Some e => Some e
            | None => if made_dir R q then Some Dir else None
            end
        end.
Proof.
  revert d. induction R as [|pc R IH]; intros d Hincl Hready.
  - split; [reflexivity|]. intros q. cbn. now destruct (entry_at q d).
  - assert (Hpc : In (fst pc) (map fst D0))
      by (apply Hincl; now left).
    destruct (download_ready pc Hpc (Hready _ (or_introl eq_refl)))
      as (d1 & Hrun & Hat).
    cbn [download_all]. rewrite Hrun.
    assert (Hincl' : incl (map fst R) (map fst D0))
      by (intros x Hx; apply Hincl; now right).
    assert (Hready' : forall p, In p (map fst R) -> ready d1 p).
    { intros p Hp. destruct (Hready p (or_intror Hp)) as (H1 & H2 & H3 & H4).
      refine (conj H1 (conj H2 (conj _ _))).
      - rewrite Hat. destruct (relpath_eqb p (fst pc)); auto.
        destruct (entry_at p d); auto.
        now rewrite (apart _ _ (Hincl' _ Hp) Hpc).
      - rewrite forallb_forall in *. intros q Hq. rewrite Hat.
        destruct (relpath_eqb q (fst pc)) eqn:E.
        + apply relpath_eqb_eq in E. subst q.
          apply mem_path_In in Hq.
          now rewrite (apart _ _ Hpc (Hincl' _ Hp)) in Hq.
        + specialize (H4 q Hq). destruct (entry_at q d); auto.
          now destruct (mem_path q (parents (fst pc))). }
    destruct (IH d1 Hincl' Hready') as (Hok & Hfin).
    split; [exact Hok|]. intros q. rewrite Hfin. cbn [last_download].
    destruct (last_download R q); auto. rewrite Hat.
    unfold made_dir. cbn [existsb]. fold (made_dir R q).
    destruct (relpath_eqb q (fst pc)); auto.
    destruct (entry_at q d); auto.
    now destruct (mem_path q (parents (fst pc))).
Qed.
End DownloadAll.

Lemma checkout_safe_ok (kept : directory) (D : list (relpath * list byte)) :
  checkout_safe kept D = true ->
  fst (download_all D kept) = Ok tt
  /\ forall q,
      entry_at q (snd (download_all D kept))
      = match last_download D q with
        | Some content => Some (File content)
        | None =>
            match entry_at q kept with
            | Some e => Some e
            | None => if made_dir D q then Some Dir else None
            end
        end.
Proof.
  intros H. unfold checkout_safe in H. rewrite forallb_forall in H.
  assert (Hs : forall p, In p (map fst D) -> safe_download kept D p = true).
  { intros p Hp. apply in_map_iff in Hp. destruct Hp as (pc & <- & Hpc).
    now apply H. }
  apply (@download_all_ready D).
  - intros p p' Hp Hp'. specialize (Hs p Hp). unfold safe_download in Hs.
    rewrite !andb_true_iff in Hs. destruct Hs as [_ Hs].
    rewrite forallb_forall in Hs.
    apply in_map_iff in Hp'. destruct Hp' as (pc & <- & Hpc).
    specialize (Hs pc Hpc). now apply negb_true_iff in Hs.
  - apply incl_refl.
  - intros p Hp. specialize (Hs p Hp). unfold safe_download in Hs.
    rewrite !andb_true_iff in Hs.
    destruct Hs as [[[[H1 H2] H3] H4] _].
    apply negb_true_iff in H1, H3. apply relpath_eqb_neq in H1.
    refine (conj H1 (conj _ (conj H3 H4))).
    now apply file_names_last.
Qed.


Definition revert_world : world :=
  mkWorld (mkGraph [] [] 0)
          [("c1/docs/b.txt", [x62]); ("c1/a.txt", [x61]); ("c1/docs/", []);
           ("c2/b.txt", [x63])]
          None
          [(["old.txt"], File [x6f]); ([".env"], File [x65]);
           (["src"], Dir); (["src"; "m.py"], File [x6d])]
          "master" true [].


(** Paths that clash, and a path with [..].  A snapshot that holds [a] and
    [a/b] cannot be checked out: [a] is downloaded first and is in the way
    of the directory; the listing being by key, the directory is left with
    the file [a].  A snapshot file below [.cfg] meets a file [.cfg] that was
    kept.  The key [c3/d/../e] is written to [e]. *)
Example revert_to_commit_clashes :
  let b : bucket :=
    [("c1/a/b", [x62]); ("c1/a", [x61]); ("c2/.cfg/x", [x78]);
     ("c3/d/../e", [x65])] in
  let w := mkWorld (mkGraph [] [] 0) b None [([".cfg"], File [])] "master"
                   true [] in
  revert_to_commit "c1" "dir" w
  = (Raise FileExistsError,
     set_workdir [([".cfg"], File []); (["a"], File [x61])] w)
  /\ fst (revert_to_commit "c2" "dir" w) = Raise FileExistsError
  /\ workdir (snd (revert_to_commit "c3" "dir" w))
     = [([".cfg"], File []); (["e"], File [x65])].
Proof. vm_compute. repeat split. Qed.

(** ** Storing a snapshot *)

Lemma get_put_other (key key' : string) (content : list byte) (b : bucket) :
  key <> key' ->
  get_object key (put_object key' content b) = get_object key b.
Proof.
  intros Hne. unfold get_object. f_equal.
  induction b as [|(k, c) b IH]; simpl.
  - apply String.eqb_neq in Hne. rewrite String.eqb_sym. now rewrite Hne.
  - destruct (String.eqb key' k) eqn:E; simpl.
    + apply String.eqb_eq in E. subst k.
      apply String.eqb_neq in Hne. rewrite String.eqb_sym. now rewrite Hne.
    + destruct (String.eqb k key); auto.
Qed.

(** The key that is looked up holds the content of the last file stored
    under it, whatever the bucket held. *)
Lemma upload_lookup (base_prefix key : string)
      (files : list (string * string)) (b : bucket) :
  get_object key (fold_left (upload base_prefix) files b)
  = match find (fun f => String.eqb (object_key base_prefix (fst f)) key)
               (rev files) with
    | Some f => Some (encode (snd f))
    | None => get_object key b
    end.
Proof.
  revert b. induction files as [|f files IH]; intros b; simpl; auto.
  rewrite IH, find_last.
  destruct (find _ (rev files)); auto.
  destruct (String.eqb (object_key base_prefix (fst f)) key) eqn:E.
  - apply String.eqb_eq in E. subst key. unfold upload. apply get_put_same.
  - apply String.eqb_neq in E. unfold upload. apply get_put_other. congruence.
Qed.

(** The files [s3_store] uploads: those before the first one whose key the
    bucket refuses.  The exception of a refused key. *)
Fixpoint accepted (base_prefix : string) (files : list (string * string))
  : list (string * string) :=
  match files with
  | [] => []
  | f :: r =>
      if valid_object_key (object_key base_prefix (fst f))
      then f :: accepted base_prefix r
      else []
  end.

Fixpoint refused (base_prefix : string) (files : list (string * string))
  : option exn :=
  match files with
  | [] => None
  | f :: r =>
      let key := object_key base_prefix (fst f) in
      if String.eqb key "" then Some ParamValidationError
      else if Nat.ltb 1024 (String.length key) then Some KeyTooLongError
      else refused base_prefix r
  end.

Lemma store_files_accepted (base_prefix : string)
      (files : list (string * string)) (b : bucket) :
  store_files base_prefix files b
  = (fold_left (upload base_prefix) (accepted base_prefix files) b,
     refused base_prefix files).
Proof.
  revert b. induction files as [|f files IH]; intros b; [reflexivity|].
  cbn [store_files accepted refused]. unfold valid_object_key.
  destruct (String.eqb (object_key base_prefix (fst f)) ""); [reflexivity|].
  cbn [negb andb]. rewrite Nat.leb_antisym.
  destruct (Nat.ltb 1024 (String.length (object_key base_prefix (fst f))));
    [reflexivity|].
  cbn [negb fold_left]. apply IH.
Qed.

Lemma refused_none (base_prefix : string) (files : list (string * string)) :
  refused base_prefix files = None
  <-> accepted base_prefix files = files.
Proof.
  induction files as [|f files IH]; [tauto|].
  cbn [accepted refused]. unfold valid_object_key.
  destruct (String.eqb (object_key base_prefix (fst f)) "");
    [split; discriminate|].
  cbn [negb andb]. rewrite Nat.leb_antisym.
  destruct (Nat.ltb 1024 (String.length (object_key base_prefix (fst f))));
    [split; discriminate|].
  cbn [negb]. rewrite IH. split; [now intros ->|].
  intros H. injection H. auto.
Qed.

(** [s3_store] never raises and changes nothing but the bucket and the
    output.  It uploads the files of the dict in order, up to the first one
    whose object key the bucket refuses (an empty key, or one of more than
    1024 bytes): that one and those after it are not stored, and the error
    is printed; when no key is refused nothing is printed.  Afterwards a key
    holds the encoded text of the last uploaded file whose object key it is,
    and what it held before when it is the object key of none of them; two
    paths with the same object key (they differ in a backslash against a
    slash only) leave one object, with the text of the later one. *)
Theorem s3_store_last_write_wins :
  forall (files : list (string * string)) (base_prefix : string) (w : world),
    let r := s3_store files base_prefix w in
    let uploaded := accepted base_prefix files in
    fst r = Ok tt
    /\ db (snd r) = db w /\ config (snd r) = config w
    /\ workdir (snd r) = workdir w
    /\ stdout (snd r)
       = stdout w
         ++ match refused base_prefix files with
            | Some e =>
                [LineExn "Some error occurred while storing the commit:" e]
            | None => []
            end
    /\ (refused base_prefix files = None <-> uploaded = files)
    /\ forall key,
        get_object key (s3 (snd r))
        = match find (fun f => String.eqb (object_key base_prefix (fst f)) key)
                     (rev uploaded) with
          | Some f => Some (encode (snd f))
          | None => get_object key (s3 w)
          end.
Proof.
  intros files base_prefix w r uploaded. subst r uploaded.
  rewrite s3_store_run, store_files_accepted. cbn [fst snd].
  destruct (refused base_prefix files) as [e|] eqn:E;
    cbn [store_report db config workdir stdout s3 add_stdout set_s3].
  - refine (conj eq_refl (conj eq_refl (conj eq_refl (conj eq_refl
             (conj eq_refl (conj _ _)))))).
    + split; [discriminate|].
      intros H. apply refused_none in H. congruence.
    + intros key. apply upload_lookup.
  - refine (conj eq_refl (conj eq_refl (conj eq_refl (conj eq_refl
             (conj _ (conj _ _)))))).
    + now rewrite app_nil_r.
    + split; [intros _; now apply refused_none|reflexivity].
    + intros key. apply upload_lookup.
Qed.

(** A dict with an empty path, stored under an empty prefix: the first key
    is refused, so nothing is stored, not even the second file. *)
Example s3_store_refused :
  let w := mkWorld (mkGraph [] [] 0) [] None [] "master" true [] in
  s3_store [("", "x"); ("b.txt", "y")] "" w
  = (Ok tt,
     add_stdout
       (LineExn "Some error occurred while storing the commit:"
                ParamValidationError) w).
Proof. reflexivity. Qed.

(** ** A commit, then a revert to it *)

Lemma replace_char_app (a b : ascii) (s t : string) :
  replace_char a b (s ++ t)%string
  = (replace_char a b s ++ replace_char a b t)%string.
Proof. induction s as [|c s IH]; simpl; auto. now rewrite IH. Qed.

Lemma startswith_app (p s : string) : startswith p (p ++ s)%string = true.
Proof.
  unfold startswith. induction p as [|c p IH]; simpl.
  - now destruct s.
  - destruct (ascii_dec c c); [exact IH|congruence].
Qed.

Lemma drop_app (p s : string) : drop (String.length p) (p ++ s)%string = s.
Proof. induction p as [|c p IH]; simpl; auto. Qed.

Lemma last_char_append (p s : string) :
  s <> ""%string -> last_char (p ++ s)%string = last_char s.
Proof.
  intros Hs. induction p as [|c p IH]; simpl; auto.
  rewrite IH. destruct (p ++ s)%string eqn:E; auto.
  destruct p; simpl in E; [contradiction|discriminate].
Qed.

Lemma append_String_assoc (p : string) (c : ascii) (s : string) :
  ((p ++ String c "") ++ s)%string = (p ++ String c s)%string.
Proof. induction p as [|a p IH]; simpl; auto. now rewrite IH. Qed.

(** [split] is undone by joining with slashes. *)
Fixpoint join_slash (l : list string) : string :=
  match l with
  | [] => ""
  | c :: r =>
      match r with
      | [] => c
      | _ :: _ => (c ++ "/" ++ join_slash r)%string
      end
  end.

Lemma split_slash_cons (s : string) :
  exists x xs, split_slash s = x :: xs.
Proof.
  destruct s as [|c r]; simpl; [eauto|].
  destruct (Ascii.eqb c "/"); [eauto|].
  destruct (split_slash r); eauto.
Qed.

Lemma join_split_slash (s : string) : join_slash (split_slash s) = s.
Proof.
  induction s as [|c r IH]; [reflexivity|].
  cbn [split_slash]. destruct (Ascii.eqb c "/") eqn:E.
  - apply Ascii.eqb_eq in E. subst c.
    destruct (split_slash_cons r) as (x & xs & Hx). rewrite Hx in *.
    cbn [join_slash]. cbn [join_slash] in IH. rewrite IH. reflexivity.
  - destruct (split_slash_cons r) as (x & xs & Hx). rewrite Hx in *.
    cbn [join_slash] in *. destruct xs; simpl in *; now rewrite IH.
Qed.

Lemma split_slash_inj (s t : string) :
  split_slash s = split_slash t -> s = t.
Proof.
  intros H. rewrite <- (join_split_slash s), <- (join_split_slash t).
  now rewrite H.
Qed.

(** File names are left as they are by [normpath]. *)
Lemma file_name_step (acc : list string) (c : string) :
  file_name c = true -> norm_step acc c = acc ++ [c].
Proof.
  unfold file_name, norm_step. rewrite !andb_true_iff, !negb_true_iff.
  intros [[[[H1 H2] H3] _] _]. now rewrite H1, H2, H3.
Qed.

Lemma normpath_names (l : list string) :
  forallb file_name l = true -> normpath l = l.
Proof.
  unfold normpath.
  assert (K : forall acc, forallb file_name l = true ->
                          fold_left norm_step l acc = acc ++ l).
  { induction l as [|c l IH]; intros acc H; simpl in *.
    - now rewrite app_nil_r.
    - apply andb_true_iff in H. destruct H as [Hc H].
      rewrite file_name_step by assumption. rewrite IH by assumption.
      now rewrite <- app_assoc. }
  apply K.
Qed.

(** A commit id that [s3_store] and [revert_to_commit] turn into the same
    prefix: not empty, no slash at its end, no backslash. *)
Definition plain_commit_id (commit_id : string) : bool :=
  negb (String.eqb commit_id "")
  && negb (endswith_slash commit_id)
  && String.eqb (replace_char "\" "/" commit_id) commit_id.

(** The relative path of a file as [read_directory] gives it: not empty, not
    absolute, no slash at its end, no backslash, and made of file names. *)
Definition plain_file_path (path : string) : bool :=
  negb (String.eqb path "")
  && negb (startswith "/" path)
  && negb (endswith_slash path)
  && String.eqb (replace_char "\" "/" path) path
  && forallb file_name (split_slash path).

Lemma plain_object_key (commit_id path : string) :
  plain_commit_id commit_id = true -> plain_file_path path = true ->
  object_key commit_id path = ((commit_id ++ "/") ++ path)%string
  /\ endswith_slash (object_key commit_id path) = false
  /\ local_path_of (commit_id ++ "/") (object_key commit_id path)
     = split_slash path.
Proof.
  unfold plain_commit_id, plain_file_path. rewrite !andb_true_iff.
  rewrite !negb_true_iff, !String.eqb_eq.
  intros [[Hc1 Hc2] Hc3] [[[[Hp1 Hp2] Hp3] Hp4] Hp5].
  assert (E : object_key commit_id path = ((commit_id ++ "/") ++ path)%string).
  { unfold object_key, path_join. rewrite Hp2, Hc1, Hc2. cbn [orb].
    rewrite append_String_assoc.
    rewrite replace_char_app. cbn [append replace_char].
    rewrite Hc3, Hp4. reflexivity. }
  refine (conj E (conj _ _)).
  - rewrite E. unfold endswith_slash in *.
    rewrite last_char_append; auto.
    now apply String.eqb_neq.
  - unfold local_path_of. rewrite E, drop_app. now apply normpath_names.
Qed.

Lemma create_commit_stores (commit_id message user_id : string)
      (files : list (string * string)) (commit_branch timestamp : string)
      (w : world) :
  let r := create_commit commit_id message user_id files commit_branch
                         timestamp w in
  fst r = Ok tt
  /\ s3 (snd r) = fst (store_files commit_id files (s3 w))
  /\ config (snd r) = Some commit_id
  /\ workdir (snd r) = workdir w.
Proof.
  unfold create_commit.
  destruct (String.eqb commit_branch "master");
    cbv [bind gets run modify ret read_latest_commit write_latest_commit
         update_head print];
    match goal with |- context [truthy ?p] => destruct (truthy p) end;
    cbv [bind gets run modify ret print];
    rewrite s3_store_run;
    destruct (snd (store_files commit_id files _)); cbn; auto.
Qed.

(** The keys under a prefix, as the list of the bucket has them. *)
Definition under (prefix : string) (b : bucket) : list string :=
  map fst (filter (fun o => startswith prefix (fst o)) b).

Lemma under_put (prefix key : string) (content : list byte) (b : bucket) :
  startswith prefix key = true -> ~ In key (under prefix b) ->
  under prefix (put_object key content b) = under prefix b ++ [key].
Proof.
  intros Hp. unfold under. induction b as [|(k, c) b IH]; simpl; intros Hn.
  - now rewrite Hp.
  - destruct (String.eqb key k) eqn:E.
    + apply String.eqb_eq in E. subst k. rewrite Hp in Hn. simpl in Hn.
      elim Hn. now left.
    + simpl. destruct (startswith prefix k); simpl in *.
      * f_equal. apply IH. tauto.
      * now apply IH.
Qed.

Lemma under_uploads (prefix base_prefix : string)
      (files : list (string * string)) (b : bucket) :
  let keys := map (fun f => object_key base_prefix (fst f)) files in
  Forall (fun key => startswith prefix key = true) keys ->
  NoDup keys ->
  (forall key, In key keys -> ~ In key (under prefix b)) ->
  under prefix (fold_left (upload base_prefix) files b)
  = under prefix b ++ keys.
Proof.
  cbv zeta. revert b. induction files as [|f files IH]; intros b HP HN Hnew.
  - simpl. now rewrite app_nil_r.
  - cbn [map fold_left] in *.
    inversion HP as [|? ? Hpf HP']; subst.
    inversion HN as [|? ? Hf HN']; subst.
    assert (E : under prefix (upload base_prefix b f)
                = under prefix b ++ [object_key base_prefix (fst f)]).
    { unfold upload. apply under_put; auto. apply Hnew. now left. }
    rewrite IH; auto.
    + rewrite E, <- app_assoc. reflexivity.
    + intros key Hk Hin. rewrite E in Hin. apply in_app_or in Hin.
      destruct Hin as [Hin|[<-|[]]].
      * apply (Hnew key); [now right|exact Hin].
      * contradiction.
Qed.

(** The safety of a checkout does not depend on the order of the
    downloads. *)
Lemma checkout_safe_perm (kept : directory)
      (D D' : list (relpath * list byte)) :
  Permutation D D' -> checkout_safe kept D = true ->
  checkout_safe kept D' = true.
Proof.
  intros HP H. unfold checkout_safe in *. rewrite forallb_forall in *.
  intros pc Hpc.
  assert (Hin : In pc D)
    by (eapply Permutation_in; [apply Permutation_sym|]; eauto).
  specialize (H pc Hin). unfold safe_download in *.
  rewrite !andb_true_iff in *. destruct H as [H1 H2].
  split; [exact H1|]. rewrite forallb_forall in *.
  intros pc' Hpc'. apply H2.
  eapply Permutation_in; [apply Permutation_sym|]; eauto.
Qed.

Lemma last_download_none (D : list (relpath * list byte)) (q : relpath) :
  ~ In q (map fst D) -> last_download D q = None.
Proof.
  induction D as [|pc D IH]; simpl; auto.
  intros H. rewrite IH by tauto.
  destruct (relpath_eqb q (fst pc)) eqn:E; auto.
  apply relpath_eqb_eq in E. elim H. now left.
Qed.

Lemma last_download_nodup (D : list (relpath * list byte)) (q : relpath)
      (content : list byte) :
  NoDup (map fst D) -> In (q, content) D ->
  last_download D q = Some content.
Proof.
  induction D as [|pc D IH]; simpl; [tauto|].
  intros HN [->|Hin]; inversion HN as [|? ? Hq HN']; subst.
  - cbn [fst snd] in *. rewrite last_download_none by assumption.
    now rewrite relpath_eqb_refl.
  - now rewrite (IH HN' Hin).
Qed.

(** The downloads of a commit whose prefix held nothing before. *)
Section RoundTrip.
Variables commit_id : string.
Variable files : list (string * string).
Variable b : bucket.

Hypothesis plain_id : plain_commit_id commit_id = true.
Hypothesis plain_paths : forallb plain_file_path (map fst files) = true.
Hypothesis dict : NoDup (map fst files).
Hypothesis fresh : list_objects (commit_id ++ "/") b = [].

Let prefix : string := (commit_id ++ "/")%string.
Let stored : bucket := fold_left (upload commit_id) files b.

Lemma plain_file (f : string * string) :
  In f files -> plain_file_path (fst f) = true.
Proof.
  intros Hf. rewrite forallb_forall in plain_paths. apply plain_paths.
  now apply in_map.
Qed.

Lemma object_key_inj (f f' : string * string) :
  In f files -> In f' files ->
  object_key commit_id (fst f) = object_key commit_id (fst f') -> f = f'.
Proof.
  intros Hf Hf' E.
  destruct (plain_object_key _ _ plain_id (plain_file _ Hf)) as (E1 & _).
  destruct (plain_object_key _ _ plain_id (plain_file _ Hf')) as (E2 & _).
  rewrite E1, E2 in E.
  apply (f_equal (drop (String.length (commit_id ++ "/")))) in E.
  rewrite !drop_app in E.
  clear - dict Hf Hf' E. revert Hf Hf'.
  induction files as [|(k, v) l IH]; simpl in *; [tauto|].
  inversion dict as [|? ? Hk HN]; subst.
  intros [Ef|Hf] [Ef'|Hf'].
  - congruence.
  - subst f. simpl in E. elim Hk. rewrite E. now apply in_map.
  - subst f'. simpl in E. elim Hk. rewrite <- E. now apply in_map.
  - auto.
Qed.

Lemma stored_object (f : string * string) :
  In f files ->
  get_object (object_key commit_id (fst f)) stored = Some (encode (snd f)).
Proof.
  intros Hf. unfold stored. rewrite upload_lookup.
  destruct (find _ (rev files)) as [f'|] eqn:E.
  - apply find_some in E. destruct E as [Hf' E].
    apply in_rev in Hf'. apply String.eqb_eq in E.
    now rewrite (object_key_inj _ _ Hf' Hf E).
  - apply in_rev in Hf. pose proof (find_none _ _ E _ Hf) as H.
    cbn in H. rewrite String.eqb_refl in H. discriminate.
Qed.

Lemma stored_listing :
  list_objects prefix stored
  = sorted_by (fun key : string => key)
              (map (fun f => object_key commit_id (fst f)) files).
Proof.
  assert (Hu : under prefix b = []).
  { pose proof (sorted_by_perm (fun key : string => key) (under prefix b))
      as HP.
    unfold under, prefix in HP. unfold list_objects in fresh.
    rewrite fresh in HP. apply Permutation_nil in HP. exact HP. }
  unfold list_objects. fold (under prefix stored). unfold stored.
  rewrite under_uploads.
  - now rewrite Hu.
  - apply Forall_forall. intros key Hk. apply in_map_iff in Hk.
    destruct Hk as (f & <- & Hf).
    destruct (plain_object_key _ _ plain_id (plain_file _ Hf)) as (E & _).
    rewrite E. apply startswith_app.
  - clear - dict plain_id plain_paths.
    assert (K : forall l, incl l files -> NoDup (map fst l) ->
                  NoDup (map (fun f => object_key commit_id (fst f)) l)).
    { induction l as [|f l IH]; intros Hi HN; simpl; constructor.
      - inversion HN as [|? ? Hf _]; subst. intros Hin.
        apply in_map_iff in Hin. destruct Hin as (f' & E & Hf').
        assert (f' = f).
        { apply object_key_inj; auto.
          - apply Hi. now right.
          - apply Hi. now left. }
        subst f'. apply Hf. now apply in_map.
      - apply IH; [|now inversion HN].
        intros x Hx. apply Hi. now right. }
    apply K; auto. apply incl_refl.
  - rewrite Hu. auto.
Qed.

Lemma stored_downloads :
  Permutation (downloads commit_id stored)
              (map (fun f => (split_slash (fst f), encode (snd f))) files).
Proof.
  unfold downloads. cbv zeta. fold prefix. rewrite stored_listing.
  set (g := fun key : string =>
              if endswith_slash key then []
              else match get_object key stored with
                   | Some content => [(local_path_of prefix key, content)]
                   | None => []
                   end).
  transitivity (flat_map g (map (fun f => object_key commit_id (fst f)) files)).
  - apply Permutation_flat_map, sorted_by_perm.
  - assert (K : forall l, incl l files ->
                  flat_map g (map (fun f => object_key commit_id (fst f)) l)
                  = map (fun f => (split_slash (fst f), encode (snd f))) l).
    { induction l as [|f l IH]; intros Hi; [reflexivity|].
      cbn [map flat_map]. rewrite IH by (intros x Hx; apply Hi; now right).
      assert (Hf : In f files) by (apply Hi; now left).
      destruct (plain_object_key _ _ plain_id (plain_file _ Hf))
        as (_ & Hs & Hl).
      unfold g at 1. rewrite Hs, (stored_object _ Hf). unfold prefix.
      rewrite Hl. reflexivity. }
    rewrite K by apply incl_refl. reflexivity.
Qed.

Lemma download_paths_nodup :
  NoDup (map fst (map (fun f => (split_slash (fst f), encode (snd f))) files)).
Proof.
  rewrite map_map. cbn [fst]. clear - dict.
  induction files as [|f l IH]; simpl; constructor.
  - inversion dict as [|? ? Hf _]; subst. intros Hin.
    apply in_map_iff in Hin. destruct Hin as (f' & E & Hf').
    apply split_slash_inj in E. apply Hf. rewrite <- E. now apply in_map.
  - apply IH. now inversion dict.
Qed.
End RoundTrip.


Definition commit_world : world :=
  mkWorld (mkGraph [] [] 0)
          [("c0/old.txt", [x6f])]
          None
          [(["stale.txt"], File [x73]); ([".env"], File [x65])]
          "master" true [].


(** ** The parent of a new commit *)

(** The parent [create_commit] looks up: the pointer file on master, the
    HEAD of the branch in the graph on any other branch.  An empty id counts
    as none. *)
Definition parent_lookup (commit_branch : string) (w : world)
  : option string :=
  truthy (if String.eqb commit_branch "master" then config w
          else single (head_rows commit_branch (db w))).

(** The graph [create_commit] leaves. *)
Definition commit_graph (commit_id message timestamp user_id : string)
           (commit_branch : string) (parent : option string) (g : graph)
  : graph :=
  let g1 := q_create_commit commit_id message timestamp user_id g in
  q_update_head commit_branch commit_id
    (match parent with
     | Some p => q_link_parent commit_id p g1
     | None => g1
     end).

Lemma create_commit_graph (commit_id message user_id : string)
      (files : list (string * string)) (commit_branch timestamp : string)
      (w : world) :
  let r := create_commit commit_id message user_id files commit_branch
                         timestamp w in
  fst r = Ok tt
  /\ db (snd r)
     = commit_graph commit_id message timestamp user_id commit_branch
                    (parent_lookup commit_branch w) (db w)
  /\ stdout (snd r)
     = stdout w
       ++ match parent_lookup commit_branch w with
          | Some p => [Line ("Parent commit " ++ p ++ " linked to "
                               ++ commit_id)%string]
          | None => []
          end
       ++ match refused commit_id files with
          | Some e =>
              [LineExn "Some error occurred while storing the commit:" e]
          | None => []
          end
       ++ [Line ("Commit created: " ++ commit_id ++ " - " ++ message)%string].
Proof.
  unfold create_commit, parent_lookup, commit_graph.
  destruct (String.eqb commit_branch "master");
    cbv [bind gets run modify ret read_latest_commit write_latest_commit
         update_head print];
    match goal with |- context [truthy ?p] => destruct (truthy p) end;
    cbv [bind gets run modify ret print];
    rewrite s3_store_run, store_files_accepted; cbn [fst snd];
    destruct (refused commit_id files); cbn; rewrite <- ?app_assoc; auto.
Qed.

Lemma q_create_commit_next (cid msg ts user : string) (g : graph) :
  next_id g < next_id (q_create_commit cid msg ts user g).
Proof.
  unfold q_create_commit, create_node, merge_node.
  match goal with |- context [match_nodes User user ?g1] =>
    destruct (match_nodes User user g1) eqn:E end.
  - unfold create_node. cbn. lia.
  - rewrite create_rels_eq. cbn [next_id]. lia.
Qed.

(** The Commit nodes with an id after the first statement of
    [create_commit]: those there were, and the new node when the id is its
    own. *)
Lemma q_create_commit_match (cid msg ts user k : string) (g : graph) :
  match_nodes Commit k (q_create_commit cid msg ts user g)
  = match_nodes Commit k g
    ++ (if String.eqb cid k
        then [mkNode (next_id g) Commit cid (Some msg) (Some ts)] else []).
Proof.
  destruct (q_create_commit_nodes cid msg ts user g) as (extra & Hn & He).
  unfold match_nodes. rewrite Hn, filter_app. f_equal. simpl.
  rewrite (@filter_nil _ _ extra).
  - unfold is_node. simpl. now destruct (String.eqb cid k).
  - eapply Forall_impl; [|exact He]. intros n Hn'. unfold is_node.
    now rewrite Hn'.
Qed.

Lemma new_rels_ids (t : reltype) (n0 : nat) (rows : list (node * node)) :
  Forall (fun r => n0 <= rel_id r) (new_rels t n0 rows).
Proof.
  revert n0. induction rows as [|ab rows IH]; intros n0; simpl;
    constructor; simpl; auto.
  eapply Forall_impl; [|apply (IH (S n0))]. simpl. intros; lia.
Qed.

(** [update_head] keeps a relationship whose identity no POINTS_TO
    relationship shares. *)
Lemma q_update_head_keeps (branch commit_id : string) (g : graph) (e : rel) :
  In e (rels g) ->
  (forall e', In e' (rels g) -> rel_type e' = POINTS_TO ->
              rel_id e' <> rel_id e) ->
  In e (rels (q_update_head branch commit_id g)).
Proof.
  intros He Hid. unfold q_update_head. rewrite create_rels_eq.
  cbn [rels delete_rels]. apply in_or_app. left.
  apply filter_In. split; auto.
  destruct (mem (rel_id e) _) eqn:M; auto.
  apply mem_In in M. apply in_map_iff in M.
  destruct M as ((h, r) & E & Hrow). cbn [snd] in E.
  apply in_flat_map in Hrow. destruct Hrow as (h' & _ & Hr).
  apply in_map_iff in Hr. destruct Hr as (r' & E' & Hr').
  inversion E'; subst r'. apply out_rels_In in Hr'.
  destruct Hr' as (Hr1 & Hr2 & _). elim (Hid r Hr1 Hr2 E).
Qed.

(** What [update_head] leaves was there, or is a POINTS_TO relationship. *)
Lemma q_update_head_rels (branch commit_id : string) (g : graph) (e : rel) :
  In e (rels (q_update_head branch commit_id g)) ->
  In e (rels g) \/ rel_type e = POINTS_TO.
Proof.
  unfold q_update_head. rewrite create_rels_eq. cbn [rels delete_rels].
  intros H. apply in_app_or in H. destruct H as [H|H].
  - apply filter_In in H. tauto.
  - right. eapply Forall_forall in H; [|apply new_rels_type]. exact H.
Qed.

(** When the parent lookup of [create_commit] yields an id [p], on a graph
    with well-formed identities: the call returns normally and reports the
    link; every Commit node that carries the commit id (the new node, and any
    node that had the id before, for the id is not checked) has a PARENT
    relationship to every Commit node with id [p]; and when no Commit node
    has the id [p], the new node has no PARENT relationship at all, although
    the link is reported.  On master [p] is what the pointer file holds,
    whatever the HEAD of master points to. *)
Theorem create_commit_links_parent :
  forall (commit_id message user_id : string) (files : list (string * string))
         (commit_branch timestamp : string) (w : world) (p : string),
    parent_lookup commit_branch w = Some p ->
    wf_graph (db w) = true ->
    let r := create_commit commit_id message user_id files commit_branch
                           timestamp w in
    let g' := db (snd r) in
    fst r = Ok tt
    /\ In (Line ("Parent commit " ++ p ++ " linked to " ++ commit_id)%string)
          (stdout (snd r))
    /\ (forall child parent,
          node_id child = next_id (db w)
          \/ In child (match_nodes Commit commit_id (db w)) ->
          In parent (match_nodes Commit p (db w))
          \/ (p = commit_id /\ node_id parent = next_id (db w)) ->
          exists e, In e (rels g') /\ rel_type e = PARENT
                    /\ rel_start e = node_id child
                    /\ rel_end e = node_id parent)
    /\ (match_nodes Commit p (db w) = [] -> p <> commit_id ->
        out_rels PARENT (next_id (db w)) g' = []).
Proof.
  intros cid msg user files branch ts w p Hp Hwf r g'.
  destruct (create_commit_graph cid msg user files branch ts w)
    as (Hok & Hdb & Hout).
  fold r in Hok, Hdb, Hout. rewrite Hp in Hdb, Hout.
  unfold commit_graph in Hdb. cbv zeta in Hdb.
  set (g1 := q_create_commit cid msg ts user (db w)) in *.
  set (new := mkNode (next_id (db w)) Commit cid (Some msg) (Some ts)).
  destruct (q_create_commit_rels cid msg ts user (db w)) as (made & Hr & Hm).
  fold g1 in Hr.
  pose proof (q_create_commit_next cid msg ts user (db w)) as Hnext.
  fold g1 in Hnext.
  pose proof (wf_graph_rels _ Hwf) as Hold.
  refine (conj Hok (conj _ (conj _ _))).
  - rewrite Hout. apply in_or_app. right. now left.
  - intros child parent Hc Hpar.
    assert (Hc1 : exists c, In c (match_nodes Commit cid g1)
                            /\ node_id c = node_id child).
    { unfold g1. rewrite q_create_commit_match, String.eqb_refl.
      destruct Hc as [Hc|Hc].
      - exists new. split; [apply in_or_app; right; now left|now rewrite Hc].
      - exists child. split; [apply in_or_app; now left|reflexivity]. }
    assert (Hp1 : exists c, In c (match_nodes Commit p g1)
                            /\ node_id c = node_id parent).
    { unfold g1. rewrite q_create_commit_match.
      destruct Hpar as [Hpar|[-> Hpar]].
      - exists parent. split; [apply in_or_app; now left|reflexivity].
      - rewrite String.eqb_refl. exists new.
        split; [apply in_or_app; right; now left|now rewrite Hpar]. }
    destruct Hc1 as (c1 & Hc1 & E1). destruct Hp1 as (c2 & Hc2 & E2).
    destruct (@new_rels_In PARENT (next_id g1)
                (product (match_nodes Commit cid g1) (match_nodes Commit p g1))
                c1 c2) as (e & He & Ht & Hs & Hd).
    { apply in_product. auto. }
    exists e. rewrite <- E1, <- E2.
    refine (conj _ (conj Ht (conj Hs Hd))).
    unfold g'. rewrite Hdb. apply q_update_head_keeps.
    + unfold q_link_parent. rewrite create_rels_eq. cbn [rels].
      apply in_or_app. now right.
    + intros e' He' Ht' Eid.
      unfold q_link_parent in He'. rewrite create_rels_eq in He'.
      cbn [rels] in He'. apply in_app_or in He'. destruct He' as [He'|He'].
      * rewrite Hr in He'. apply in_app_or in He'. destruct He' as [He'|He'].
        -- rewrite Forall_forall in Hold. destruct (Hold e' He') as (Hlt & _).
           pose proof (new_rels_ids PARENT (next_id g1)
                         (product (match_nodes Commit cid g1)
                                  (match_nodes Commit p g1))) as Hge.
           rewrite Forall_forall in Hge. specialize (Hge e He). lia.
        -- rewrite Forall_forall in Hm. rewrite (Hm e' He') in Ht'.
           discriminate.
      * pose proof (new_rels_type PARENT (next_id g1)
                      (product (match_nodes Commit cid g1)
                               (match_nodes Commit p g1))) as T.
        rewrite Forall_forall in T. rewrite (T e' He') in Ht'. discriminate.
  - intros Hnone Hne. unfold g', out_rels. rewrite Hdb.
    apply filter_nil. apply Forall_forall. intros e He.
    apply q_update_head_rels in He.
    destruct (reltype_eqb (rel_type e) PARENT) eqn:Et; auto. simpl.
    destruct He as [He|He]; [|rewrite He in Et; discriminate].
    unfold q_link_parent in He. rewrite create_rels_eq in He.
    cbn [rels] in He.
    assert (Em : match_nodes Commit p g1 = []).
    { unfold g1. rewrite q_create_commit_match, Hnone.
      apply String.eqb_neq in Hne. rewrite String.eqb_sym in Hne.
      now rewrite Hne. }
    rewrite Em, product_nil_r in He. cbn [new_rels] in He.
    rewrite app_nil_r, Hr in He. apply in_app_or in He.
    destruct He as [He|He].
    + rewrite Forall_forall in Hold. destruct (Hold e He) as (_ & Hlt & _).
      apply Nat.eqb_neq. lia.
    + rewrite Forall_forall in Hm. rewrite (Hm e He) in Et. discriminate.
Qed.

(** A world in which the pointer file names the commit of another branch
    than the one the HEAD of master points to. *)
Definition switched_world : world :=
  snd ((create_branch "master" "root_commit" ;;
        create_branch_from_commit "dev" "d1") empty_world).

Lemma create_commit_links_parent_witness :
  let r := create_commit "c1" "first" "alice" [] "master" "t"
                         switched_world in
  single (head_rows "master" (db switched_world)) = Some "root_commit"
  /\ fst r = Ok tt
  /\ In (Line "Parent commit d1 linked to c1") (stdout (snd r)).
Proof.
  split; [reflexivity|].
  pose proof (@create_commit_links_parent "c1" "first" "alice" [] "master"
                "t" switched_world "d1" eq_refl eq_refl) as H.
  exact (conj (proj1 H) (proj1 (proj2 H))).
Defined.

(** ** The command line *)

(** The arguments as [parse_args] returns them.  For a commit, [files] is
    what [read_directory] collected from the directory given; a merge is
    given with its [--message]. *)
Inductive command :=
| NoArguments
| CommitCommand (commit_id message user_id : string)
                (files : list (string * string)) (branch_name : option string)
| BranchCommand (branch_name : string) (commit_id : option string)
| RevertCommand (commit_id directory : string)
| MergeCommand (source_branch target_branch user_id directory_delete
                message : string).

(** [try: body  except ValueError as e: handler(str(e))] *)
Definition try_except_ValueError (body : M unit) (handler : string -> M unit)
  : M unit :=
  fun w =>
    match body w with
    | (Raise (ValueError msg), w') => handler msg w'
    | rw => rw
    end.

(** What every run of the program starts with: the process has no S3 client
    yet, so [get_client] makes one, and [VersionControl.__init__] makes
    master the active branch and reports the connection. *)
Definition startup : M unit :=
  modify (set_s3_client false) ;;
  get_client ;;
  modify (set_current_branch "master") ;;
  print "Neo4j connection established successfully!".

Section Main.
Variable set_order : list string -> list string.
Variable timestamp : string.

Definition main (args : command) : M unit :=
  startup ;;
  match args with
  | NoArguments =>
      current <- gets current_branch ;;
      found <- branch_exists current ;;
      if found then ret tt
      else
        create_branch current "root_commit" ;;
        write_latest_commit "root_commit"
  | CommitCommand commit_id message user_id files branch_name =>
      let branch :=
        match truthy branch_name with
        | Some b => b
        | None => "master"
        end in
      create_commit commit_id message user_id files branch timestamp
  | BranchCommand branch_name commit_id =>
      match truthy commit_id with
      | Some c => create_branch_from_commit branch_name c
      | None => switch_branch branch_name
      end
  | RevertCommand commit_id directory =>
      revert_to_commit commit_id directory
  | MergeCommand source_branch target_branch user_id directory_delete
                 message =>
      try_except_ValueError
        (merge_branches set_order source_branch target_branch user_id message
                        directory_delete timestamp ;;
         print ("Successfully merged " ++ source_branch ++ " into "
                  ++ target_branch)%string)
        (fun e => print ("Merge failed: " ++ e)%string)
  end.
End Main.

(** The world after [startup]. *)
Definition started (w : world) : world :=
  add_stdout (Line "Neo4j connection established successfully!")
    (set_current_branch "master"
       (set_s3_client true
          (add_stdout (Line "Creating new S3 client...")
             (set_s3_client false w)))).

Lemma startup_run (w : world) : startup w = (Ok tt, started w).
Proof. reflexivity. Qed.

Lemma started_stores (w : world) :
  db (started w) = db w /\ s3 (started w) = s3 w
  /\ config (started w) = config w /\ workdir (started w) = workdir w.
Proof. repeat split. Qed.

Lemma main_no_arguments_run (set_order : list string -> list string)
      (timestamp : string) (w : world) :
  main set_order timestamp NoArguments w
  = match branch_rows "master" (db w) with
    | _ :: _ => (Ok tt, started w)
    | [] =>
        (Ok tt,
         set_config (Some "root_commit")
           (add_stdout
              (Line "Branch master created from commit root_commit")
              (set_db (q_create_branch_head "master" "root_commit"
                         (q_create_branch_base "master" "root_commit" (db w)))
                      (started w))))
    end.
Proof.
  unfold main. rewrite (bind_ok _ _ _ (startup_run w)).
  erewrite bind_ok by reflexivity.
  unfold branch_exists. erewrite bind_ok by reflexivity.
  cbn [db current_branch started add_stdout set_current_branch
       set_s3_client].
  destruct (branch_rows "master" (db w)); reflexivity.
Qed.

(** The program run without arguments, on a graph with well-formed
    identities.  It always returns normally and leaves bucket and directory
    alone.  When a Branch node of master exists it changes neither graph nor
    pointer file (even when there is no pointer file).  When there is
    neither Branch nor HEAD node of master, it creates the branch at
    [root_commit]: afterwards the branch exists, its HEAD resolves to
    [root_commit], the pointer file holds [root_commit], and a second run
    changes nothing more. *)
Theorem main_bootstrap :
  forall (set_order : list string -> list string) (timestamp : string)
         (w : world),
    wf_graph (db w) = true ->
    let r := main set_order timestamp NoArguments w in
    fst r = Ok tt
    /\ s3 (snd r) = s3 w /\ workdir (snd r) = workdir w
    /\ (branch_rows "master" (db w) <> [] ->
        db (snd r) = db w /\ config (snd r) = config w)
    /\ (branch_rows "master" (db w) = [] ->
        match_nodes HEAD "master" (db w) = [] ->
        fst (branch_exists "master" (snd r)) = Ok true
        /\ single (head_rows "master" (db (snd r))) = Some "root_commit"
        /\ config (snd r) = Some "root_commit"
        /\ let r2 := main set_order timestamp NoArguments (snd r) in
           fst r2 = Ok tt
           /\ db (snd r2) = db (snd r) /\ config (snd r2) = config (snd r)).
Proof.
  intros so ts w Hwf r. subst r. rewrite main_no_arguments_run.
  destruct (branch_rows "master" (db w)) as [|b bs] eqn:Eb.
  - cbn [fst snd s3 workdir db config set_config add_stdout set_db started
         set_current_branch set_s3_client].
    refine (conj eq_refl (conj eq_refl (conj eq_refl (conj _ _)))).
    + intros H. now elim H.
    + intros _ Hh.
      destruct (@create_branch_head_rows "master" "root_commit" (db w)
                  (wf_ids_ok _ Hwf) Hh) as (Hrows & Hb & _).
      set (g' := q_create_branch_head "master" "root_commit"
                   (q_create_branch_base "master" "root_commit" (db w))) in *.
      assert (Hex : exists b' bs', branch_rows "master" g' = b' :: bs').
      { unfold branch_rows. destruct (match_nodes Branch "master" g');
          [now elim Hb|eauto]. }
      destruct Hex as (b' & bs' & Hex).
      refine (conj _ (conj _ (conj eq_refl _))).
      * unfold branch_exists, bind, gets, ret.
        cbn [fst snd db set_config add_stdout set_db]. now rewrite Hex.
      * rewrite Hrows.
        now destruct (List.length (match_nodes Commit "root_commit" (db w))).
      * rewrite main_no_arguments_run.
        cbn [db set_config add_stdout set_db]. rewrite Hex.
        repeat split.
  - cbn [fst snd]. refine (conj eq_refl (conj eq_refl (conj eq_refl (conj _ _)))).
    + intros _. split; reflexivity.
    + discriminate.
Qed.

Lemma main_bootstrap_witness :
  let r := main (fun l => l) "t" NoArguments empty_world in
  fst (branch_exists "master" (snd r)) = Ok true
  /\ single (head_rows "master" (db (snd r))) = Some "root_commit"
  /\ config (snd r) = Some "root_commit".
Proof.
  destruct (@main_bootstrap (fun l => l) "t" empty_world eq_refl)
    as (_ & _ & _ & _ & H).
  destruct (H eq_refl eq_refl) as (H1 & H2 & H3 & _).
  exact (conj H1 (conj H2 H3)).
Defined.

(** ** The merge command *)

(** A ValueError of the merge is caught and reported; the program goes on. *)
Lemma main_merge_caught (set_order : list string -> list string)
      (timestamp source_branch target_branch user_id directory_delete
       message msg : string) (w : world) :
  fst (merge_branches set_order source_branch target_branch user_id message
                      directory_delete timestamp (started w))
  = Raise (ValueError msg) ->
  main set_order timestamp
       (MergeCommand source_branch target_branch user_id directory_delete
                     message) w
  = (Ok tt,
     add_stdout (Line ("Merge failed: " ++ msg)%string)
       (snd (merge_branches set_order source_branch target_branch user_id
                            message directory_delete timestamp (started w)))).
Proof.
  intros H. unfold main. rewrite (bind_ok _ _ _ (startup_run w)).
  unfold try_except_ValueError, bind at 1.
  destruct (merge_branches set_order source_branch target_branch user_id
              message directory_delete timestamp (started w)) as (res, w1).
  cbn [fst snd] in *. subst res. reflexivity.
Qed.

(** Any other exception of the merge leaves the program. *)
Lemma main_merge_escapes (set_order : list string -> list string)
      (timestamp source_branch target_branch user_id directory_delete
       message : string) (w : world) (e : exn) :
  fst (merge_branches set_order source_branch target_branch user_id message
                      directory_delete timestamp (started w))
  = Raise e ->
  (forall msg, e <> ValueError msg) ->
  main set_order timestamp
       (MergeCommand source_branch target_branch user_id directory_delete
                     message) w
  = (Raise e,
     snd (merge_branches set_order source_branch target_branch user_id
                         message directory_delete timestamp (started w))).
Proof.
  intros H Hne. unfold main. rewrite (bind_ok _ _ _ (startup_run w)).
  unfold try_except_ValueError, bind at 1.
  destruct (merge_branches set_order source_branch target_branch user_id
              message directory_delete timestamp (started w)) as (res, w1).
  cbn [fst snd] in *. subst res.
  destruct e; try reflexivity. now elim (Hne msg).
Qed.

(** With the target unchanged and the source changed, the merge checks the
    source head out first.  When the checkout raises, so does the merge. *)
Lemma merge_decision_checkout_raises
      (source_branch head_for_source_id head_for_target_id user_id message
       directory_delete timestamp : string)
      (hash_for_ancestor_dir hash_for_source_dir hash_for_target_dir : string)
      (w : world) (e : exn) :
  hash_for_target_dir = hash_for_ancestor_dir ->
  hash_for_source_dir <> hash_for_ancestor_dir ->
  fst (checkout head_for_source_id (s3 w) (workdir w)) = Raise e ->
  merge_decision source_branch head_for_source_id head_for_target_id user_id
                 message directory_delete timestamp hash_for_ancestor_dir
                 hash_for_source_dir hash_for_target_dir w
  = (Raise e,
     set_workdir (snd (checkout head_for_source_id (s3 w) (workdir w))) w).
Proof.
  intros -> Hs Hco. unfold merge_decision.
  rewrite String.eqb_refl.
  assert (E : String.eqb hash_for_ancestor_dir hash_for_source_dir = false)
    by (apply String.eqb_neq; congruence).
  rewrite E. cbn [andb negb].
  apply bind_raise. now apply revert_to_commit_raise.
Qed.

(** When the checkout returns, a pointer file whose id ends in an ASCII
    character that is no digit makes the merge raise after it. *)
Lemma merge_decision_after_checkout
      (source_branch head_for_source_id head_for_target_id user_id message
       directory_delete timestamp : string)
      (hash_for_ancestor_dir hash_for_source_dir hash_for_target_dir : string)
      (w : world) (last : string) (ch : ascii) :
  hash_for_target_dir = hash_for_ancestor_dir ->
  hash_for_source_dir <> hash_for_ancestor_dir ->
  fst (checkout head_for_source_id (s3 w) (workdir w)) = Ok tt ->
  config w = Some last -> last_char last = Some ch ->
  digit_value ch = None ->
  exists w',
    merge_decision source_branch head_for_source_id head_for_target_id user_id
                   message directory_delete timestamp hash_for_ancestor_dir
                   hash_for_source_dir hash_for_target_dir w
    = (Raise (ValueError ("invalid literal for int() with base 10: "
                            ++ repr_char ch)%string), w')
    /\ db w' = db w /\ s3 w' = s3 w /\ config w' = config w
    /\ workdir w' = snd (checkout head_for_source_id (s3 w) (workdir w)).
Proof.
  intros -> Hs Hco Hc Hl Hd. unfold merge_decision.
  rewrite String.eqb_refl.
  assert (E : String.eqb hash_for_ancestor_dir hash_for_source_dir = false)
    by (apply String.eqb_neq; congruence).
  rewrite E. cbn [andb negb].
  rewrite (bind_ok _ _ _ (revert_to_commit_ok _ _ _ Hco)).
  eexists. split.
  - apply bind_raise. unfold merge_commit.
    rewrite (bind_ok _ _ _ (print_run _ _)).
    unfold read_latest_commit. erewrite bind_ok by reflexivity.
    cbn [config add_stdout set_workdir]. rewrite Hc, Hl, Hd. reflexivity.
  - repeat split.
Qed.



(** A history made with the commands of the program: the root and a first
    commit on master, a branch [feature] with a commit that holds one file
    below [.cfg].  The merge of [feature] into master, into a directory that
    holds a file [.cfg], raises the error of the checkout: no merge commit is
    made, and the program ends with that error although the pointer ends in
    a digit. *)
Definition clash_world : world :=
  set_workdir [([".cfg"], File [x6b])]
    (snd ((create_branch "master" "root_commit" ;;
           write_latest_commit "root_commit" ;;
           create_commit "c1" "first" "alice" [] "master" "t1" ;;
           create_branch_from_commit "feature" "c1" ;;
           create_commit "c5" "second" "alice" [(".cfg/x", "1")] "feature"
                         "t2" ;;
           switch_branch "master") empty_world)).

Example merge_checkout_clash :
  let r := merge_branches (fun l => l) "feature" "master" "alice" "m" "dir"
                          "t3" clash_world in
  config clash_world = Some "c1"
  /\ fst r = Raise FileExistsError
  /\ db (snd r) = db clash_world
  /\ config (snd r) = Some "c1"
  /\ fst (main (fun l => l) "t3"
               (MergeCommand "feature" "master" "alice" "dir" "m")
               clash_world)
     = Raise FileExistsError.
Proof. vm_compute. repeat split. Qed.

(** ** The listing that is hashed *)

Definition by_key (key : string) : string := key.

Lemma insert_key_comm (x y : string) (l : list string) :
  insert_by by_key x (insert_by by_key y l)
  = insert_by by_key y (insert_by by_key x l).
Proof.
  destruct (string_dec x y) as [->|Hne]; [reflexivity|].
  now apply insert_by_comm.
Qed.

(** A key that comes last in the list comes where its order puts it. *)
Lemma sorted_keys_last (l : list string) (x : string) :
  sorted_by by_key (l ++ [x]) = insert_by by_key x (sorted_by by_key l).
Proof.
  induction l as [|a l IH]; [reflexivity|].
  cbn [app sorted_by fold_right]. fold (sorted_by by_key (l ++ [x])).
  fold (sorted_by by_key l). rewrite IH. apply insert_key_comm.
Qed.

(** Inserting a key that sorts after the first [n] keys leaves them. *)
Lemma firstn_insert_after (n : nat) (x : string) (s : list string) :
  n <= List.length s ->
  forallb (fun k => negb (String.leb x k)) (firstn n s) = true ->
  firstn n (insert_by by_key x s) = firstn n s.
Proof.
  revert s. induction n as [|n IH]; intros s Hn H; [reflexivity|].
  destruct s as [|k s]; [simpl in Hn; lia|].
  cbn [firstn forallb] in H. apply andb_true_iff in H. destruct H as [Hk H].
  apply negb_true_iff in Hk. cbn [insert_by]. unfold by_key at 1 2.
  rewrite Hk. cbn [firstn]. f_equal. apply IH; auto.
  simpl in Hn. lia.
Qed.

(** The keys under a prefix, after a put. *)
Lemma put_object_listed (prefix key : string) (content : list byte)
      (b : bucket) :
  let under (b0 : bucket) :=
    map fst (filter (fun o => startswith prefix (fst o)) b0) in
  under (put_object key content b) = under b
  \/ under (put_object key content b) = under b ++ [key].
Proof.
  cbv zeta. induction b as [|(k, c) b IH]; simpl.
  - destruct (startswith prefix key); auto.
  - destruct (String.eqb key k) eqn:E; simpl.
    + apply String.eqb_eq in E. subst k. left.
      now destruct (startswith prefix key).
    + destruct (startswith prefix k); simpl.
      * destruct IH as [->| ->]; auto.
      * exact IH.
Qed.

Lemma entries_same_objects (prefix : string) (keys : list string)
      (b b' : bucket) :
  (forall key, In key keys -> get_object key b' = get_object key b) ->
  entries prefix keys b' = entries prefix keys b.
Proof.
  unfold entries. induction keys as [|k keys IH]; intros H; simpl; auto.
  rewrite (H k) by now left. f_equal. apply IH. intros; apply H. now right.
Qed.

(** [fetch_version_hash] reads one response of [list_objects_v2], which
    holds the first keys under the prefix in key order, 1000 at most, and
    uses no paginator.  Once the snapshot of a commit lists 1000 objects, a
    put under a key that sorts after the first 1000 (a new object, or new
    content for an object that is there) has no part in the digests: the
    directory digest and the file digests returned are the ones before. *)
Theorem fetch_version_hash_first_thousand :
  forall (commit_id : string) (w : world) (key : string)
         (content : list byte),
    1000 <= List.length (list_objects (commit_id ++ "/") (s3 w)) ->
    forallb (fun k => negb (String.leb key k))
            (list_objects_v2 (commit_id ++ "/") (s3 w)) = true ->
    fst (fetch_version_hash commit_id
           (set_s3 (put_object key content (s3 w)) w))
    = fst (fetch_version_hash commit_id w).
Proof.
  intros cid w key content Hlen Hafter.
  destruct (fetch_version_hash_run cid w) as (w1 & -> & _).
  destruct (fetch_version_hash_run cid
              (set_s3 (put_object key content (s3 w)) w)) as (w2 & -> & _).
  cbn [fst s3 set_s3].
  set (prefix := (cid ++ "/")%string) in *.
  assert (Hl : list_objects_v2 prefix (put_object key content (s3 w))
               = list_objects_v2 prefix (s3 w)).
  { unfold list_objects_v2, list_objects in *.
    fold by_key in *.
    destruct (put_object_listed prefix key content (s3 w)) as [E|E];
      cbv zeta in E; rewrite E; [reflexivity|].
    rewrite sorted_keys_last. now apply firstn_insert_after. }
  assert (E : file_hashes cid (put_object key content (s3 w))
              = file_hashes cid (s3 w)).
  { unfold file_hashes. cbv zeta. fold prefix. rewrite Hl.
    apply entries_same_objects. intros k Hk.
    apply get_put_other. intros ->.
    assert (Hk' : In key (list_objects_v2 prefix (s3 w))).
    { eapply Permutation_in; [apply sorted_by_perm|exact Hk]. }
    rewrite forallb_forall in Hafter. specialize (Hafter _ Hk').
    apply negb_true_iff in Hafter.
    destruct (String.leb_total key key) as [H|H]; congruence. }
  unfold dir_digest. now rewrite E.
Qed.

(** A snapshot of a thousand empty files. *)
Definition thousand_world : world :=
  mkWorld (mkGraph [] [] 0)
          (map (fun n => (("c1/f" ++ str_of_nat n)%string, [])) (seq 0 1000))
          None [] "master" true [].

Lemma fetch_version_hash_first_thousand_witness :
  fst (fetch_version_hash "c1"
         (set_s3 (put_object "c1/z.txt" [x7a] (s3 thousand_world))
                 thousand_world))
  = fst (fetch_version_hash "c1" thousand_world).
Proof.
  apply (@fetch_version_hash_first_thousand "c1" thousand_world "c1/z.txt"
           [x7a]).
  - apply Nat.leb_le. vm_compute. reflexivity.
  - vm_compute. reflexivity.
Defined.

(** The listing is by key: an object put under a key that sorts before the
    others is listed first, whenever it was put. *)
Example listing_by_key :
  list_objects "c1/"
    (put_object "c1/a.txt" [] (put_object "c1/f0" [] (put_object "c2/x" [] [])))
  = ["c1/a.txt"; "c1/f0"].
Proof. reflexivity. Qed.

(* ================================================================== *)
(** * [file_checker.py] *)

(** The pages of the [list_objects_v2] paginator over a listing: at most
    1000 keys each.  [fuel] bounds the number of pages; the length of the
    listing is enough. *)
Fixpoint pages_from (fuel : nat) (keys : list string) : list (list string) :=
  match fuel, keys with
  | S fuel', _ :: _ => firstn 1000 keys :: pages_from fuel' (skipn 1000 keys)
  | _, _ => []
  end.

(** A page holds its [Contents], or none: the one page of an empty bucket
    has no such field.  The pages go through the keys of the bucket in key
    order. *)
Definition paginate (b : bucket) : list (option (list string)) :=
  match list_objects "" b with
  | [] => [None]
  | keys => map Some (pages_from (List.length keys) keys)
  end.

Definition list_all_s3_files : M unit :=
  b <- gets s3 ;;
  for_each (paginate b)
    (fun page =>
       match page with
       | Some contents => for_each contents print
       | None => print "nothing found"
       end).

(** The world with more lines printed. *)
Definition printed (ls : list line) (w : world) : world :=
  mkWorld (db w) (s3 w) (config w) (workdir w) (current_branch w)
          (s3_client w) (stdout w ++ ls).

Lemma printed_nil (w : world) : printed [] w = w.
Proof. unfold printed. rewrite app_nil_r. now destruct w. Qed.

Lemma printed_printed (a b : list line) (w : world) :
  printed b (printed a w) = printed (a ++ b) w.
Proof. unfold printed. cbn. now rewrite app_assoc. Qed.

Lemma for_each_print_lines (l : list string) (w : world) :
  for_each l print w = (Ok tt, printed (map Line l) w).
Proof.
  revert w. induction l as [|x l IH]; intros w.
  - now rewrite printed_nil.
  - cbn [for_each]. rewrite (bind_ok _ _ _ (print_run x w)), IH.
    f_equal. apply (printed_printed [Line x]).
Qed.

Lemma pages_from_concat (fuel : nat) (keys : list string) :
  List.length keys <= fuel -> List.concat (pages_from fuel keys) = keys.
Proof.
  revert keys. induction fuel as [|fuel IH]; intros keys H.
  - destruct keys; [reflexivity|simpl in H; lia].
  - destruct keys as [|k keys]; [reflexivity|].
    cbn [pages_from List.concat]. rewrite IH.
    + apply firstn_skipn.
    + rewrite length_skipn. simpl in *. lia.
Qed.

Lemma for_each_pages (pages : list (list string)) (w : world) :
  for_each (map Some pages)
    (fun page =>
       match page with
       | Some contents => for_each contents print
       | None => print "nothing found"
       end) w
  = (Ok tt, printed (map Line (List.concat pages)) w).
Proof.
  revert w. induction pages as [|p pages IH]; intros w.
  - now rewrite printed_nil.
  - cbn [map for_each List.concat].
    rewrite (bind_ok _ _ _ (for_each_print_lines p w)), IH.
    now rewrite printed_printed, map_app.
Qed.

Lemma list_objects_all (b : bucket) :
  Permutation (list_objects "" b) (map fst b).
Proof.
  unfold list_objects. rewrite sorted_by_perm.
  rewrite filter_all; [reflexivity|].
  apply Forall_forall. intros (k, c) _. now destruct k.
Qed.

(** [list_all_s3_files] prints every key of the bucket once, in the order of
    the listing (the order of the keys) and whatever the number of pages,
    and [nothing found] (once) exactly when the bucket is empty; it changes
    nothing else. *)
Theorem list_all_s3_files_prints :
  forall w : world,
    let keys := list_objects "" (s3 w) in
    list_all_s3_files w
    = (Ok tt,
       printed (match s3 w with
                | [] => [Line "nothing found"]
                | _ => map Line keys
                end) w)
    /\ Permutation keys (map fst (s3 w))
    /\ StronglySorted (fun k k' => String.leb k k' = true) keys.
Proof.
  intros w keys.
  refine (conj _ (conj (list_objects_all (s3 w)) _)).
  - unfold list_all_s3_files. erewrite bind_ok by reflexivity.
    unfold paginate. fold keys.
    pose proof (list_objects_all (s3 w)) as HP. fold keys in HP.
    destruct (s3 w) as [|o b] eqn:E.
    + apply Permutation_sym, Permutation_nil in HP. rewrite HP. reflexivity.
    + destruct keys as [|k ks] eqn:Ek.
      * apply Permutation_nil in HP. discriminate.
      * rewrite for_each_pages, pages_from_concat; auto.
  - apply (sorted_by_sorted (fun key : string => key)).
Qed.

(** A bucket of three objects, put in another order than that of their
    keys. *)
Example list_all_s3_files_example :
  let w := mkWorld (mkGraph [] [] 0)
                   [("c2/x", []); ("c1/b", []); ("c1/a", [])]
                   None [] "master" true [] in
  stdout (snd (list_all_s3_files w)) = [Line "c1/a"; Line "c1/b"; Line "c2/x"].
Proof. reflexivity. Qed.
